(** * Outreach orchestrator: lead-status state machine and its JSON store

    Shallow embedding of [src/agents/orchestrator.py] (the orchestrator
    started by [src/main.py]) together with the agents it calls
    ([src/agents/follow_up_agent.py], [src/agents/email_crafting_agent.py],
    [src/agents/sending_agent.py], [src/agents/lead_gen_agent.py]) and of the
    JSON persistence it relies on ([json.dump(.., indent=4)] and [json.load]);
    also of the earlier agents [src/follow_up_agent.py] and
    [src/orchestrator_agent.py], compared with the current ones.

    The world records whether the state file can be written: when [open]
    fails, [_save_state] of the current orchestrator logs the error and goes
    on, and that of the earlier one lets the error through.  It also records
    the calls to BigQuery ([src/utils/bigquery_client.py]) made by
    [_update_lead_status] to mirror each update.

    Python strings are modelled as Rocq [string]s whose characters are the
    code points 0..255 (Latin-1); JSON numbers are modelled as integers only. *)

From Stdlib Require Import String Ascii List ZArith Bool Lia Permutation.
Set Warnings "-register-all".
Import ListNotations.
Open Scope string_scope.
Open Scope list_scope.

(* ------------------------------------------------------------------ *)
(** ** Python values as loaded by [json.load] *)

Inductive json : Type :=
| JNull
| JBool (b : bool)
| JInt (z : Z)
| JStr (s : string)
| JList (l : list json)
| JDict (kv : list (string * json)).

(** Python truthiness of a JSON value. *)
Definition truthy (v : json) : bool :=
  match v with
  | JNull => false
  | JBool b => b
  | JInt z => negb (Z.eqb z 0)
  | JStr s => negb (String.eqb s EmptyString)
  | JList l => match l with [] => false | _ => true end
  | JDict kv => match kv with [] => false | _ => true end
  end.

(** Dictionary lookup ([d.get(k)] on a dict). *)
Fixpoint assoc {A} (k : string) (kv : list (string * A)) : option A :=
  match kv with
  | [] => None
  | (k', v) :: r => if String.eqb k k' then Some v else assoc k r
  end.

(** [d[k] = v]: an existing key keeps its position, a new key goes last. *)
Fixpoint dict_set {A} (k : string) (v : A) (kv : list (string * A))
  : list (string * A) :=
  match kv with
  | [] => [(k, v)]
  | (k', v') :: r =>
      if String.eqb k k' then (k', v) :: r else (k', v') :: dict_set k v r
  end.

(** [dict(pairs)]: later duplicates overwrite earlier ones in place. *)
Fixpoint dict_of_pairs_acc {A} (acc : list (string * A)) (l : list (string * A))
  : list (string * A) :=
  match l with
  | [] => acc
  | (k, v) :: r => dict_of_pairs_acc (dict_set k v acc) r
  end.

Definition dict_of_pairs {A} (l : list (string * A)) := dict_of_pairs_acc [] l.

(* ------------------------------------------------------------------ *)
(** ** [json.dump(obj, f, indent=4)] (ensure_ascii, separators [,] and [: ]) *)

Definition dq : ascii := ascii_of_nat 34.
Definition bslash : ascii := ascii_of_nat 92.

Definition hexdig (n : nat) : ascii :=
  if Nat.ltb n 10 then ascii_of_nat (48 + n) else ascii_of_nat (87 + n).

(** [py_encode_basestring_ascii], one character. *)
Definition escape_char (c : ascii) : list ascii :=
  let n := nat_of_ascii c in
  if Nat.eqb n 92 then [bslash; bslash]
  else if Nat.eqb n 34 then [bslash; dq]
  else if Nat.eqb n 8 then [bslash; "b"%char]
  else if Nat.eqb n 12 then [bslash; "f"%char]
  else if Nat.eqb n 10 then [bslash; "n"%char]
  else if Nat.eqb n 13 then [bslash; "r"%char]
  else if Nat.eqb n 9 then [bslash; "t"%char]
  else if Nat.leb 32 n && Nat.leb n 126 then [c]
  else [bslash; "u"%char; "0"%char; "0"%char; hexdig (n / 16); hexdig (n mod 16)].

Definition encode_str (s : string) : list ascii :=
  dq :: flat_map escape_char (list_ascii_of_string s) ++ [dq].

Definition newline_indent (lvl : nat) : list ascii :=
  "010"%char :: repeat " "%char (4 * lvl).

Fixpoint digits_of_pos (p : positive) (acc : list ascii) (fuel : nat) : list ascii :=
  match fuel with
  | O => acc
  | S f =>
      let q := Z.div (Zpos p) 10 in
      let d := ascii_of_nat (48 + Z.to_nat (Z.modulo (Zpos p) 10)) in
      match q with
      | Zpos q' => digits_of_pos q' (d :: acc) f
      | _ => d :: acc
      end
  end.

(** [str(z)]; the number of bits of [p] bounds its number of decimal digits. *)
Definition encode_int (z : Z) : list ascii :=
  match z with
  | Z0 => ["0"%char]
  | Zpos p => digits_of_pos p [] (Pos.size_nat p)
  | Zneg p => "-"%char :: digits_of_pos p [] (Pos.size_nat p)
  end.

(** [_iterencode] at nesting level [lvl]. *)
Fixpoint dump (lvl : nat) (v : json) : list ascii :=
  match v with
  | JNull => list_ascii_of_string "null"
  | JBool true => list_ascii_of_string "true"
  | JBool false => list_ascii_of_string "false"
  | JInt z => encode_int z
  | JStr s => encode_str s
  | JList [] => list_ascii_of_string "[]"
  | JList (x :: xs) =>
      "["%char :: newline_indent (S lvl) ++ dump (S lvl) x
        ++ (fix items (l : list json) : list ascii :=
              match l with
              | [] => []
              | y :: l' => ","%char :: newline_indent (S lvl) ++ dump (S lvl) y
                             ++ items l'
              end) xs
        ++ newline_indent lvl ++ ["]"%char]
  | JDict [] => list_ascii_of_string "{}"
  | JDict ((k, x) :: kvs) =>
      "{"%char :: newline_indent (S lvl) ++ encode_str k ++ [":"%char; " "%char]
        ++ dump (S lvl) x
        ++ (fix members (l : list (string * json)) : list ascii :=
              match l with
              | [] => []
              | (k', y) :: l' =>
                  ","%char :: newline_indent (S lvl) ++ encode_str k'
                    ++ [":"%char; " "%char] ++ dump (S lvl) y ++ members l'
              end) kvs
        ++ newline_indent lvl ++ ["}"%char]
  end.

Definition dumps (v : json) : list ascii := dump 0 v.

(* ------------------------------------------------------------------ *)
(** ** [json.load]

    The decoder of the standard [json] module on the inputs the model can
    represent.  Out of the model (rejected here): float literals, [NaN] and
    [Infinity], and [\u] escapes above U+00FF (the model's characters are
    Latin-1).  Nesting depth is bounded by a fuel argument. *)

Definition is_ws (c : ascii) : bool :=
  let n := nat_of_ascii c in
  Nat.eqb n 32 || Nat.eqb n 9 || Nat.eqb n 10 || Nat.eqb n 13.

Fixpoint skip_ws (s : list ascii) : list ascii :=
  match s with
  | c :: r => if is_ws c then skip_ws r else s
  | [] => []
  end.

Definition hexval (c : ascii) : option nat :=
  let n := nat_of_ascii c in
  if Nat.leb 48 n && Nat.leb n 57 then Some (n - 48)
  else if Nat.leb 97 n && Nat.leb n 102 then Some (n - 87)
  else if Nat.leb 65 n && Nat.leb n 70 then Some (n - 55)
  else None.

Definition cons_fst (c : ascii) (o : option (list ascii * list ascii))
  : option (list ascii * list ascii) :=
  match o with
  | Some (x, r) => Some (c :: x, r)
  | None => None
  end.

(** [scanstring], from just after the opening quote. *)
Fixpoint scan_string (s : list ascii) : option (list ascii * list ascii) :=
  match s with
  | [] => None
  | c :: r =>
      if Ascii.eqb c dq then Some ([], r)
      else if Ascii.eqb c bslash then
        match r with
        | [] => None
        | e :: r' =>
            let n := nat_of_ascii e in
            if Nat.eqb n 34 then cons_fst dq (scan_string r')
            else if Nat.eqb n 92 then cons_fst bslash (scan_string r')
            else if Nat.eqb n 47 then cons_fst "/"%char (scan_string r')
            else if Nat.eqb n 98 then cons_fst (ascii_of_nat 8) (scan_string r')
            else if Nat.eqb n 102 then cons_fst (ascii_of_nat 12) (scan_string r')
            else if Nat.eqb n 110 then cons_fst (ascii_of_nat 10) (scan_string r')
            else if Nat.eqb n 114 then cons_fst (ascii_of_nat 13) (scan_string r')
            else if Nat.eqb n 116 then cons_fst (ascii_of_nat 9) (scan_string r')
            else if Nat.eqb n 117 then
              match r' with
              | h1 :: h2 :: h3 :: h4 :: r'' =>
                  match hexval h1, hexval h2, hexval h3, hexval h4 with
                  | Some a, Some b, Some c', Some d =>
                      let code := a * 4096 + b * 256 + c' * 16 + d in
                      if Nat.ltb code 256 then cons_fst (ascii_of_nat code) (scan_string r'')
                      else None
                  | _, _, _, _ => None
                  end
              | _ => None
              end
            else None
        end
      else if Nat.ltb (nat_of_ascii c) 32 then None
      else cons_fst c (scan_string r)
  end.

Definition is_digit (c : ascii) : bool :=
  Nat.leb 48 (nat_of_ascii c) && Nat.leb (nat_of_ascii c) 57.

Fixpoint scan_digits (acc : Z) (s : list ascii) : Z * list ascii :=
  match s with
  | c :: r =>
      if is_digit c then scan_digits (acc * 10 + Z.of_nat (nat_of_ascii c - 48)) r
      else (acc, s)
  | [] => (acc, s)
  end.

(** An optional minus sign, then [0] or a nonzero digit followed by digits;
    a following [.], [e] or [E] would make a float. *)
Definition scan_int (s : list ascii) : option (json * list ascii) :=
  let '(neg, s1) := match s with
                    | c :: r => if Ascii.eqb c "-"%char then (true, r) else (false, s)
                    | [] => (false, s)
                    end in
  let finish (z : Z) (r : list ascii) :=
    match r with
    | c :: _ => if Ascii.eqb c "."%char || Ascii.eqb c "e"%char || Ascii.eqb c "E"%char
                then None else Some (JInt (if neg then Z.opp z else z), r)
    | [] => Some (JInt (if neg then Z.opp z else z), r)
    end in
  match s1 with
  | c :: r =>
      if Ascii.eqb c "0"%char then finish 0%Z r
      else if is_digit c then
        let '(z, r') := scan_digits (Z.of_nat (nat_of_ascii c - 48)) r in finish z r'
      else None
  | [] => None
  end.

Fixpoint parse_value (fuel : nat) (s : list ascii) {struct fuel}
  : option (json * list ascii) :=
  match fuel with
  | O => None
  | S f =>
      match skip_ws s with
      | [] => None
      | c :: r =>
          if Ascii.eqb c dq then
            match scan_string r with
            | Some (x, r') => Some (JStr (string_of_list_ascii x), r')
            | None => None
            end
          else if Ascii.eqb c "{"%char then
            match skip_ws r with
            | c' :: r' =>
                if Ascii.eqb c' "}"%char then Some (JDict [], r')
                else match parse_members f r with
                     | Some (kvs, r'') => Some (JDict (dict_of_pairs kvs), r'')
                     | None => None
                     end
            | [] => None
            end
          else if Ascii.eqb c "["%char then
            match skip_ws r with
            | c' :: r' =>
                if Ascii.eqb c' "]"%char then Some (JList [], r')
                else match parse_items f r with
                     | Some (xs, r'') => Some (JList xs, r'')
                     | None => None
                     end
            | [] => None
            end
          else match c :: r with
               | "n"%char :: "u"%char :: "l"%char :: "l"%char :: r' => Some (JNull, r')
               | "t"%char :: "r"%char :: "u"%char :: "e"%char :: r' => Some (JBool true, r')
               | "f"%char :: "a"%char :: "l"%char :: "s"%char :: "e"%char :: r' =>
                   Some (JBool false, r')
               | _ => scan_int (c :: r)
               end
      end
  end
(** Object members, from just after [{] or [,]. *)
with parse_members (fuel : nat) (s : list ascii) {struct fuel}
  : option (list (string * json) * list ascii) :=
  match fuel with
  | O => None
  | S f =>
      match skip_ws s with
      | c :: r =>
          if Ascii.eqb c dq then
            match scan_string r with
            | Some (k, r1) =>
                match skip_ws r1 with
                | c1 :: r2 =>
                    if Ascii.eqb c1 ":"%char then
                      match parse_value f r2 with
                      | Some (v, r3) =>
                          match skip_ws r3 with
                          | c3 :: r4 =>
                              if Ascii.eqb c3 ","%char then
                                match parse_members f r4 with
                                | Some (kvs, r5) =>
                                    Some ((string_of_list_ascii k, v) :: kvs, r5)
                                | None => None
                                end
                              else if Ascii.eqb c3 "}"%char then
                                Some ([(string_of_list_ascii k, v)], r4)
                              else None
                          | [] => None
                          end
                      | None => None
                      end
                    else None
                | [] => None
                end
            | None => None
            end
          else None
      | [] => None
      end
  end
(** Array items, from just after [[] or [,]. *)
with parse_items (fuel : nat) (s : list ascii) {struct fuel}
  : option (list json * list ascii) :=
  match fuel with
  | O => None
  | S f =>
      match parse_value f s with
      | Some (v, r1) =>
          match skip_ws r1 with
          | c :: r2 =>
              if Ascii.eqb c ","%char then
                match parse_items f r2 with
                | Some (vs, r3) => Some (v :: vs, r3)
                | None => None
                end
              else if Ascii.eqb c "]"%char then Some ([v], r2)
              else None
          | [] => None
          end
      | None => None
      end
  end.

(** [json.loads]: whitespace, one value, whitespace, end of text. *)
Definition loads (s : list ascii) : option json :=
  match parse_value (S (length s)) s with
  | Some (v, r) => match skip_ws r with [] => Some v | _ => None end
  | None => None
  end.

(* ------------------------------------------------------------------ *)
(** ** Python string helpers *)

Infix "+++" := String.append (right associativity, at level 60).

Definition dq_s : string := String dq EmptyString.

(** [str.isspace] on the code points 0..255. *)
Definition py_isspace (c : ascii) : bool :=
  let n := nat_of_ascii c in
  (Nat.leb 9 n && Nat.leb n 13) || (Nat.leb 28 n && Nat.leb n 32)
  || Nat.eqb n 133 || Nat.eqb n 160.

Fixpoint drop_space (l : list ascii) : list ascii :=
  match l with
  | c :: r => if py_isspace c then drop_space r else l
  | [] => []
  end.

(** [str.strip()]. *)
Definition strip (s : string) : string :=
  string_of_list_ascii (rev (drop_space (rev (drop_space (list_ascii_of_string s))))).

(** [s.replace('Z', '+00:00')]. *)
Fixpoint replace_Z (s : string) : string :=
  match s with
  | EmptyString => EmptyString
  | String c r =>
      if Ascii.eqb c "Z"%char then "+00:00" +++ replace_Z r else String c (replace_Z r)
  end.

Definition string_of_Z (z : Z) : string := string_of_list_ascii (encode_int z).
Definition string_of_nat (n : nat) : string := string_of_Z (Z.of_nat n).

(** [f"{v}"] for a loaded JSON value (containers are not rendered). *)
Definition py_str (v : json) : string :=
  match v with
  | JNull => "None"
  | JBool true => "True"
  | JBool false => "False"
  | JInt z => string_of_Z z
  | JStr s => s
  | JList _ => "[...]"
  | JDict _ => "{...}"
  end.

Definition is_str (v : json) (s : string) : bool :=
  match v with JStr s' => String.eqb s' s | _ => false end.

(* ------------------------------------------------------------------ *)
(** ** Collaborators, world and the state/exception monad *)

(** [datetime] objects: timezone-aware (UTC instant) or naive, both in
    microseconds. *)
Inductive pydatetime : Type :=
| Aware (t : Z)
| Naive (t : Z).

(** The calls the orchestrator makes on [bq_client] ([src/utils/bigquery_client.py]). *)
Inductive bq_call : Type :=
| BqInsertLead (lead_data : list (string * string))
| BqUpdateStatus (email status : string)
| BqInsertEvent (email event_type : string).

(** Configuration ([config.py]) and the external services: Gmail, Gemini and
    the [datetime] library. *)
Record env : Type := mkEnv {
  follow_up_delay_hours : Z;
  your_name : string;
  your_title : string;
  portfolio_link : string;
  sender_email : string;
  (** [get_gmail_service()] returned a service *)
  gmail_service : bool;
  (** [genai.GenerativeModel(..)] was created *)
  gemini_model : bool;
  (** [bq_client.client] is set *)
  bq_enabled : bool;
  (** [messages().send(..).execute()] succeeds: to, from, subject, body *)
  gmail_send : string -> string -> string -> string -> bool;
  (** [messages().list(q=..).execute()]: number of messages, [None] on error *)
  gmail_list : string -> option nat;
  (** [generate_content(prompt).text]; [None] when the call raises *)
  gemini_generate : string -> option string;
  (** [datetime.fromisoformat]; [None] when it raises [ValueError] *)
  fromisoformat : string -> option pydatetime;
  (** [datetime.now(timezone.utc).isoformat()] at a given instant *)
  isoformat_utc : Z -> string;
  (** offset used by [timestamp()] on naive datetimes *)
  local_utc_offset : Z;
  (** the BigQuery job or row insert of a call succeeds *)
  bq_accepts : bq_call -> bool
}.

Inductive exn : Type :=
| KeyError (k : string)
| AttributeError
| TypeError
| ValueError
| HttpError
(** any other exception, e.g. the [OSError] of a failed [open] *)
| OtherError.

Inductive level : Type := Debug | Info | Warning | Error.

(** Observable interactions with the outside world. *)
Inductive event : Type :=
| EvSend (recipient subject body : string) (ok : bool)
| EvReplyQuery (query : string)
| EvGenerate (prompt : string).

Record world : Type := mkWorld {
  lead_status : json;
  state_file : option (list ascii);
  clock : Z;
  logs : list (level * string);
  events : list event;
  (** [open(self.state_file, 'w')] succeeds: the directory of the state file
      exists and may be written *)
  state_writable : bool;
  (** the calls sent to BigQuery, in order *)
  bq_calls : list bq_call
}.

Inductive outcome (A : Type) : Type :=
| Ok (a : A)
| Err (e : exn).
Arguments Ok {A} a.
Arguments Err {A} e.

Definition M (A : Type) : Type := world -> outcome A * world.

Definition ret {A} (a : A) : M A := fun w => (Ok a, w).
Definition bind {A B} (m : M A) (k : A -> M B) : M B :=
  fun w => match m w with
           | (Ok a, w') => k a w'
           | (Err e, w') => (Err e, w')
           end.
Definition raise {A} (e : exn) : M A := fun w => (Err e, w).
Definition try_except {A} (m : M A) (h : exn -> M A) : M A :=
  fun w => match m w with
           | (Err e, w') => h e w'
           | r => r
           end.
Definition try_finally {A} (m : M A) (fin : M unit) : M A :=
  fun w => match m w with
           | (r, w') => match fin w' with
                        | (Ok _, w'') => (r, w'')
                        | (Err e, w'') => (Err e, w'')
                        end
           end.

Notation "x <- m ;; k" := (bind m (fun x => k))
  (at level 61, m at next level, right associativity).
Notation "m ;; k" := (bind m (fun _ : unit => k))
  (at level 61, right associativity).

Definition get_lead_status : M json := fun w => (Ok w.(lead_status), w).
Definition put_lead_status (v : json) : M unit :=
  fun w => (Ok tt, mkWorld v w.(state_file) w.(clock) w.(logs) w.(events)
                     w.(state_writable) w.(bq_calls)).
(** [with open(self.state_file, 'w') as f: json.dump(..)]: [open] raises when
    the file cannot be written, and the file is then left as it was. *)
Definition write_state_file (txt : list ascii) : M unit :=
  fun w => if w.(state_writable)
           then (Ok tt, mkWorld w.(lead_status) (Some txt) w.(clock) w.(logs) w.(events)
                          w.(state_writable) w.(bq_calls))
           else (Err OtherError, w).
Definition read_state_file : M (option (list ascii)) := fun w => (Ok w.(state_file), w).
Definition utc_now : M Z := fun w => (Ok w.(clock), w).
Definition log (lv : level) (msg : string) : M unit :=
  fun w => (Ok tt, mkWorld w.(lead_status) w.(state_file) w.(clock)
                     (w.(logs) ++ [(lv, msg)]) w.(events) w.(state_writable) w.(bq_calls)).
Definition emit (ev : event) : M unit :=
  fun w => (Ok tt, mkWorld w.(lead_status) w.(state_file) w.(clock) w.(logs)
                     (w.(events) ++ [ev]) w.(state_writable) w.(bq_calls)).
(** A request sent to BigQuery. *)
Definition call_bq (c : bq_call) : M unit :=
  fun w => (Ok tt, mkWorld w.(lead_status) w.(state_file) w.(clock) w.(logs) w.(events)
                     w.(state_writable) (w.(bq_calls) ++ [c])).

(** [d.get(k, default)] on a loaded value. *)
Definition py_get (d : json) (k : string) (default : json) : M json :=
  match d with
  | JDict kv => ret (match assoc k kv with Some v => v | None => default end)
  | _ => raise AttributeError
  end.

(** [lead[k]] on a lead record ([Dict[str, str]]). *)
Definition getitem (lead : list (string * string)) (k : string) : M string :=
  match assoc k lead with Some v => ret v | None => raise (KeyError k) end.

(* ------------------------------------------------------------------ *)
(** ** The agents ([src/agents/*.py]) *)

Section Agents.
Variable E : env.

(** [int(dt.timestamp())]: seconds since the epoch, truncated. *)
Definition dt_timestamp (d : pydatetime) : Z :=
  match d with
  | Aware t => Z.quot t 1000000
  | Naive t => Z.quot (t - local_utc_offset E)%Z 1000000
  end.

Definition parse_iso (v : json) : M pydatetime :=
  match v with
  | JStr s => match fromisoformat E (replace_Z s) with
              | Some d => ret d
              | None => raise ValueError
              end
  | _ => raise AttributeError
  end.

(** [FollowUpAgent.check_for_reply]. *)
Definition check_for_reply (lead_email : string) (after_timestamp : json) : M bool :=
  if negb (gmail_service E) then
    log Error "Gmail service not available for reply checking";; ret false
  else
    try_except
      (after_dt <- parse_iso after_timestamp;;
       let after_unix_ts := dt_timestamp after_dt in
       let query := "from:" +++ lead_email +++ " after:" +++ string_of_Z after_unix_ts in
       emit (EvReplyQuery query);;
       match gmail_list E query with
       | None => raise HttpError
       | Some reply_count =>
           if Nat.ltb 0 reply_count then
             log Info ("Found " +++ string_of_nat reply_count +++ " reply(s) from " +++ lead_email);;
             ret true
           else
             log Debug ("No replies found from " +++ lead_email);;
             ret false
       end)
      (fun e => match e with
                | ValueError =>
                    log Error ("Invalid timestamp format for " +++ lead_email);; ret false
                | HttpError =>
                    log Error ("HTTP error checking replies from " +++ lead_email);; ret false
                | _ =>
                    log Error ("Unexpected error checking replies from " +++ lead_email);;
                    ret false
                end).

(** [timedelta(hours=..)] in microseconds. *)
Definition hours_us (h : Z) : Z := (h * 3600 * 1000000)%Z.

(** [FollowUpAgent.should_send_follow_up]; comparing a naive datetime with
    the aware current time raises [TypeError]. *)
Definition should_send_follow_up (initial_email_sent_timestamp : json) : M bool :=
  try_except
    (sent_time <- parse_iso initial_email_sent_timestamp;;
     now <- utc_now;;
     match sent_time with
     | Naive _ => raise TypeError
     | Aware sent =>
         let follow_up_time := (sent + hours_us (follow_up_delay_hours E))%Z in
         let should_send := Z.leb follow_up_time now in
         (if should_send then log Info "Follow-up time reached"
          else log Debug "Follow-up not due yet");;
         ret should_send
     end)
    (fun e => match e with
              | ValueError => log Error "Invalid timestamp format";; ret false
              | _ => log Error "Error calculating follow-up timing";; ret false
              end).

Definition initial_body_template (firstName : string) : string :=
  "Hi "
    +++ firstName
    +++ ",

I'm "
    +++ your_name E
    +++ " from Reason GTMC. We partner with creators and brands like yours to tell powerful stories through cinematic video.

Our team handles every aspect of production, from initial concept and creative strategy to the final cut, using the industry's best equipment to bring ambitious ideas to life. We believe the best work comes from true collaboration, where we serve as the creative and technical engine for your vision. This means we start by diving deep into your brand's objectives to ensure we're perfectly aligned.

Our in-house process covers everything: storyboarding, scripting, on-location shooting, and meticulous post-production, including cinematic editing, color grading, and sound design.

Whether it's a documentary that captures your brand's ethos, a high-energy brand campaign, or a polished podcast series, we build a process around your goals to ensure the final product is both beautiful and impactful.

Here's a glimpse into our style: "
    +++ portfolio_link E
    +++ "

If you're looking for a dedicated partner for your next project, we'd love to schedule a brief call to learn more about your vision.

All the best,

"
    +++ your_name E
    +++ "
"
    +++ your_title E
    +++ "
Reason GTM&C".

(** [EmailCraftingAgent.draft_initial_email]: a missing field is caught and
    answered with a placeholder draft. *)
Definition draft_initial_email (lead : list (string * string))
  : M (list (string * string)) :=
  try_except
    (company <- getitem lead "company";;
     let subject := "A Partnership in Storytelling for " +++ company in
     firstName <- getitem lead "firstName";;
     let body_template := initial_body_template firstName in
     email <- getitem lead "email";;
     log Info ("Drafted initial email for " +++ email);;
     ret [("subject", strip subject); ("body", strip body_template)])
    (fun e => match e with
              | KeyError k =>
                  log Error ("Missing required lead field: '" +++ k +++ "'");;
                  ret [("subject", "Error"); ("body", "Error drafting email")]
              | _ =>
                  log Error "Unexpected error drafting initial email";;
                  ret [("subject", "Error"); ("body", "Error drafting email")]
              end).

Definition follow_up_prompt (firstName company : string) : string :=
  "You are an expert copywriter specializing in friendly, professional, and non-pushy follow-up emails.
Your goal is to gently remind the recipient of the previous email without being annoying.

Draft a concise, friendly follow-up email for the following lead:
- Name: "
    +++ firstName
    +++ "
- Company: "
    +++ company
    +++ "

Instructions:
1. Keep the entire email under 60 words.
2. Reference the quality of our work or our showreel.
3. Gently "
    +++ dq_s
    +++ "bump"
    +++ dq_s
    +++ " the original idea of a potential collaboration.
4. Do not include a subject line or any introduction like "
    +++ dq_s
    +++ "Here's the draft:"
    +++ dq_s
    +++ ". Just provide the raw body text.".

(** [EmailCraftingAgent.draft_follow_up_email]. *)
Definition draft_follow_up_email (lead : list (string * string))
  : M (option (list (string * string))) :=
  if negb (gemini_model E) then
    log Error "Gemini model not initialized. Cannot draft follow-up";; ret None
  else
    try_except
      (firstName <- getitem lead "firstName";;
       company <- getitem lead "company";;
       let prompt := follow_up_prompt firstName company in
       emit (EvGenerate prompt);;
       match gemini_generate E prompt with
       | None => raise OtherError
       | Some text =>
           if String.eqb text "" then
             log Error "Empty response from Gemini API";; ret None
           else
             let follow_up_body := strip text in
             let subject := "Re: A Partnership in Storytelling for " +++ company in
             let full_body := follow_up_body +++ "

All the best,

" +++ your_name E in
             email <- getitem lead "email";;
             log Info ("Drafted follow-up email for " +++ email);;
             ret (Some [("subject", subject); ("body", strip full_body)])
       end)
      (fun _ => log Error "Error generating follow-up with Gemini";; ret None).

(** [SendingAgent.send_email]. *)
Definition send_email (recipient_email subject body : string) : M bool :=
  if negb (gmail_service E) then
    log Error "Gmail service is not available. Cannot send email";; ret false
  else if String.eqb recipient_email "" || String.eqb subject "" || String.eqb body "" then
    log Error "Missing required email parameters";; ret false
  else
    try_except
      (let ok := gmail_send E recipient_email (sender_email E) subject body in
       emit (EvSend recipient_email subject body ok);;
       if ok then
         log Info ("Email successfully sent to " +++ recipient_email);; ret true
       else raise HttpError)
      (fun e => match e with
                | HttpError =>
                    log Error ("HTTP error sending email to " +++ recipient_email);; ret false
                | _ =>
                    log Error ("Unexpected error sending email to " +++ recipient_email);;
                    ret false
                end).

End Agents.

(* ------------------------------------------------------------------ *)
(** ** The orchestrator ([src/agents/orchestrator.py])

    The BigQuery mirror calls ([bq_client.insert_lead], [update_lead_status],
    [insert_email_event]) catch every exception, log, and return a flag the
    orchestrator ignores; they are recorded in [bq_calls].
    [get_campaign_analytics] only reads, and its figures only reach the log. *)

Section Orchestrator.
Variable E : env.

(** [BigQueryClient.insert_lead]. *)
Definition bq_insert_lead (lead_data : list (string * string)) : M bool :=
  if negb (bq_enabled E) then ret false else
  match assoc "email" lead_data with
  | None => log Error "Error inserting lead unknown";; ret false
  | Some email =>
      call_bq (BqInsertLead lead_data);;
      if bq_accepts E (BqInsertLead lead_data) then
        log Info ("Inserted/updated lead: " +++ email);; ret true
      else log Error ("Error inserting lead " +++ email);; ret false
  end.

(** [BigQueryClient.insert_email_event]. *)
Definition bq_insert_email_event (email event_type : string) : M bool :=
  if negb (bq_enabled E) then ret false else
  call_bq (BqInsertEvent email event_type);;
  if bq_accepts E (BqInsertEvent email event_type) then
    log Info ("Inserted email event: " +++ event_type +++ " for " +++ email);; ret true
  else log Error ("Error inserting email event for " +++ email);; ret false.

(** [BigQueryClient.update_lead_status]. *)
Definition bq_update_lead_status (email status : string) : M bool :=
  if negb (bq_enabled E) then ret false else
  call_bq (BqUpdateStatus email status);;
  if bq_accepts E (BqUpdateStatus email status) then
    log Info ("Updated lead status for " +++ email +++ " to " +++ status);; ret true
  else log Error ("Error updating lead status for " +++ email);; ret false.

Definition py_len (v : json) : option nat :=
  match v with
  | JStr s => Some (String.length s)
  | JList l => Some (length l)
  | JDict kv => Some (length kv)
  | _ => None
  end.

(** [OrchestratorAgent._load_state]: a missing file, invalid JSON, or a value
    without [len] ([TypeError] in the log line) all give [{}]. *)
Definition load_state : M json :=
  file <- read_state_file;;
  match file with
  | None => log Info "No existing state file found, starting fresh";; ret (JDict [])
  | Some txt =>
      match loads txt with
      | None => log Error "Invalid JSON in state file";; ret (JDict [])
      | Some state =>
          match py_len state with
          | Some n => log Info ("Loaded state for " +++ string_of_nat n +++ " leads");; ret state
          | None => log Error "Error loading state";; ret (JDict [])
          end
      end
  end.

(** [OrchestratorAgent._save_state]: a failed write is logged, not raised. *)
Definition save_state : M unit :=
  try_except
    (ls <- get_lead_status;;
     write_state_file (dumps ls);;
     log Debug "State saved successfully")
    (fun _ => log Error "Error saving state").

(** [OrchestratorAgent.__init__]: [self.lead_status = self._load_state()]. *)
Definition init : M unit :=
  st <- load_state;;
  put_lead_status st;;
  log Info "Initializing subordinate agents...";;
  log Info "All agents initialized successfully".

Definition now_iso : M string := t <- utc_now;; ret (isoformat_utc E t).

(** [self.lead_status[email][field] = v]; the record must be a dict. *)
Definition set_record_field (email field : string) (v : json) : M unit :=
  ls <- get_lead_status;;
  match ls with
  | JDict kv =>
      match assoc email kv with
      | Some (JDict r) => put_lead_status (JDict (dict_set email (JDict (dict_set field v r)) kv))
      | Some _ => raise TypeError
      | None => raise (KeyError email)
      end
  | _ => raise TypeError
  end.

(** The [if bq_client.client:] block of [_update_lead_status]. *)
Definition mirror_update (email status : string) : M unit :=
  if bq_enabled E then
    _ <- bq_update_lead_status email status;;
    if String.eqb status "INITIAL_EMAIL_SENT" then
      _ <- bq_insert_email_event email "INITIAL_SENT";; ret tt
    else if String.eqb status "FOLLOW_UP_SENT" then
      _ <- bq_insert_email_event email "FOLLOW_UP_SENT";; ret tt
    else if String.eqb status "REPLIED" then
      _ <- bq_insert_email_event email "REPLIED";; ret tt
    else ret tt
  else ret tt.

(** [OrchestratorAgent._update_lead_status]; its callers have already used
    [self.lead_status] as a dict, the non-dict branch is not reached. *)
Definition update_lead_status (email status timestamp : string) : M unit :=
  ls <- get_lead_status;;
  (match ls with
   | JDict kv =>
       match assoc email kv with
       | None => put_lead_status (JDict (dict_set email (JDict []) kv))
       | Some _ => ret tt
       end
   | _ => raise TypeError
   end);;
  set_record_field email "status" (JStr status);;
  (if String.eqb status "INITIAL_EMAIL_SENT" then
     set_record_field email "initial_sent_timestamp" (JStr timestamp)
   else if String.eqb status "FOLLOW_UP_SENT" then
     set_record_field email "follow_up_sent_timestamp" (JStr timestamp)
   else if String.eqb status "REPLIED" then
     set_record_field email "replied_timestamp" (JStr timestamp)
   else ret tt);;
  save_state;;
  mirror_update email status;;
  log Info ("Updated status for " +++ email +++ " to " +++ status).

(** [draft and draft.get('subject') and draft.get('body')]. *)
Definition draft_ok (draft : list (string * string)) : option (string * string) :=
  match assoc "subject" draft, assoc "body" draft with
  | Some subject, Some body =>
      if negb (String.eqb subject "") && negb (String.eqb body "")
      then Some (subject, body) else None
  | _, _ => None
  end.

(** Body of the loop of [_process_new_leads] for one lead. *)
Definition process_new_lead (lead : list (string * string)) (new_leads_count : nat)
  : M nat :=
  email <- getitem lead "email";;
  ls <- get_lead_status;;
  r <- py_get ls email (JDict []);;
  status <- py_get r "status" (JStr "PENDING");;
  if is_str status "PENDING" then
    log Info ("Processing new lead: " +++ email);;
    draft <- draft_initial_email E lead;;
    (match draft_ok draft with
     | Some (subject, body) =>
         success <- send_email E email subject body;;
         if success then
           sent_timestamp <- now_iso;;
           update_lead_status email "INITIAL_EMAIL_SENT" sent_timestamp
         else log Error ("Failed to send initial email to " +++ email)
     | None => log Error ("Failed to draft initial email for " +++ email)
     end);;
    ret (S new_leads_count)
  else
    log Debug ("Skipping lead " +++ email +++ " with status: " +++ py_str status);;
    ret new_leads_count.

Fixpoint new_leads_loop (leads : list (list (string * string))) (count : nat) : M nat :=
  match leads with
  | [] => ret count
  | lead :: rest => count' <- process_new_lead lead count;; new_leads_loop rest count'
  end.

(** [OrchestratorAgent._process_new_leads]. *)
Definition process_new_leads (all_leads : list (list (string * string))) : M unit :=
  n <- new_leads_loop all_leads 0;;
  log Info ("Processed " +++ string_of_nat n +++ " new leads for initial outreach").

(** [next((l for l in all_leads if l['email'] == email), None)]. *)
Fixpoint find_lead (all_leads : list (list (string * string))) (email : string)
  : M (option (list (string * string))) :=
  match all_leads with
  | [] => ret None
  | l :: rest =>
      e <- getitem l "email";;
      if String.eqb e email then ret (Some l) else find_lead rest email
  end.

(** Body of the loop of [_process_follow_ups] for one item [(email, data)] of
    [list(self.lead_status.items())].  [data] is the record object itself;
    only this iteration mutates it, so its value here is the current one. *)
Definition process_follow_up (all_leads : list (list (string * string)))
  (item : string * json) (counts : nat * nat) : M (nat * nat) :=
  let '(email, data) := item in
  let '(follow_up_count, reply_count) := counts in
  status <- py_get data "status" JNull;;
  if negb (is_str status "INITIAL_EMAIL_SENT") then ret counts else
  log Debug ("Checking status for " +++ email);;
  initial_sent_time <- py_get data "initial_sent_timestamp" JNull;;
  if negb (truthy initial_sent_time) then
    log Warning ("Missing initial_sent_timestamp for " +++ email);; ret counts
  else
  replied <- check_for_reply E email initial_sent_time;;
  if replied then
    ts <- now_iso;;
    update_lead_status email "REPLIED" ts;;
    ret (follow_up_count, S reply_count)
  else
  due <- should_send_follow_up E initial_sent_time;;
  if due then
    log Info ("Time to send follow-up to " +++ email);;
    lead_data <- find_lead all_leads email;;
    match lead_data with
    | None | Some [] =>
        log Error ("Could not find lead data for " +++ email +++ " to send follow-up");;
        ret counts
    | Some lead =>
        follow_up_draft <- draft_follow_up_email E lead;;
        match match follow_up_draft with Some d => draft_ok d | None => None end with
        | Some (subject, body) =>
            success <- send_email E email subject body;;
            if success then
              ts <- now_iso;;
              update_lead_status email "FOLLOW_UP_SENT" ts;;
              ret (S follow_up_count, reply_count)
            else
              log Error ("Failed to send follow-up to " +++ email);; ret counts
        | None => log Error ("Failed to draft follow-up for " +++ email);; ret counts
        end
    end
  else ret counts.

Fixpoint follow_ups_loop (all_leads : list (list (string * string)))
  (items : list (string * json)) (counts : nat * nat) : M (nat * nat) :=
  match items with
  | [] => ret counts
  | item :: rest =>
      counts' <- process_follow_up all_leads item counts;;
      follow_ups_loop all_leads rest counts'
  end.

Definition py_items (d : json) : M (list (string * json)) :=
  match d with JDict kv => ret kv | _ => raise AttributeError end.

(** [OrchestratorAgent._process_follow_ups]. *)
Definition process_follow_ups (all_leads : list (list (string * string))) : M unit :=
  ls <- get_lead_status;;
  items <- py_items ls;;
  counts <- follow_ups_loop all_leads items (0, 0);;
  log Info ("Processed follow-ups: " +++ string_of_nat (fst counts) +++ " sent, "
            +++ string_of_nat (snd counts) +++ " replies detected").

(** The loop of [run_workflow] that mirrors the fetched leads into BigQuery:
    [lead.copy()] with [status] set to the stored one. *)
Fixpoint bq_insert_leads (leads : list (list (string * string))) : M unit :=
  match leads with
  | [] => ret tt
  | lead :: rest =>
      email <- getitem lead "email";;
      ls <- get_lead_status;;
      r <- py_get ls email (JDict []);;
      status <- py_get r "status" (JStr "PENDING");;
      _ <- bq_insert_lead (dict_set "status" (py_str status) lead);;
      bq_insert_leads rest
  end.

Definition rule50 : string := string_of_list_ascii (repeat "="%char 50).

(** [OrchestratorAgent.run_workflow]; [all_leads] is what
    [LeadGenerationAgent.fetch_leads()] returned. *)
Definition run_workflow (all_leads : list (list (string * string))) : M unit :=
  log Info rule50;;
  log Info "Starting outreach workflow...";;
  log Info rule50;;
  try_finally
    (try_except
       (match all_leads with
        | [] => log Warning "No leads fetched. Exiting workflow"
        | _ =>
            (if bq_enabled E then bq_insert_leads all_leads else ret tt);;
            log Info "Processing initial outreach for new leads...";;
            process_new_leads all_leads;;
            log Info "Processing follow-ups and checking for replies...";;
            process_follow_ups all_leads;;
            (if bq_enabled E then log Info "CAMPAIGN ANALYTICS" else ret tt);;
            log Info "Workflow completed successfully"
        end)
       (fun e => log Error "Workflow failed with error";; raise e))
    save_state.

(** [main()]: construct the orchestrator, then run the workflow. *)
Definition main_run (all_leads : list (list (string * string))) : M unit :=
  init;; run_workflow all_leads.

End Orchestrator.

(* ------------------------------------------------------------------ *)
(** ** Reference descriptions used by the proofs *)

(** The record [_update_lead_status] leaves behind for [status]/[timestamp]. *)
Definition record_after_update (st ts : string) (r : list (string * json))
  : list (string * json) :=
  let r1 := dict_set "status" (JStr st) r in
  if String.eqb st "INITIAL_EMAIL_SENT" then dict_set "initial_sent_timestamp" (JStr ts) r1
  else if String.eqb st "FOLLOW_UP_SENT" then dict_set "follow_up_sent_timestamp" (JStr ts) r1
  else if String.eqb st "REPLIED" then dict_set "replied_timestamp" (JStr ts) r1
  else r1.

(** The world with the store replaced. *)
Definition with_store (w : world) (v : json) : world :=
  mkWorld v (state_file w) (clock w) (logs w) (events w) (state_writable w) (bq_calls w).

(** The world [_save_state] leaves behind. *)
Definition saved (w : world) : world := snd (save_state w).

(** The world the last steps of [_update_lead_status] (save, BigQuery mirror,
    log line) leave behind. *)
Definition update_tail (E : env) (email status : string) (w : world) : world :=
  snd ((save_state;; mirror_update E email status;;
        log Info ("Updated status for " +++ email +++ " to " +++ status)) w).

(** An operation that returns normally and changes only the log and the
    BigQuery calls. *)
Definition quiet {A} (m : M A) : Prop :=
  forall w, exists a w', m w = (Ok a, w')
    /\ lead_status w' = lead_status w /\ state_file w' = state_file w
    /\ clock w' = clock w /\ events w' = events w /\ state_writable w' = state_writable w.

(** An operation that never changes whether the state file can be written,
    and leaves an unwritable state file as it was. *)
Definition file_frame {A} (m : M A) : Prop :=
  forall w r w', m w = (r, w') ->
  state_writable w' = state_writable w /\ (state_writable w = false -> state_file w' = state_file w).

(** An operation that leaves the store and the clock alone. *)
Definition store_frame {A} (m : M A) : Prop :=
  forall w r w', m w = (r, w') -> lead_status w' = lead_status w /\ clock w' = clock w.

(** The record of [email] counts as [PENDING] for Phase A: absent, or a
    dict whose [status] is missing or the string [PENDING]. *)
Definition pending_at (kv : list (string * json)) (email : string)
  (rec : list (string * json)) : Prop :=
  (assoc email kv = None /\ rec = [])
  \/ (assoc email kv = Some (JDict rec)
      /\ (assoc "status" rec = None \/ assoc "status" rec = Some (JStr "PENDING"))).

(** The members of a non-empty object after the first one, as [dump]
    writes them at level [lvl]. *)
Fixpoint members_text (lvl : nat) (l : list (string * json)) : list ascii :=
  match l with
  | [] => []
  | (k', y) :: l' =>
      ","%char :: newline_indent (S lvl) ++ encode_str k'
        ++ [":"%char; " "%char] ++ dump (S lvl) y ++ members_text lvl l'
  end.

(** A lead record as the orchestrator writes it: string fields, no key twice. *)
Definition str_record (r : list (string * json)) : Prop :=
  NoDup (map fst r) /\ Forall (fun p => exists s, snd p = JStr s) r.

(** A well-formed status mapping: an object of such records, keyed by email,
    no email twice. *)
Definition wf_mapping (m : json) : Prop :=
  exists kv, m = JDict kv /\ NoDup (map fst kv)
             /\ Forall (fun p => exists r, snd p = JDict r /\ str_record r) kv.

(** [v] printed at level [lvl] is read back as [v], whatever follows, by
    the decoder given more fuel than the text has characters. *)
Definition parses_at (lvl : nat) (v : json) : Prop :=
  forall f rest, length (dump lvl v) < f -> parse_value f (dump lvl v ++ rest) = Some (v, rest).

(** The three timestamp fields of a record. *)
Definition ts_fields : list string :=
  ["initial_sent_timestamp"; "follow_up_sent_timestamp"; "replied_timestamp"].

(** Position of a record on PENDING, INITIAL_EMAIL_SENT, FOLLOW_UP_SENT,
    REPLIED (a missing [status] reads as PENDING, as in Phase A); [None] for
    any other status value. *)
Definition rank (r : list (string * json)) : option nat :=
  match assoc "status" r with
  | None => Some 0
  | Some (JStr s) =>
      if String.eqb s "PENDING" then Some 0
      else if String.eqb s "INITIAL_EMAIL_SENT" then Some 1
      else if String.eqb s "FOLLOW_UP_SENT" then Some 2
      else if String.eqb s "REPLIED" then Some 3
      else None
  | Some _ => None
  end.

(** Timestamps a record may carry at its stage: none while PENDING, only
    [initial_sent_timestamp] at INITIAL_EMAIL_SENT. *)
Definition consistent_rec (r : list (string * json)) : Prop :=
  match rank r with
  | Some 0 => forall f, In f ts_fields -> assoc f r = None
  | Some 1 => assoc "follow_up_sent_timestamp" r = None /\ assoc "replied_timestamp" r = None
  | _ => True
  end.

Definition consistent_store (kv : list (string * json)) : Prop :=
  NoDup (map fst kv) /\ forall e r, assoc e kv = Some (JDict r) -> consistent_rec r.

(** The record of [email]: an absent key is the empty (PENDING) record, a
    stored value that is not an object is [None]. *)
Definition rec_at (kv : list (string * json)) (email : string)
  : option (list (string * json)) :=
  match assoc email kv with
  | None => Some []
  | Some (JDict r) => Some r
  | Some _ => None
  end.

(** A record moved forward: it is unchanged, or its stage strictly grew and
    every timestamp it had keeps its value. *)
Definition rec_forward (o o' : option (list (string * json))) : Prop :=
  o' = o
  \/ exists r r' n n', o = Some r /\ o' = Some r' /\ rank r = Some n /\ rank r' = Some n'
       /\ n < n'
       /\ forall f v, In f ts_fields -> assoc f r = Some v -> assoc f r' = Some v.

(** Every record of a consistent store moved forward, and the store stays
    consistent. *)
Definition fw_store (s s' : json) : Prop :=
  forall kv, s = JDict kv -> consistent_store kv ->
  exists kv', s' = JDict kv' /\ consistent_store kv'
              /\ forall e, rec_forward (rec_at kv e) (rec_at kv' e).

(** An operation after which every record of a consistent store has moved
    forward. *)
Definition fw_op {A} (m : M A) : Prop :=
  forall w r w', m w = (r, w') -> fw_store (lead_status w) (lead_status w').

(** Sample configuration and services used to exercise the theorems: the
    clock reads 2024-01-03T00:00:00Z, the one parseable timestamp is
    2024-01-01T00:00:00 (aware, or naive without an offset), sends succeed,
    the inbox search answers [replies]. *)
Definition t_sent : Z := 1704067200000000.
Definition t_now : Z := 1704240000000000.

Definition sample_env (replies : option nat) : env := {|
  follow_up_delay_hours := 48;
  your_name := "Sam";
  your_title := "Producer";
  portfolio_link := "https://example.com/reel";
  sender_email := "me@example.com";
  gmail_service := true;
  gemini_model := true;
  bq_enabled := false;
  gmail_send := fun _ _ _ _ => true;
  gmail_list := fun _ => replies;
  gemini_generate := fun _ => Some "Just following up on my earlier note.";
  fromisoformat := fun s =>
    if String.eqb s "2024-01-01T00:00:00+00:00" then Some (Aware t_sent)
    else if String.eqb s "2024-01-01T00:00:00" then Some (Naive t_sent)
    else None;
  isoformat_utc := fun t =>
    if Z.eqb t t_now then "2024-01-03T00:00:00+00:00" else "1970-01-01T00:00:00+00:00";
  local_utc_offset := 0;
  bq_accepts := fun _ => true
|}.

Definition E0 : env := sample_env (Some 0).

Definition world0 (store : json) : world := mkWorld store None t_now [] [] true [].

Definition lead_ana : list (string * string) :=
  [("firstName", "Ana"); ("email", "ana@x.com"); ("company", "Acme")].

Definition sent_record (ts : string) : json :=
  JDict [("status", JStr "INITIAL_EMAIL_SENT"); ("initial_sent_timestamp", JStr ts)].

(** A store after a first run: Ana's initial email went out at t_sent. *)
Definition ana_record : list (string * json) :=
  [("status", JStr "INITIAL_EMAIL_SENT");
   ("initial_sent_timestamp", JStr "2024-01-01T00:00:00Z")].

Definition store_sent : json := JDict [("ana@x.com", JDict ana_record)].

(** A store holding one value that is not a record object, and a lead for it. *)
Definition store_bad : json := JDict [("bad@x.com", JStr "oops")].

Definition lead_bad : list (string * string) :=
  [("firstName", "Bo"); ("email", "bad@x.com"); ("company", "Brix")].

(** A lead without a first name. *)
Definition lead_noname : list (string * string) := [("email", "ana@x.com"); ("company", "Acme")].

(* ------------------------------------------------------------------ *)
(** ** Lead generation ([src/agents/lead_gen_agent.py]) *)

(** [repr(s)] of a Python string on the code points 0..255. *)
Definition py_repr_char (quote c : ascii) : list ascii :=
  let n := nat_of_ascii c in
  if Ascii.eqb c quote || Nat.eqb n 92 then [bslash; c]
  else if Nat.eqb n 9 then [bslash; "t"%char]
  else if Nat.eqb n 10 then [bslash; "n"%char]
  else if Nat.eqb n 13 then [bslash; "r"%char]
  else if Nat.ltb n 32 || Nat.eqb n 127 || (Nat.leb 128 n && Nat.leb n 160) || Nat.eqb n 173
  then [bslash; "x"%char; hexdig (n / 16); hexdig (n mod 16)]
  else [c].

Definition py_repr (s : string) : string :=
  let l := list_ascii_of_string s in
  let quote := if existsb (Ascii.eqb "'"%char) l && negb (existsb (Ascii.eqb dq) l)
               then dq else "'"%char in
  string_of_list_ascii (quote :: flat_map (py_repr_char quote) l ++ [quote]).

(** [str(row)] for a list of strings. *)
Definition py_str_list (row : list string) : string :=
  "[" +++ String.concat ", " (map py_repr row) +++ "]".

(** A regular expression made of literal characters and repeated character
    classes ([cls{min,}]), which is all the email pattern uses. *)
Inductive re_item : Type :=
| RLit (c : ascii)
| RRep (cls : ascii -> bool) (min : nat).

(** [cls{min,}] followed by what [k] accepts, with backtracking. *)
Fixpoint re_rep (cls : ascii -> bool) (min : nat) (k : list ascii -> bool)
  (s : list ascii) : bool :=
  (Nat.eqb min 0 && k s)
  || match s with
     | c :: r => cls c && re_rep cls (pred min) k r
     | [] => false
     end.

(** [re.match('^' items '$', s)]; [$] also matches before a final newline. *)
Fixpoint re_items (items : list re_item) (s : list ascii) : bool :=
  match items with
  | [] => match s with
          | [] => true
          | [c] => Nat.eqb (nat_of_ascii c) 10
          | _ => false
          end
  | RLit c :: rest =>
      match s with
      | c' :: r => Ascii.eqb c c' && re_items rest r
      | [] => false
      end
  | RRep cls m :: rest => re_rep cls m (re_items rest) s
  end.

Definition in_range (lo hi : nat) (c : ascii) : bool :=
  Nat.leb lo (nat_of_ascii c) && Nat.leb (nat_of_ascii c) hi.

(** [[a-zA-Z]] *)
Definition re_alpha (c : ascii) : bool := in_range 97 122 c || in_range 65 90 c.
(** [[a-zA-Z0-9]] *)
Definition re_alnum (c : ascii) : bool := re_alpha c || in_range 48 57 c.
(** [[a-zA-Z0-9._%+-]] *)
Definition re_local (c : ascii) : bool :=
  re_alnum c || existsb (Ascii.eqb c) ["."%char; "_"%char; "%"%char; "+"%char; "-"%char].
(** [[a-zA-Z0-9.-]] *)
Definition re_domain (c : ascii) : bool :=
  re_alnum c || existsb (Ascii.eqb c) ["."%char; "-"%char].

(** [^[a-zA-Z0-9._%+-]+@[a-zA-Z0-9.-]+\.[a-zA-Z]{2,}$] *)
Definition email_pattern : list re_item :=
  [RRep re_local 1; RLit "@"%char; RRep re_domain 1; RLit "."%char; RRep re_alpha 2].

(** [LeadGenerationAgent._is_valid_email]. *)
Definition is_valid_email (email : string) : bool :=
  re_items email_pattern (list_ascii_of_string (strip email)).

Definition MIN_ROW_LENGTH : nat := 6.

(** [row[i].strip() if len(row) > i else ""] *)
Definition cell (row : list string) (i : nat) : string :=
  if Nat.ltb i (length row) then strip (nth i row "") else "".

(** [LeadGenerationAgent._validate_lead]. *)
Definition validate_lead (row : list string) : M (option (list (string * string))) :=
  if Nat.ltb (length row) MIN_ROW_LENGTH then
    log Warning ("Insufficient data in row: " +++ py_str_list row);; ret None
  else
  let email := cell row 2 in
  if negb (is_valid_email email) then
    log Warning ("Invalid email in row: " +++ email);; ret None
  else
  let first_name := cell row 0 in
  let last_name := cell row 1 in
  let company := cell row 3 in
  let title := cell row 4 in
  let industry := cell row 5 in
  if negb (String.eqb first_name "") && negb (String.eqb email "")
     && negb (String.eqb company "") then
    ret (Some [("firstName", first_name); ("lastName", last_name); ("email", email);
               ("company", company); ("title", title); ("industry", industry)])
  else
    log Warning ("Missing required fields in row: " +++ py_str_list row);; ret None.

(** The loop of [fetch_leads] over [enumerate(values, start=2)]. *)
Fixpoint validate_rows (rows : list (list string)) (i : nat)
  : M (list (list (string * string))) :=
  match rows with
  | [] => ret []
  | row :: rest =>
      lead <- validate_lead row;;
      (match lead with
       | Some _ => ret tt
       | None => log Warning ("Skipped invalid row " +++ string_of_nat i +++ ": "
                              +++ py_str_list row)
       end);;
      leads <- validate_rows rest (S i);;
      ret (match lead with Some l => l :: leads | None => leads end)
  end.

(** The Google Sheets service as [fetch_leads] sees it. *)
Record sheets_api : Type := mkSheets {
  (** [get_sheets_service()] returned a service *)
  sheets_service : bool;
  (** [config.google_sheet_id] *)
  spreadsheet_id : string;
  (** [values().get(..).execute()]: the [values] entry of the response
      ([None] when it has none), or the exception raised *)
  values_get : outcome (option (list (list string)))
}.

(** [LeadGenerationAgent.fetch_leads]. *)
Definition fetch_leads (sh : sheets_api) : M (list (list (string * string))) :=
  if negb (sheets_service sh) then
    log Error "Google Sheets service not available";; ret []
  else
    try_except
      (log Info ("Fetching leads from sheet: " +++ spreadsheet_id sh);;
       match values_get sh with
       | Err e => raise e
       | Ok vals =>
           let values := match vals with Some v => v | None => [] end in
           match values with
           | [] => log Warning "No data found in the sheet";; ret []
           | _ =>
               leads <- validate_rows values 2;;
               log Info ("Successfully processed " +++ string_of_nat (length leads) +++ "/"
                         +++ string_of_nat (length values) +++ " leads");;
               ret leads
           end
       end)
      (fun e => match e with
                | HttpError => log Error "HTTP error fetching leads";; ret []
                | _ => log Error "Unexpected error fetching leads";; ret []
                end).

(** The character classes of the pattern, as sets. *)
Definition email_shape (l : list ascii) : Prop :=
  exists loc dom tld,
    l = loc ++ "@"%char :: dom ++ "."%char :: tld
    /\ loc <> [] /\ dom <> [] /\ 2 <= length tld
    /\ Forall (fun c => re_local c = true) loc
    /\ Forall (fun c => re_domain c = true) dom
    /\ Forall (fun c => re_alpha c = true) tld.

Definition plain_char (c : ascii) : bool :=
  negb (py_isspace c) && negb (Ascii.eqb c dq) && negb (Ascii.eqb c "'"%char)
  && negb (Ascii.eqb c bslash) && negb (Ascii.eqb c "@"%char).

(** What [_validate_lead] returns: the six fields in order, stripped, the
    required ones non-empty and the email valid. *)
Definition valid_lead (l : list (string * string)) : Prop :=
  exists fn ln em co ti ind,
    l = [("firstName", fn); ("lastName", ln); ("email", em); ("company", co);
         ("title", ti); ("industry", ind)]
    /\ fn <> "" /\ em <> "" /\ co <> "" /\ is_valid_email em = true
    /\ Forall (fun v => strip v = v) [fn; ln; em; co; ti; ind].

(** An operation whose only effect is on the log. *)
Definition log_only {A} (m : M A) : Prop :=
  forall w r w', m w = (r, w') ->
  lead_status w' = lead_status w /\ state_file w' = state_file w
  /\ clock w' = clock w /\ events w' = events w.

(* ---- runs over an object store ---- *)

(** A store that is a dict whose every value is a record object. *)
Definition object_store (v : json) : Prop :=
  exists kv, v = JDict kv /\ Forall (fun p => exists r, snd p = JDict r) kv.

Definition store_keys (v : json) : list string :=
  match v with JDict kv => map fst kv | _ => [] end.

(** From an object store, [m] returns normally, leaves an object store, and
    drops no key. *)
Definition safe {A} (m : M A) : Prop :=
  forall w, object_store (lead_status w) ->
  exists a w', m w = (Ok a, w') /\ object_store (lead_status w')
               /\ incl (store_keys (lead_status w)) (store_keys (lead_status w')).

Definition has_email (l : list (string * string)) : Prop := exists e, assoc "email" l = Some e.

(** Successful sends to [e] among the recorded events. *)
Definition sent_to (e : string) (ev : event) : bool :=
  match ev with EvSend r _ _ true => String.eqb r e | _ => false end.
Definition sends_to (e : string) (evs : list event) : nat := length (filter (sent_to e) evs).

(** Phase A would still process [e]: the store is a dict and the record of
    [e] is absent, or a dict whose [status] is absent or ["PENDING"]. *)
Definition pending_b (v : json) (e : string) : bool :=
  match v with
  | JDict kv =>
      match assoc e kv with
      | None => true
      | Some (JDict r) =>
          match assoc "status" r with None => true | Some s => is_str s "PENDING" end
      | Some _ => false
      end
  | _ => false
  end.

(** The record of [email] in the store is [R], and no key occurs twice. *)
Definition holds_at (email : string) (R : list (string * json)) (v : json) : Prop :=
  exists kv, v = JDict kv /\ NoDup (map fst kv) /\ assoc email kv = Some (JDict R).

Definition keeps_rec {A} (email : string) (R : list (string * json)) (m : M A) : Prop :=
  forall w r w', m w = (r, w') -> holds_at email R (lead_status w) -> holds_at email R (lead_status w').

(** The timestamp field [_update_lead_status] writes for a status. *)
Definition ts_field (st : string) : option string :=
  if String.eqb st "INITIAL_EMAIL_SENT" then Some "initial_sent_timestamp"
  else if String.eqb st "FOLLOW_UP_SENT" then Some "follow_up_sent_timestamp"
  else if String.eqb st "REPLIED" then Some "replied_timestamp"
  else None.

(** Send attempts to [e] (accepted or not) among the recorded events. *)
Definition attempted_to (e : string) (ev : event) : bool :=
  match ev with EvSend r _ _ _ => String.eqb r e | _ => false end.
Definition attempts_to (e : string) (evs : list event) : nat :=
  length (filter (attempted_to e) evs).

(** Phase B goes past its two guards for this record: a dict whose
    [status] is ["INITIAL_EMAIL_SENT"] and whose [initial_sent_timestamp]
    is truthy. *)
Definition follow_up_candidate (data : json) : bool :=
  match data with
  | JDict d =>
      is_str (match assoc "status" d with Some v => v | None => JNull end) "INITIAL_EMAIL_SENT"
      && truthy (match assoc "initial_sent_timestamp" d with Some v => v | None => JNull end)
  | _ => false
  end.

Definition no_send {A} (m : M A) : Prop :=
  forall w r w', m w = (r, w') -> forall e, attempts_to e (events w') = attempts_to e (events w).

Definition one_send_to {A} (x : string) (m : M A) : Prop :=
  forall w r w', m w = (r, w') -> forall e,
    attempts_to e (events w') <= attempts_to e (events w) + (if String.eqb x e then 1 else 0).

(** [OrchestratorAgent.run_workflow] with its first step,
    [self.lead_gen_agent.fetch_leads()], inside the [try]. *)
Definition run_workflow_sheet (E : env) (sh : sheets_api) : M unit :=
  log Info rule50;;
  log Info "Starting outreach workflow...";;
  log Info rule50;;
  try_finally
    (try_except
       (all_leads <- fetch_leads sh;;
        match all_leads with
        | [] => log Warning "No leads fetched. Exiting workflow"
        | _ =>
            (if bq_enabled E then bq_insert_leads E all_leads else ret tt);;
            log Info "Processing initial outreach for new leads...";;
            process_new_leads E all_leads;;
            log Info "Processing follow-ups and checking for replies...";;
            process_follow_ups E all_leads;;
            (if bq_enabled E then log Info "CAMPAIGN ANALYTICS" else ret tt);;
            log Info "Workflow completed successfully"
        end)
       (fun e => log Error "Workflow failed with error";; raise e))
    save_state.

(** [main()] of [src/main.py]; the result is the exit status of the process
    ([sys.exit(1)] after any exception).  [setup_logging()] is not modelled. *)
Definition main (E : env) (sh : sheets_api) : M Z :=
  try_except
    (log Info "Starting Multi-Agent Email Outreach System";;
     log Info "Configuration loaded successfully";;
     init;;
     run_workflow_sheet E sh;;
     log Info "Application completed successfully";;
     ret 0%Z)
    (fun _ => log Error "Application failed";; ret 1%Z).

(* ------------------------------------------------------------------ *)
(** ** The earlier agents ([src/follow_up_agent.py], [src/orchestrator_agent.py])

    [src/orchestrator_agent.py] drives the agents of [src/agents/]; its own
    [print] output is not modelled. *)

Section Legacy.
Variable E : env.

(** [FollowUpAgent.check_for_reply] of [src/follow_up_agent.py]: the service
    is not checked first ([None.users()] raises [AttributeError] inside the
    [try]), and every exception is printed and answered with [False]. *)
Definition legacy_check_for_reply (lead_email : string) (after_timestamp : json) : M bool :=
  try_except
    (after_dt <- parse_iso E after_timestamp;;
     let after_unix_ts := dt_timestamp E after_dt in
     let query := "from:" +++ lead_email +++ " after:" +++ string_of_Z after_unix_ts in
     if negb (gmail_service E) then raise AttributeError else
     emit (EvReplyQuery query);;
     match gmail_list E query with
     | None => raise HttpError
     | Some n => ret (Nat.ltb 0 n)
     end)
    (fun _ => ret false).

(** [FollowUpAgent.should_send_follow_up] of [src/follow_up_agent.py]: no
    [try]; [FOLLOW_UP_DELAY_HOURS] defaults to 48 as in [config.py]. *)
Definition legacy_should_send_follow_up (initial_email_sent_timestamp : json) : M bool :=
  sent_time <- parse_iso E initial_email_sent_timestamp;;
  now <- utc_now;;
  match sent_time with
  | Naive _ => raise TypeError
  | Aware sent => ret (Z.leb (sent + hours_us (follow_up_delay_hours E)) now)
  end.

(** [OrchestratorAgent._load_state] of [src/orchestrator_agent.py]: a
    missing file or invalid JSON gives [{}], any other value is kept. *)
Definition legacy_load_state : M json :=
  file <- read_state_file;;
  match file with
  | None => ret (JDict [])
  | Some txt => match loads txt with None => ret (JDict []) | Some state => ret state end
  end.

(** [OrchestratorAgent._save_state] of [src/orchestrator_agent.py]. *)
Definition legacy_save_state : M unit :=
  ls <- get_lead_status;;
  write_state_file (dumps ls).

(** [OrchestratorAgent.__init__] of [src/orchestrator_agent.py]. *)
Definition legacy_init : M unit :=
  st <- legacy_load_state;;
  put_lead_status st.

(** [OrchestratorAgent._update_lead_status] of [src/orchestrator_agent.py].
    On a store that is not a dict, [email not in ..] raises [TypeError] (None,
    numbers) or the item assignment or lookup that follows does (lists,
    strings). *)
Definition legacy_update_lead_status (email status timestamp : string) : M unit :=
  ls <- get_lead_status;;
  (match ls with
   | JDict kv =>
       match assoc email kv with
       | None => put_lead_status (JDict (dict_set email (JDict []) kv))
       | Some _ => ret tt
       end
   | _ => raise TypeError
   end);;
  set_record_field email "status" (JStr status);;
  (if String.eqb status "INITIAL_EMAIL_SENT" then
     set_record_field email "initial_sent_timestamp" (JStr timestamp)
   else if String.eqb status "FOLLOW_UP_SENT" then
     set_record_field email "follow_up_sent_timestamp" (JStr timestamp)
   else if String.eqb status "REPLIED" then
     set_record_field email "replied_timestamp" (JStr timestamp)
   else ret tt);;
  legacy_save_state;;
  log Info ("Updated status for " +++ email +++ " to " +++ status +++ ".").

(** [d[k]] on a loaded value: [KeyError] on a dict without [k], [TypeError]
    on anything else. *)
Definition py_getitem (d : json) (k : string) : M json :=
  match d with
  | JDict kv => match assoc k kv with Some v => ret v | None => raise (KeyError k) end
  | _ => raise TypeError
  end.

(** Body of the Phase A loop of [OrchestratorAgent.run_workflow]
    ([src/orchestrator_agent.py]) for one lead. *)
Definition legacy_new_lead (lead : list (string * string)) : M unit :=
  email <- getitem lead "email";;
  ls <- get_lead_status;;
  r <- py_get ls email (JDict []);;
  status <- py_get r "status" (JStr "PENDING");;
  if is_str status "PENDING" then
    log Info ("Processing new lead: " +++ email);;
    draft <- draft_initial_email E lead;;
    subject <- getitem draft "subject";;
    body <- getitem draft "body";;
    success <- send_email E email subject body;;
    if success then
      sent_timestamp <- now_iso E;;
      legacy_update_lead_status email "INITIAL_EMAIL_SENT" sent_timestamp
    else ret tt
  else log Info ("Skipping lead " +++ email +++ " with status: " +++ py_str status).

Fixpoint legacy_new_leads_loop (leads : list (list (string * string))) : M unit :=
  match leads with
  | [] => ret tt
  | lead :: rest => legacy_new_lead lead;; legacy_new_leads_loop rest
  end.

(** Body of the Phase B loop of [OrchestratorAgent.run_workflow]
    ([src/orchestrator_agent.py]) for one item [(email, data)]. *)
Definition legacy_follow_up (all_leads : list (list (string * string)))
  (item : string * json) : M unit :=
  let '(email, data) := item in
  status <- py_getitem data "status";;
  if negb (is_str status "INITIAL_EMAIL_SENT") then ret tt else
  log Info ("Checking status for " +++ email);;
  initial_sent_time <- py_getitem data "initial_sent_timestamp";;
  replied <- check_for_reply E email initial_sent_time;;
  if replied then
    ts <- now_iso E;;
    legacy_update_lead_status email "REPLIED" ts
  else
  due <- should_send_follow_up E initial_sent_time;;
  if due then
    log Info ("Time to send follow-up to " +++ email);;
    lead_data <- find_lead all_leads email;;
    match lead_data with
    | None | Some [] =>
        log Error ("Could not find lead data for " +++ email +++ " to send follow-up.")
    | Some lead =>
        follow_up_draft <- draft_follow_up_email E lead;;
        match follow_up_draft with
        | None | Some [] => ret tt
        | Some d =>
            subject <- getitem d "subject";;
            body <- getitem d "body";;
            success <- send_email E email subject body;;
            if success then
              ts <- now_iso E;;
              legacy_update_lead_status email "FOLLOW_UP_SENT" ts
            else ret tt
        end
    end
  else ret tt.

Fixpoint legacy_follow_ups_loop (all_leads : list (list (string * string)))
  (items : list (string * json)) : M unit :=
  match items with
  | [] => ret tt
  | item :: rest => legacy_follow_up all_leads item;; legacy_follow_ups_loop all_leads rest
  end.

(** [OrchestratorAgent.run_workflow] of [src/orchestrator_agent.py];
    [all_leads] is what [fetch_leads()] returned.  There is no [try]: an
    exception ends the run, and the state is saved only by the updates. *)
Definition legacy_run_workflow (all_leads : list (list (string * string))) : M unit :=
  log Info "Starting outreach workflow...";;
  match all_leads with
  | [] => log Warning "No leads fetched. Exiting workflow."
  | _ =>
      legacy_new_leads_loop all_leads;;
      log Info "Initial outreach processing complete. Starting follow-up checks.";;
      ls <- get_lead_status;;
      items <- py_items ls;;
      legacy_follow_ups_loop all_leads items;;
      log Info "Workflow finished."
  end.

End Legacy.

(** An operation that neither writes the state file, nor changes whether it
    can be written, nor calls BigQuery. *)
Definition file_untouched {A} (m : M A) : Prop :=
  forall w r w', m w = (r, w') ->
  state_writable w' = state_writable w /\ state_file w' = state_file w /\ bq_calls w' = bq_calls w.

(** How the outcome [p1] of the earlier [_update_lead_status] relates to the
    outcome [p2] of the current one, both run from [w]: the same store and
    events, no BigQuery call in [p1]; when the state file can be written the
    same result and file; when it cannot, [p1] raises where [p2] returns,
    and neither changes the file. *)
Definition upd_agree (w : world) (p1 p2 : outcome unit * world) : Prop :=
  lead_status (snd p1) = lead_status (snd p2) /\ events (snd p1) = events (snd p2)
  /\ bq_calls (snd p1) = bq_calls w /\ state_writable (snd p1) = state_writable w
  /\ (state_writable w = true -> fst p1 = fst p2 /\ state_file (snd p1) = state_file (snd p2))
  /\ (state_writable w = false ->
      state_file (snd p1) = state_file w /\ state_file (snd p2) = state_file w
      /\ (fst p2 = Ok tt -> fst p1 = Err OtherError)
      /\ (forall e, fst p2 = Err e -> fst p1 = Err e)).

(** An operation that returns normally from every store satisfying [I] and
    leaves a store satisfying [I]. *)
Definition preserves {A} (I : json -> Prop) (m : M A) : Prop :=
  forall w, I (lead_status w) -> exists a w', m w = (Ok a, w') /\ I (lead_status w').

(** [preserves] from a state file that can be written, which stays so. *)
Definition preserves_w {A} (I : json -> Prop) (m : M A) : Prop :=
  forall w, I (lead_status w) -> state_writable w = true ->
  exists a w', m w = (Ok a, w') /\ I (lead_status w') /\ state_writable w' = true.

(** Every normal result of [m] satisfies [P]. *)
Definition returns {A} (P : A -> Prop) (m : M A) : Prop :=
  forall w a w', m w = (Ok a, w') -> P a.

(** A stored record: a dict with a [status] key. *)
Definition rec_with_status (p : string * json) : Prop :=
  exists R s, snd p = JDict R /\ assoc "status" R = Some s.

Definition missing_ts_record (p : string * json) : Prop :=
  exists d, snd p = JDict d /\ assoc "status" d = Some (JStr "INITIAL_EMAIL_SENT")
            /\ assoc "initial_sent_timestamp" d = None.

(** Phase A invariant: records with a status, and the record [d] of [e]. *)
Definition phase_a_inv (e : string) (d : list (string * json)) (v : json) : Prop :=
  exists kv, v = JDict kv /\ Forall rec_with_status kv /\ assoc e kv = Some (JDict d).

(** A sheet with one complete row, for Ana. *)
Definition sheet_ana : sheets_api :=
  mkSheets true "sheet-1" (Ok (Some [["Ana"; "Lee"; "ana@x.com"; "Acme"; "CEO"; "Media"]])).

(** The lead [fetch_leads] makes of that row. *)
Definition lead_ana_row : list (string * string) :=
  [("firstName", "Ana"); ("lastName", "Lee"); ("email", "ana@x.com"); ("company", "Acme");
   ("title", "CEO"); ("industry", "Media")].

(** The sample configuration with another Gemini. *)
Definition with_gemini (E : env) (g : string -> option string) : env :=
  mkEnv (follow_up_delay_hours E) (your_name E) (your_title E) (portfolio_link E)
    (sender_email E) (gmail_service E) (gemini_model E) (bq_enabled E) (gmail_send E)
    (gmail_list E) g (fromisoformat E) (isoformat_utc E) (local_utc_offset E) (bq_accepts E).

(** A store whose record for Ana is settled as REPLIED. *)
Definition store_replied : json :=
  JDict [("ana@x.com", JDict [("status", JStr "REPLIED")])].

(** A store whose record for Bo says INITIAL_EMAIL_SENT without a timestamp. *)
Definition store_no_ts : json :=
  JDict [("bo@x.com", JDict [("status", JStr "INITIAL_EMAIL_SENT")])].

(** Recording Ana's initial email in an empty store. *)
Definition update_ana : outcome unit * world :=
  update_lead_status E0 "ana@x.com" "INITIAL_EMAIL_SENT" "2024-01-03T00:00:00+00:00" (world0 (JDict [])).

(** A world whose state file holds a JSON array. *)
Definition world_array : world := mkWorld (JDict []) (Some (dumps (JList []))) t_now [] [] true [].

(* ------------------------------------------------------------------ *)
(** * Proofs *)

(** ** Dictionaries *)

Lemma assoc_dict_set_eq {A} (k : string) (v : A) kv :
  assoc k (dict_set k v kv) = Some v.
Proof.
  induction kv as [|[k' v'] r IH]; simpl.
  - rewrite String.eqb_refl; reflexivity.
  - destruct (String.eqb k k') eqn:H; simpl.
    + apply String.eqb_eq in H; subst; rewrite String.eqb_refl; reflexivity.
    + rewrite H; exact IH.
Qed.

Lemma assoc_dict_set_neq {A} (k k' : string) (v : A) kv :
  k <> k' -> assoc k' (dict_set k v kv) = assoc k' kv.
Proof.
  intros Hne; induction kv as [|[k0 v0] r IH]; simpl.
  - apply String.eqb_neq in Hne. rewrite String.eqb_sym, Hne; reflexivity.
  - destruct (String.eqb k k0) eqn:H; simpl.
    + apply String.eqb_eq in H; subst.
      apply String.eqb_neq in Hne. rewrite String.eqb_sym, Hne; reflexivity.
    + rewrite IH; reflexivity.
Qed.

Lemma dict_set_absent {A} (k : string) (v : A) kv :
  assoc k kv = None -> dict_set k v kv = kv ++ [(k, v)].
Proof.
  induction kv as [|[k0 v0] r IH]; simpl; intros H; [reflexivity|].
  destruct (String.eqb k k0); [discriminate|]. rewrite IH; auto.
Qed.

Lemma dict_set_twice {A} (k : string) (v v' : A) kv :
  dict_set k v (dict_set k v' kv) = dict_set k v kv.
Proof.
  induction kv as [|[k0 v0] r IH]; simpl.
  - rewrite String.eqb_refl; reflexivity.
  - destruct (String.eqb k k0) eqn:H; simpl; rewrite H; [reflexivity|].
    rewrite IH; reflexivity.
Qed.

Lemma dict_set_keys {A} (k : string) (v : A) kv :
  assoc k kv <> None -> map fst (dict_set k v kv) = map fst kv.
Proof.
  induction kv as [|[k0 v0] r IH]; simpl; intros H; [congruence|].
  destruct (String.eqb k k0) eqn:E; simpl; [reflexivity|].
  rewrite IH; auto.
Qed.

(** ** [str.strip] *)

Lemma drop_space_snoc l c :
  py_isspace c = false -> drop_space (l ++ [c]) <> [].
Proof.
  intros Hc; induction l as [|a l IH]; simpl.
  - rewrite Hc; discriminate.
  - destruct (py_isspace a); [exact IH | discriminate].
Qed.

Lemma strip_nonempty c s :
  py_isspace c = false -> String.eqb (strip (String c s)) "" = false.
Proof.
  intros Hc. apply String.eqb_neq. unfold strip. simpl list_ascii_of_string.
  simpl drop_space. rewrite Hc. simpl rev.
  destruct (drop_space (rev (list_ascii_of_string s) ++ [c])) eqn:Hd.
  - exfalso; exact (drop_space_snoc _ _ Hc Hd).
  - simpl. destruct (rev l ++ [a]) eqn:Hr; [destruct (rev l); discriminate|].
    simpl. discriminate.
Qed.

(** ** The monad *)

Lemma bind_ok {A B} (m : M A) (k : A -> M B) w a w' :
  m w = (Ok a, w') -> bind m k w = k a w'.
Proof. unfold bind; intros ->; reflexivity. Qed.

Lemma bind_err {A B} (m : M A) (k : A -> M B) w e w' :
  m w = (Err e, w') -> bind m k w = (Err e, w').
Proof. unfold bind; intros ->; reflexivity. Qed.

Lemma bind_assoc {A B C} (m : M A) (f : A -> M B) (g : B -> M C) w :
  bind (bind m f) g w = bind m (fun x => bind (f x) g) w.
Proof. unfold bind; destruct (m w) as [[a|e] w1]; reflexivity. Qed.

Lemma get_lead_status_spec w : get_lead_status w = (Ok (lead_status w), w).
Proof. reflexivity. Qed.

Lemma ret_spec {A} (a : A) w : ret a w = (Ok a, w).
Proof. reflexivity. Qed.

(** ** [_update_lead_status] *)

Lemma set_record_field_spec email f v w kv r :
  lead_status w = JDict kv -> assoc email kv = Some (JDict r) ->
  set_record_field email f v w
  = (Ok tt, with_store w (JDict (dict_set email (JDict (dict_set f v r)) kv))).
Proof.
  intros Hls Hr. unfold set_record_field.
  rewrite (bind_ok _ _ _ _ _ (get_lead_status_spec w)), Hls, Hr. reflexivity.
Qed.

Lemma save_state_spec w : save_state w = (Ok tt, saved w).
Proof.
  unfold saved, save_state, try_except, bind, get_lead_status, write_state_file, log.
  destruct (state_writable w) eqn:Hw; cbn; rewrite ?Hw; reflexivity.
Qed.

Lemma saved_lead_status w : lead_status (saved w) = lead_status w.
Proof. unfold saved, save_state, try_except, bind, get_lead_status, write_state_file, log.
  destruct (state_writable w) eqn:Hw; cbn; rewrite ?Hw; reflexivity. Qed.
Lemma saved_clock w : clock (saved w) = clock w.
Proof. unfold saved, save_state, try_except, bind, get_lead_status, write_state_file, log.
  destruct (state_writable w) eqn:Hw; cbn; rewrite ?Hw; reflexivity. Qed.
Lemma saved_events w : events (saved w) = events w.
Proof. unfold saved, save_state, try_except, bind, get_lead_status, write_state_file, log.
  destruct (state_writable w) eqn:Hw; cbn; rewrite ?Hw; reflexivity. Qed.
Lemma saved_state_writable w : state_writable (saved w) = state_writable w.
Proof. unfold saved, save_state, try_except, bind, get_lead_status, write_state_file, log.
  destruct (state_writable w) eqn:Hw; cbn; rewrite ?Hw; reflexivity. Qed.
Lemma saved_state_file w :
  state_file (saved w) = if state_writable w then Some (dumps (lead_status w)) else state_file w.
Proof. unfold saved, save_state, try_except, bind, get_lead_status, write_state_file, log.
  destruct (state_writable w) eqn:Hw; cbn; rewrite ?Hw; reflexivity. Qed.

Lemma saved_logs w :
  logs (saved w) = logs w ++ [if state_writable w then (Debug, "State saved successfully")
                              else (Error, "Error saving state")].
Proof. unfold saved, save_state, try_except, bind, get_lead_status, write_state_file, log.
  destruct (state_writable w) eqn:Hw; cbn; rewrite ?Hw; reflexivity. Qed.

Lemma quiet_ret {A} (a : A) : quiet (ret a).
Proof. intros w; exists a, w; repeat split. Qed.

Lemma quiet_log lv msg : quiet (log lv msg).
Proof. intros w; eexists _, _; split; [reflexivity|]; repeat split. Qed.

Lemma quiet_call_bq c : quiet (call_bq c).
Proof. intros w; eexists _, _; split; [reflexivity|]; repeat split. Qed.

Lemma quiet_bind {A B} (m : M A) (k : A -> M B) :
  quiet m -> (forall a, quiet (k a)) -> quiet (bind m k).
Proof.
  intros Hm Hk w. destruct (Hm w) as (a & w1 & H1 & A1 & B1 & C1 & D1 & E1).
  destruct (Hk a w1) as (b & w2 & H2 & A2 & B2 & C2 & D2 & E2).
  exists b, w2. rewrite (bind_ok _ _ _ _ _ H1). split; [exact H2|].
  repeat split; congruence.
Qed.

Lemma quiet_bq_update_lead_status E e st : quiet (bq_update_lead_status E e st).
Proof.
  unfold bq_update_lead_status. destruct (negb (bq_enabled E)); [apply quiet_ret|].
  apply quiet_bind; [apply quiet_call_bq|]. intros _.
  destruct (bq_accepts E _); apply quiet_bind; auto using quiet_log, quiet_ret.
Qed.

Lemma quiet_bq_insert_email_event E e t : quiet (bq_insert_email_event E e t).
Proof.
  unfold bq_insert_email_event. destruct (negb (bq_enabled E)); [apply quiet_ret|].
  apply quiet_bind; [apply quiet_call_bq|]. intros _.
  destruct (bq_accepts E _); apply quiet_bind; auto using quiet_log, quiet_ret.
Qed.

Lemma quiet_bq_insert_lead E l : quiet (bq_insert_lead E l).
Proof.
  unfold bq_insert_lead. destruct (negb (bq_enabled E)); [apply quiet_ret|].
  destruct (assoc "email" l); [|apply quiet_bind; auto using quiet_log, quiet_ret].
  apply quiet_bind; [apply quiet_call_bq|]. intros _.
  destruct (bq_accepts E _); apply quiet_bind; auto using quiet_log, quiet_ret.
Qed.

Lemma quiet_mirror_update E e st : quiet (mirror_update E e st).
Proof.
  unfold mirror_update. destruct (bq_enabled E); [|apply quiet_ret].
  apply quiet_bind; [apply quiet_bq_update_lead_status|]. intros _.
  repeat match goal with |- context [if ?b then _ else _] => destruct b end;
  try apply quiet_ret;
  apply quiet_bind; auto using quiet_bq_insert_email_event, quiet_ret.
Qed.

Lemma update_tail_spec E e st w :
  (save_state;; mirror_update E e st;;
   log Info ("Updated status for " +++ e +++ " to " +++ st)) w
  = (Ok tt, update_tail E e st w).
Proof.
  unfold update_tail. rewrite (bind_ok _ _ _ _ _ (save_state_spec w)).
  destruct (quiet_mirror_update E e st (saved w)) as ([] & w1 & H1 & _).
  rewrite (bind_ok _ _ _ _ _ H1). reflexivity.
Qed.

Lemma update_tail_fields E e st w :
  lead_status (update_tail E e st w) = lead_status w
  /\ state_file (update_tail E e st w)
     = (if state_writable w then Some (dumps (lead_status w)) else state_file w)
  /\ clock (update_tail E e st w) = clock w
  /\ events (update_tail E e st w) = events w
  /\ state_writable (update_tail E e st w) = state_writable w.
Proof.
  unfold update_tail. rewrite (bind_ok _ _ _ _ _ (save_state_spec w)).
  destruct (quiet_mirror_update E e st (saved w)) as ([] & w1 & H1 & A1 & B1 & C1 & D1 & E1).
  rewrite (bind_ok _ _ _ _ _ H1). cbn.
  rewrite A1, B1, C1, D1, E1, saved_lead_status, saved_state_file, saved_clock, saved_events,
    saved_state_writable. repeat split.
Qed.

Lemma update_tail_lead_status E e st w : lead_status (update_tail E e st w) = lead_status w.
Proof. apply update_tail_fields. Qed.
Lemma update_tail_state_file E e st w :
  state_file (update_tail E e st w)
  = (if state_writable w then Some (dumps (lead_status w)) else state_file w).
Proof. apply update_tail_fields. Qed.
Lemma update_tail_clock E e st w : clock (update_tail E e st w) = clock w.
Proof. apply update_tail_fields. Qed.
Lemma update_tail_events E e st w : events (update_tail E e st w) = events w.
Proof. apply update_tail_fields. Qed.
Lemma update_tail_state_writable E e st w :
  state_writable (update_tail E e st w) = state_writable w.
Proof. apply update_tail_fields. Qed.

Lemma with_store_lead_status w v : lead_status (with_store w v) = v.
Proof. reflexivity. Qed.
Lemma with_store_state_file w v : state_file (with_store w v) = state_file w.
Proof. reflexivity. Qed.
Lemma with_store_clock w v : clock (with_store w v) = clock w.
Proof. reflexivity. Qed.
Lemma with_store_events w v : events (with_store w v) = events w.
Proof. reflexivity. Qed.
Lemma with_store_state_writable w v : state_writable (with_store w v) = state_writable w.
Proof. reflexivity. Qed.

Lemma with_store_twice w a b : with_store (with_store w a) b = with_store w b.
Proof. reflexivity. Qed.

Create Rewrite HintDb worldp.
Global Hint Rewrite saved_lead_status saved_clock saved_events saved_state_writable
  saved_state_file update_tail_lead_status update_tail_state_file update_tail_clock
  update_tail_events update_tail_state_writable with_store_lead_status with_store_state_file
  with_store_clock with_store_events with_store_state_writable : worldp.

Lemma update_lead_status_spec E email st ts w kv r :
  lead_status w = JDict kv ->
  (assoc email kv = Some (JDict r) \/ (assoc email kv = None /\ r = [])) ->
  update_lead_status E email st ts w =
  (Ok tt, update_tail E email st
            (with_store w (JDict (dict_set email (JDict (record_after_update st ts r)) kv)))).
Proof.
  intros Hls Hr. unfold update_lead_status.
  rewrite (bind_ok _ _ _ _ _ (get_lead_status_spec w)), Hls.
  assert (Hw1 : exists w1 kv1,
             (match JDict kv with
              | JDict kv0 =>
                  match assoc email kv0 with
                  | Some _ => ret tt
                  | None => put_lead_status (JDict (dict_set email (JDict []) kv0))
                  end
              | _ => raise TypeError
              end) w = (Ok tt, w1)
             /\ lead_status w1 = JDict kv1 /\ assoc email kv1 = Some (JDict r)
             /\ dict_set email (JDict (record_after_update st ts r)) kv1
                = dict_set email (JDict (record_after_update st ts r)) kv
             /\ with_store w1 = with_store w).
  { destruct Hr as [Hr | [Hr ->]]; rewrite Hr.
    - exists w, kv; repeat split; auto.
    - eexists; exists (dict_set email (JDict []) kv); repeat split;
        [apply assoc_dict_set_eq | apply dict_set_twice]. }
  destruct Hw1 as (w1 & kv1 & Hrun & Hls1 & Hr1 & Hset & Hws).
  rewrite (bind_ok _ _ _ _ _ Hrun).
  rewrite (bind_ok _ _ _ _ _ (set_record_field_spec _ _ _ _ _ _ Hls1 Hr1)).
  set (w2 := with_store w1 _).
  assert (Hls2 : lead_status w2 = JDict (dict_set email (JDict (dict_set "status" (JStr st) r)) kv1))
    by reflexivity.
  assert (Hr2 : assoc email (dict_set email (JDict (dict_set "status" (JStr st) r)) kv1)
                = Some (JDict (dict_set "status" (JStr st) r))) by apply assoc_dict_set_eq.
  unfold record_after_update in *.
  destruct (String.eqb st "INITIAL_EMAIL_SENT");
  [ | destruct (String.eqb st "FOLLOW_UP_SENT");
      [ | destruct (String.eqb st "REPLIED")]];
  first
    [ rewrite (bind_ok _ _ _ _ _ (set_record_field_spec _ _ _ _ _ _ Hls2 Hr2))
    | rewrite (bind_ok _ _ _ _ _ (ret_spec tt w2)) ];
  rewrite update_tail_spec; unfold w2;
  rewrite ?with_store_twice, ?dict_set_twice, Hset, Hws; reflexivity.
Qed.

(** ** Operations that do not touch the store *)

Lemma frame_ret {A} (a : A) : store_frame (ret a).
Proof. intros w r w' H; inversion H; auto. Qed.

Lemma frame_raise {A} e : store_frame (@raise A e).
Proof. intros w r w' H; inversion H; auto. Qed.

Lemma frame_log lv msg : store_frame (log lv msg).
Proof. intros w r w' H; inversion H; auto. Qed.

Lemma frame_emit ev : store_frame (emit ev).
Proof. intros w r w' H; inversion H; auto. Qed.

Lemma frame_utc_now : store_frame utc_now.
Proof. intros w r w' H; inversion H; auto. Qed.

Lemma frame_get_lead_status : store_frame get_lead_status.
Proof. intros w r w' H; inversion H; auto. Qed.

Lemma frame_bind {A B} (m : M A) (k : A -> M B) :
  store_frame m -> (forall a, store_frame (k a)) -> store_frame (bind m k).
Proof.
  intros Hm Hk w r w' H; unfold bind in H.
  destruct (m w) as [[a|e] w1] eqn:E1; apply Hm in E1 as [E2 E3].
  - apply Hk in H as [H1 H2]; split; congruence.
  - inversion H; subst; auto.
Qed.

Lemma frame_try_except {A} (m : M A) h :
  store_frame m -> (forall e, store_frame (h e)) -> store_frame (try_except m h).
Proof.
  intros Hm Hh w r w' H; unfold try_except in H.
  destruct (m w) as [[a|e] w1] eqn:E1; apply Hm in E1 as [E2 E3].
  - inversion H; subst; auto.
  - apply Hh in H as [H1 H2]; split; congruence.
Qed.

Create HintDb frame.
#[export] Hint Resolve frame_ret frame_raise frame_log frame_emit frame_utc_now
  frame_get_lead_status : frame.

Ltac frame_tac :=
  repeat (first [solve [auto with frame] | match goal with
          | |- store_frame (bind _ _) => apply frame_bind; [|intro]
          | |- store_frame (try_except _ _) => apply frame_try_except; [|intro]
          | |- store_frame (getitem _ _) => unfold getitem
          | |- store_frame (py_get _ _ _) => unfold py_get
          | |- store_frame (parse_iso _ _) => unfold parse_iso
          | |- store_frame (if ?b then _ else _) => destruct b
          | |- store_frame (match ?x with _ => _ end) => destruct x
          end]).

Lemma frame_check_for_reply E email ts : store_frame (check_for_reply E email ts).
Proof. unfold check_for_reply; frame_tac. Qed.

Lemma frame_should_send_follow_up E ts : store_frame (should_send_follow_up E ts).
Proof. unfold should_send_follow_up; frame_tac. Qed.

Lemma frame_draft_initial_email E lead : store_frame (draft_initial_email E lead).
Proof. unfold draft_initial_email; frame_tac. Qed.

Lemma frame_draft_follow_up_email E lead : store_frame (draft_follow_up_email E lead).
Proof. unfold draft_follow_up_email; frame_tac. Qed.

Lemma frame_send_email E r s b : store_frame (send_email E r s b).
Proof. unfold send_email; frame_tac. Qed.

Lemma frame_now_iso E : store_frame (now_iso E).
Proof. unfold now_iso; frame_tac. Qed.

Lemma frame_find_lead leads email : store_frame (find_lead leads email).
Proof. induction leads; simpl; frame_tac. Qed.

Lemma frame_of_quiet {A} (m : M A) : quiet m -> store_frame m.
Proof.
  intros Hq w r w' H. destruct (Hq w) as (a & w1 & H1 & A1 & _ & C1 & _).
  rewrite H1 in H; inversion H; subst; auto.
Qed.

Lemma frame_bq_insert_lead E l : store_frame (bq_insert_lead E l).
Proof. apply frame_of_quiet, quiet_bq_insert_lead. Qed.

Lemma frame_mirror_update E e st : store_frame (mirror_update E e st).
Proof. apply frame_of_quiet, quiet_mirror_update. Qed.

#[export] Hint Resolve frame_check_for_reply frame_should_send_follow_up
  frame_draft_initial_email frame_draft_follow_up_email frame_send_email
  frame_now_iso frame_find_lead frame_bq_insert_lead frame_mirror_update : frame.

Lemma frame_then {A B} (m : M A) (k : A -> M B) w r w' :
  store_frame m -> bind m k w = (r, w') ->
  (exists a w1, m w = (Ok a, w1) /\ lead_status w1 = lead_status w
                /\ clock w1 = clock w /\ k a w1 = (r, w'))
  \/ (lead_status w' = lead_status w /\ clock w' = clock w).
Proof.
  intros Hf H; unfold bind in H.
  destruct (m w) as [[a|e] w1] eqn:E1; pose proof (Hf _ _ _ E1) as [E2 E3].
  - left; exists a, w1; auto.
  - right; inversion H; subst; auto.
Qed.

Lemma update_lead_status_nondict E email st ts w kv v :
  lead_status w = JDict kv -> assoc email kv = Some v -> (forall r, v <> JDict r) ->
  update_lead_status E email st ts w = (Err TypeError, w).
Proof.
  intros Hls Hk Hv. unfold update_lead_status.
  rewrite (bind_ok _ _ _ _ _ (get_lead_status_spec w)), Hls, Hk.
  rewrite (bind_ok _ _ _ _ _ (ret_spec tt w)).
  unfold set_record_field, bind, get_lead_status; cbv beta iota. rewrite Hls, Hk.
  destruct v; try reflexivity. exfalso; eapply Hv; reflexivity.
Qed.

Lemma update_lead_status_nonobj E email st ts w :
  (forall kv, lead_status w <> JDict kv) ->
  update_lead_status E email st ts w = (Err TypeError, w).
Proof.
  intros Hv. unfold update_lead_status, bind, get_lead_status; cbv beta iota.
  destruct (lead_status w); try reflexivity. exfalso; eapply Hv; reflexivity.
Qed.

Lemma update_lead_status_cases E email st ts w r w' :
  update_lead_status E email st ts w = (r, w') ->
  (lead_status w' = lead_status w /\ clock w' = clock w)
  \/ (exists kv rec, lead_status w = JDict kv
        /\ (assoc email kv = Some (JDict rec) \/ (assoc email kv = None /\ rec = []))
        /\ r = Ok tt
        /\ lead_status w' = JDict (dict_set email (JDict (record_after_update st ts rec)) kv)
        /\ clock w' = clock w).
Proof.
  intros H.
  destruct (lead_status w) as [| | | | |kv] eqn:Hls;
    try (rewrite update_lead_status_nonobj in H by (intros ? ?; congruence);
         inversion H; subst; left; auto; fail).
  destruct (assoc email kv) as [v|] eqn:Hk.
  - destruct v as [| | | | |r0];
      try (rewrite (update_lead_status_nondict _ _ _ _ _ _ _ Hls Hk) in H by (intros ? ?; congruence);
           inversion H; subst; left; auto; fail).
    right; exists kv, r0.
    rewrite (update_lead_status_spec E email st ts w kv r0 Hls (or_introl Hk)) in H.
    inversion H; subst; autorewrite with worldp; repeat split; auto.
  - right; exists kv, [].
    rewrite (update_lead_status_spec E email st ts w kv [] Hls (or_intror (conj Hk eq_refl))) in H.
    inversion H; subst; autorewrite with worldp; repeat split; auto.
Qed.

(** ** Footprint of one Phase A iteration *)

Lemma py_get_dict_spec kv k d w :
  py_get (JDict kv) k d w = (Ok (match assoc k kv with Some v => v | None => d end), w).
Proof. reflexivity. Qed.

Lemma py_get_nondict_spec v k d w :
  (forall kv, v <> JDict kv) -> py_get v k d w = (Err AttributeError, w).
Proof. intros Hv; destruct v; try reflexivity. exfalso; eapply Hv; reflexivity. Qed.

Lemma bind_py_get_nondict {B} v k d (f : json -> M B) w :
  (forall kv, v <> JDict kv) -> bind (py_get v k d) f w = (Err AttributeError, w).
Proof. intros Hv; apply bind_err, py_get_nondict_spec, Hv. Qed.

Lemma is_str_true v s : is_str v s = true -> v = JStr s.
Proof. destruct v; simpl; try discriminate. intros H; apply String.eqb_eq in H; subst; auto. Qed.

Lemma new_lead_footprint E lead n w r w' :
  process_new_lead E lead n w = (r, w') ->
  lead_status w' = lead_status w
  \/ (exists email kv rec ts,
        assoc "email" lead = Some email /\ lead_status w = JDict kv
        /\ pending_at kv email rec
        /\ lead_status w' = JDict (dict_set email
                                 (JDict (record_after_update "INITIAL_EMAIL_SENT" ts rec)) kv)).
Proof.
  intros H. unfold process_new_lead in H; cbv beta in H.
  destruct (assoc "email" lead) as [email|] eqn:He.
  2: { unfold getitem at 1 in H; rewrite He in H; cbv beta in H.
       rewrite (bind_err _ _ _ _ _ (eq_refl : raise (KeyError "email") w = _)) in H; cbv beta in H.
       inversion H; subst; left; reflexivity. }
  unfold getitem at 1 in H; rewrite He in H; cbv beta in H.
  rewrite (bind_ok _ _ _ _ _ (ret_spec email w)) in H; cbv beta in H.
  rewrite (bind_ok _ _ _ _ _ (get_lead_status_spec w)) in H; cbv beta in H.
  destruct (lead_status w) as [| | | | |kv] eqn:Hls;
    try (rewrite bind_py_get_nondict in H by (intros ? ?; discriminate);
         cbv beta in H; inversion H; subst; left; congruence).
  rewrite (bind_ok _ _ _ _ _ (py_get_dict_spec _ _ _ _)) in H; cbv beta in H.
  remember (match assoc email kv with Some v => v | None => JDict [] end) as rv eqn:Hrv.
  destruct rv as [| | | | |rec];
    try (rewrite bind_py_get_nondict in H by (intros ? ?; discriminate);
         cbv beta in H; inversion H; subst; left; congruence).
  rewrite (bind_ok _ _ _ _ _ (py_get_dict_spec _ _ _ _)) in H; cbv beta in H.
  remember (match assoc "status" rec with Some v => v | None => JStr "PENDING" end)
    as st eqn:Hst.
  destruct (is_str st "PENDING") eqn:Hp.
  2: { apply frame_then in H as [(? & ? & ? & Hl & ? & H)|[? ?]]; auto with frame;
       inversion H; subst; left; congruence. }
  apply frame_then in H as [(? & w1 & _ & Hl1 & _ & H)|[? ?]]; auto with frame;
    [| left; congruence].
  apply frame_then in H as [(d & w2 & _ & Hl2 & _ & H)|[? ?]]; auto with frame;
    [| left; congruence].
  destruct (draft_ok d) as [[subj body]|]; cbv beta iota in H.
  2: { apply frame_then in H as [(? & ? & ? & ? & ? & H)|[? ?]]; auto with frame;
       [inversion H; subst; left; congruence | left; congruence]. }
  rewrite bind_assoc in H.
  apply frame_then in H as [(success & w3 & _ & Hl3 & _ & H)|[? ?]]; auto with frame;
    [| left; congruence].
  destruct success; cbv beta iota in H.
  2: { apply frame_then in H as [(? & ? & ? & ? & ? & H)|[? ?]]; auto with frame;
       [inversion H; subst; left; congruence | left; congruence]. }
  rewrite bind_assoc in H.
  apply frame_then in H as [(ts & w4 & _ & Hl4 & _ & H)|[? ?]]; auto with frame;
    [| left; congruence].
  unfold bind at 1 in H.
  destruct (update_lead_status _ _ _ _ w4) as [[? | ?] w5] eqn:Hu;
    apply update_lead_status_cases in Hu
      as [[Hu1 Hu2] | (kv' & rec' & Hk' & Hrec' & Hr & Hu1 & Hu2)];
    try discriminate; inversion H; subst; try (left; congruence).
  assert (kv' = kv) by congruence; subst kv'.
  right; exists email, kv, rec', ts.
  split; [reflexivity|]; split; [reflexivity|]; split; [|exact Hu1].
  apply is_str_true in Hp.
  unfold pending_at.
  destruct Hrec' as [Hr' | [Hr' ->]]; rewrite Hr' in Hrv.
  - inversion Hrv; subst rec'; right; split; [exact Hr'|].
    destruct (assoc "status" rec); [right; congruence | left; reflexivity].
  - left; split; [exact Hr' | reflexivity].
Qed.

(** ** Single steps of the agents *)

Lemma log_spec lv msg w :
  log lv msg w = (Ok tt, mkWorld (lead_status w) (state_file w) (clock w)
                            (logs w ++ [(lv, msg)]) (events w) (state_writable w) (bq_calls w)).
Proof. reflexivity. Qed.

Lemma getitem_spec lead k v w : assoc k lead = Some v -> getitem lead k w = (Ok v, w).
Proof. intros H; unfold getitem; rewrite H; reflexivity. Qed.

Lemma now_iso_spec E w : now_iso E w = (Ok (isoformat_utc E (clock w)), w).
Proof. reflexivity. Qed.

Lemma draft_initial_email_spec E lead email company fn w :
  assoc "email" lead = Some email -> assoc "company" lead = Some company ->
  assoc "firstName" lead = Some fn ->
  draft_initial_email E lead w =
  (Ok [("subject", strip ("A Partnership in Storytelling for " +++ company));
       ("body", strip (initial_body_template E fn))],
   mkWorld (lead_status w) (state_file w) (clock w)
     (logs w ++ [(Info, "Drafted initial email for " +++ email)]) (events w) (state_writable w) (bq_calls w)).
Proof.
  intros He Hc Hf. unfold draft_initial_email, try_except, bind, getitem.
  rewrite He, Hc, Hf. reflexivity.
Qed.

Lemma draft_ok_spec s b :
  String.eqb s "" = false -> String.eqb b "" = false ->
  draft_ok [("subject", s); ("body", b)] = Some (s, b).
Proof. intros Hs Hb; unfold draft_ok; simpl; rewrite Hs, Hb; reflexivity. Qed.

Lemma subject_nonempty company :
  String.eqb (strip ("A Partnership in Storytelling for " +++ company)) "" = false.
Proof. apply strip_nonempty; reflexivity. Qed.

Lemma body_nonempty E fn : String.eqb (strip (initial_body_template E fn)) "" = false.
Proof. apply strip_nonempty; reflexivity. Qed.

Lemma send_email_spec E r s b w :
  gmail_service E = true -> String.eqb r "" = false -> String.eqb s "" = false ->
  String.eqb b "" = false -> gmail_send E r (sender_email E) s b = true ->
  send_email E r s b w =
  (Ok true, mkWorld (lead_status w) (state_file w) (clock w)
              (logs w ++ [(Info, "Email successfully sent to " +++ r)])
              (events w ++ [EvSend r s b true]) (state_writable w) (bq_calls w)).
Proof.
  intros Hg Hr Hs Hb Hsend. unfold send_email. rewrite Hg, Hr, Hs, Hb, Hsend.
  reflexivity.
Qed.

(** One Phase A iteration on a lead absent from the store whose draft and
    send succeed. *)
Lemma process_new_lead_sends E lead n w email company fn kv :
  assoc "email" lead = Some email -> assoc "company" lead = Some company ->
  assoc "firstName" lead = Some fn -> String.eqb email "" = false ->
  lead_status w = JDict kv -> assoc email kv = None -> gmail_service E = true ->
  gmail_send E email (sender_email E) (strip ("A Partnership in Storytelling for " +++ company))
    (strip (initial_body_template E fn)) = true ->
  exists w1, process_new_lead E lead n w = (Ok (S n), w1)
    /\ lead_status w1 = JDict (kv ++ [(email, sent_record (isoformat_utc E (clock w)))])
    /\ events w1 = events w ++ [EvSend email (strip ("A Partnership in Storytelling for " +++ company))
                                  (strip (initial_body_template E fn)) true].
Proof.
  intros He Hc Hf Hne Hls Hnone Hg Hsend.
  unfold process_new_lead.
  rewrite (bind_ok _ _ _ _ _ (getitem_spec _ _ _ w He)); cbv beta iota.
  rewrite (bind_ok _ _ _ _ _ (get_lead_status_spec w)); cbv beta iota.
  rewrite Hls.
  rewrite (bind_ok _ _ _ _ _ (py_get_dict_spec _ _ _ _)); cbv beta iota.
  rewrite Hnone; cbv beta iota.
  rewrite (bind_ok _ _ _ _ _ (py_get_dict_spec _ _ _ _)); cbv beta iota.
  cbn [assoc is_str]. rewrite String.eqb_refl.
  rewrite (bind_ok _ _ _ _ _ (log_spec _ _ _)); cbv beta iota.
  rewrite (bind_ok _ _ _ _ _ (draft_initial_email_spec _ _ _ _ _ _ He Hc Hf)); cbv beta iota.
  rewrite (draft_ok_spec _ _ (subject_nonempty _) (body_nonempty _ _)); cbv beta iota.
  rewrite bind_assoc.
  rewrite (bind_ok _ _ _ _ _ (send_email_spec _ _ _ _ _ Hg Hne (subject_nonempty _)
                                 (body_nonempty _ _) Hsend)); cbv beta iota.
  rewrite bind_assoc.
  rewrite (bind_ok _ _ _ _ _ (now_iso_spec _ _)); cbv beta iota.
  match goal with |- context [bind (update_lead_status ?EE ?e ?st ?ts) _ ?w1] =>
    rewrite (bind_ok _ _ _ _ _ (update_lead_status_spec EE e st ts w1 kv [] Hls
                                  (or_intror (conj Hnone eq_refl)))) end.
  eexists; split; [reflexivity|]. autorewrite with worldp. cbn [lead_status events clock].
  rewrite dict_set_absent by exact Hnone. split; reflexivity.
Qed.

(** ** Phase A keeps the records that are not PENDING *)

Lemma new_lead_keeps E lead n w r w' kv email R s :
  process_new_lead E lead n w = (r, w') ->
  lead_status w = JDict kv -> assoc email kv = Some (JDict R) ->
  assoc "status" R = Some (JStr s) -> String.eqb s "PENDING" = false ->
  exists kv', lead_status w' = JDict kv' /\ assoc email kv' = Some (JDict R).
Proof.
  intros H Hls HR Hs Hne.
  apply new_lead_footprint in H as [H | (email' & kv0 & rec & ts & _ & Hkv0 & Hpend & H)].
  - exists kv; rewrite H; auto.
  - rewrite Hls in Hkv0; inversion Hkv0; subst kv0.
    assert (email' <> email) as Hneq.
    { intros ->. destruct Hpend as [[Ha _] | [Ha Hst]]; rewrite HR in Ha; [discriminate|].
      inversion Ha; subst rec. rewrite Hs in Hst.
      destruct Hst as [Hst | Hst]; inversion Hst; subst; discriminate. }
    eexists; split; [exact H|]. rewrite assoc_dict_set_neq; auto.
Qed.

Lemma new_leads_loop_keeps E leads : forall n w r w' kv email R s,
  new_leads_loop E leads n w = (r, w') ->
  lead_status w = JDict kv -> assoc email kv = Some (JDict R) ->
  assoc "status" R = Some (JStr s) -> String.eqb s "PENDING" = false ->
  exists kv', lead_status w' = JDict kv' /\ assoc email kv' = Some (JDict R).
Proof.
  induction leads as [|lead rest IH]; intros n w r w' kv email R s H Hls HR Hs Hne.
  - cbn in H. inversion H; subst. eauto.
  - cbn [new_leads_loop] in H. unfold bind at 1 in H.
    destruct (process_new_lead E lead n w) as [res w1] eqn:Hp.
    destruct (new_lead_keeps _ _ _ _ _ _ _ _ _ _ Hp Hls HR Hs Hne) as (kv1 & Hl1 & HR1).
    destruct res as [c|e].
    + eapply IH; eauto.
    + inversion H; subst; eauto.
Qed.

Lemma assoc_app_absent {A} (k : string) (v : A) kv :
  assoc k kv = None -> assoc k (kv ++ [(k, v)]) = Some v.
Proof. intros H; rewrite <- dict_set_absent by exact H; apply assoc_dict_set_eq. Qed.

(** ** The reply check and the time gate *)

Lemma check_for_reply_found E email s d k w :
  gmail_service E = true -> fromisoformat E (replace_Z s) = Some d ->
  gmail_list E ("from:" +++ email +++ " after:" +++ string_of_Z (dt_timestamp E d)) = Some k ->
  exists w1, check_for_reply E email (JStr s) w = (Ok (Nat.ltb 0 k), w1)
    /\ lead_status w1 = lead_status w /\ clock w1 = clock w /\ state_file w1 = state_file w
    /\ events w1 = events w
                   ++ [EvReplyQuery ("from:" +++ email +++ " after:" +++ string_of_Z (dt_timestamp E d))].
Proof.
  intros Hg Hf Hk. unfold check_for_reply, try_except, parse_iso, bind. rewrite Hg.
  cbv beta iota zeta. rewrite Hf. cbv beta iota zeta. cbn [ret emit].
  rewrite Hk. destruct (Nat.ltb 0 k); eexists; (split; [reflexivity|]); cbn; auto.
Qed.

Lemma check_for_reply_total E email ts w :
  exists b w1, check_for_reply E email ts w = (Ok b, w1).
Proof.
  unfold check_for_reply, try_except, parse_iso, bind, log, ret, raise, emit.
  repeat (match goal with |- context [match ?x with _ => _ end] => destruct x end; cbn);
    eexists _, _; reflexivity.
Qed.

Lemma check_for_reply_bad_timestamp E email ts w :
  (forall s, ts = JStr s -> fromisoformat E (replace_Z s) = None) ->
  fst (check_for_reply E email ts w) = Ok false.
Proof.
  intros H. unfold check_for_reply, try_except, parse_iso, bind, log, ret, raise, emit.
  destruct (gmail_service E); [|reflexivity]. cbn.
  destruct ts; try reflexivity. rewrite (H s eq_refl). reflexivity.
Qed.

Lemma check_for_reply_outage E email s d w :
  fromisoformat E (replace_Z s) = Some d ->
  gmail_list E ("from:" +++ email +++ " after:" +++ string_of_Z (dt_timestamp E d)) = None ->
  fst (check_for_reply E email (JStr s) w) = Ok false.
Proof.
  intros Hf Hk. unfold check_for_reply, try_except, parse_iso, bind, log, ret, raise, emit.
  destruct (gmail_service E); [|reflexivity]. cbv beta iota zeta. rewrite Hf.
  cbv beta iota zeta. rewrite Hk. reflexivity.
Qed.

(** A reply check whose inbox search finds nothing, or fails, returns
    [false] after the one inbox query. *)
Lemma check_for_reply_no_reply E email s d w :
  gmail_service E = true -> fromisoformat E (replace_Z s) = Some d ->
  (gmail_list E ("from:" +++ email +++ " after:" +++ string_of_Z (dt_timestamp E d)) = Some 0
   \/ gmail_list E ("from:" +++ email +++ " after:" +++ string_of_Z (dt_timestamp E d)) = None) ->
  exists w1, check_for_reply E email (JStr s) w = (Ok false, w1)
    /\ lead_status w1 = lead_status w /\ clock w1 = clock w /\ state_file w1 = state_file w
    /\ events w1 = events w
                   ++ [EvReplyQuery ("from:" +++ email +++ " after:" +++ string_of_Z (dt_timestamp E d))].
Proof.
  intros Hg Hf Hk. unfold check_for_reply, try_except, parse_iso, bind. rewrite Hg.
  cbv beta iota zeta. rewrite Hf. cbv beta iota zeta. cbn [ret emit].
  destruct Hk as [Hk | Hk]; rewrite Hk; cbn; eexists; (split; [reflexivity|]); cbn; auto.
Qed.

(** The reply check touches only the log and adds at most one inbox query. *)
Lemma check_for_reply_events E email ts w r w1 :
  check_for_reply E email ts w = (r, w1) ->
  lead_status w1 = lead_status w /\ clock w1 = clock w
  /\ (events w1 = events w \/ exists q, events w1 = events w ++ [EvReplyQuery q]).
Proof.
  unfold check_for_reply, try_except, parse_iso, bind, log, ret, raise, emit.
  destruct (gmail_service E); cbn.
  2: { intros H; inversion H; subst; cbn; auto. }
  destruct ts; cbn; try (intros H; inversion H; subst; cbn; auto; fail).
  destruct (fromisoformat E (replace_Z s)); cbn.
  2: { intros H; inversion H; subst; cbn; auto. }
  match goal with |- context [gmail_list E ?q] => destruct (gmail_list E q) as [k|] end.
  - destruct k; intros H; inversion H; subst; cbn; eauto 6.
  - intros H; inversion H; subst; cbn; eauto 6.
Qed.

Lemma should_send_follow_up_aware E s t w :
  fromisoformat E (replace_Z s) = Some (Aware t) ->
  exists w1, should_send_follow_up E (JStr s) w
             = (Ok (Z.leb (t + hours_us (follow_up_delay_hours E)) (clock w)), w1)
    /\ lead_status w1 = lead_status w /\ clock w1 = clock w /\ state_file w1 = state_file w
    /\ events w1 = events w.
Proof.
  intros Hf. unfold should_send_follow_up, try_except, parse_iso, bind, utc_now, log, ret.
  cbv beta iota zeta. rewrite Hf. cbv beta iota zeta.
  destruct (Z.leb _ _); eexists; (split; [reflexivity|]); cbn; auto.
Qed.

Lemma should_send_follow_up_total E ts w :
  exists b w1, should_send_follow_up E ts w = (Ok b, w1).
Proof.
  unfold should_send_follow_up, try_except, parse_iso, bind, utc_now, log, ret, raise.
  repeat (match goal with |- context [match ?x with _ => _ end] => destruct x end; cbn);
    eexists _, _; reflexivity.
Qed.

Lemma should_send_follow_up_bad_timestamp E ts w :
  (forall s, ts = JStr s -> fromisoformat E (replace_Z s) = None) ->
  fst (should_send_follow_up E ts w) = Ok false.
Proof.
  intros H. unfold should_send_follow_up, try_except, parse_iso, bind, utc_now, log, ret, raise.
  destruct ts; try reflexivity. cbv beta iota zeta. rewrite (H s eq_refl). reflexivity.
Qed.

(** ** Phase B steps *)

Lemma update_lead_status_events E email st ts w r w' :
  update_lead_status E email st ts w = (r, w') -> events w' = events w.
Proof.
  intros H. destruct (lead_status w) as [| | | | |kv] eqn:Hls;
    try (rewrite update_lead_status_nonobj in H by congruence; inversion H; reflexivity).
  destruct (assoc email kv) as [v|] eqn:Hk.
  - destruct v as [| | | | |rec];
      try (rewrite (update_lead_status_nondict _ _ _ _ _ kv _ Hls Hk) in H
             by (intros ? ?; discriminate); inversion H; reflexivity).
    rewrite (update_lead_status_spec _ _ _ _ _ kv rec Hls (or_introl Hk)) in H.
    inversion H; subst; autorewrite with worldp; reflexivity.
  - rewrite (update_lead_status_spec _ _ _ _ _ kv [] Hls (or_intror (conj Hk eq_refl))) in H.
    inversion H; subst; autorewrite with worldp; reflexivity.
Qed.

Lemma list_ascii_of_string_append s t :
  list_ascii_of_string (s +++ t) = list_ascii_of_string s ++ list_ascii_of_string t.
Proof. induction s as [|c s IH]; simpl; [reflexivity | rewrite IH; reflexivity]. Qed.

Lemma drop_space_all l :
  Forall (fun c => py_isspace c = true) (drop_space l) -> drop_space l = [].
Proof.
  induction l as [|a l IH]; simpl; auto.
  destruct (py_isspace a) eqn:Ha; auto. intros HF; inversion HF; congruence.
Qed.

Lemma drop_space_nil l : drop_space l = [] -> Forall (fun c => py_isspace c = true) l.
Proof.
  induction l as [|a l IH]; simpl; auto.
  destruct (py_isspace a) eqn:Ha; [intros; constructor; auto | discriminate].
Qed.

(** [s.strip()] is empty only when every character of [s] is white space. *)
Lemma strip_empty s :
  strip s = "" -> Forall (fun c => py_isspace c = true) (list_ascii_of_string s).
Proof.
  unfold strip. intros H.
  apply (f_equal list_ascii_of_string) in H.
  rewrite list_ascii_of_string_of_list_ascii in H. simpl in H.
  destruct (drop_space (rev (drop_space (list_ascii_of_string s)))) eqn:Hd;
    [| simpl in H; destruct (rev l); discriminate].
  apply drop_space_nil in Hd. apply Forall_rev in Hd. rewrite rev_involutive in Hd.
  apply drop_space_all in Hd. apply drop_space_nil, Hd.
Qed.

Lemma strip_nonempty_in c s :
  In c (list_ascii_of_string s) -> py_isspace c = false -> String.eqb (strip s) "" = false.
Proof.
  intros Hin Hc. apply String.eqb_neq. intros H. apply strip_empty in H.
  rewrite Forall_forall in H. rewrite (H c Hin) in Hc. discriminate.
Qed.

Lemma follow_up_body_nonempty E text :
  String.eqb (strip (strip text +++ "

All the best,

" +++ your_name E)) "" = false.
Proof.
  apply (strip_nonempty_in "A"%char); [|reflexivity].
  rewrite list_ascii_of_string_append. apply in_or_app; right.
  simpl. right; right; left; reflexivity.
Qed.

Lemma re_subject_nonempty co :
  String.eqb ("Re: A Partnership in Storytelling for " +++ co) "" = false.
Proof. reflexivity. Qed.

Lemma draft_follow_up_email_spec E lead email fn co text w :
  gemini_model E = true -> assoc "firstName" lead = Some fn ->
  assoc "company" lead = Some co -> assoc "email" lead = Some email ->
  gemini_generate E (follow_up_prompt fn co) = Some text -> String.eqb text "" = false ->
  draft_follow_up_email E lead w =
  (Ok (Some [("subject", "Re: A Partnership in Storytelling for " +++ co);
             ("body", strip (strip text +++ "

All the best,

" +++ your_name E))]),
   mkWorld (lead_status w) (state_file w) (clock w)
     (logs w ++ [(Info, "Drafted follow-up email for " +++ email)])
     (events w ++ [EvGenerate (follow_up_prompt fn co)]) (state_writable w) (bq_calls w)).
Proof.
  intros Hm Hf Hc He Hg Ht. unfold draft_follow_up_email, try_except, bind, getitem.
  rewrite Hm, Hf, Hc. cbv beta iota zeta. cbn [emit ret]. rewrite Hg, Ht, He.
  reflexivity.
Qed.

Lemma find_lead_spec pre lead post email w :
  Forall (fun l => exists e, assoc "email" l = Some e /\ String.eqb e email = false) pre ->
  assoc "email" lead = Some email ->
  find_lead (pre ++ lead :: post) email w = (Ok (Some lead), w).
Proof.
  intros Hpre He. induction Hpre as [|l pre (e & Hl & Hne) _ IH]; simpl.
  - rewrite (bind_ok _ _ _ _ _ (getitem_spec _ _ _ w He)), String.eqb_refl. reflexivity.
  - rewrite (bind_ok _ _ _ _ _ (getitem_spec _ _ _ w Hl)), Hne. exact IH.
Qed.

(** Rewrites [update_lead_status] inside [H] at the current world, whose store
    is [JDict kv] by the hypotheses in context. *)
Ltac update_step H kv rec Hrec :=
  match type of H with
  | context [bind (update_lead_status ?EE ?e ?st ?ts) _ ?wc] =>
      let Hl := fresh "Hl" in
      assert (Hl : lead_status wc = JDict kv) by (cbn; congruence);
      rewrite (bind_ok _ _ _ _ _ (update_lead_status_spec EE e st ts wc kv rec Hl Hrec)) in H;
      clear Hl
  end.

(** The common beginning of a Phase B iteration on a record in
    INITIAL_EMAIL_SENT with a non-empty timestamp: up to the reply check. *)
Ltac follow_up_prefix H Hst Hts Hsne :=
  unfold process_follow_up in H; cbv beta iota in H;
  rewrite (bind_ok _ _ _ _ _ (py_get_dict_spec _ _ _ _)) in H;
  rewrite Hst in H; cbv beta iota in H; cbn [is_str] in H;
  rewrite String.eqb_refl in H; cbn [negb] in H;
  rewrite (bind_ok _ _ _ _ _ (log_spec _ _ _)) in H; cbv beta in H;
  rewrite (bind_ok _ _ _ _ _ (py_get_dict_spec _ _ _ _)) in H;
  rewrite Hts in H; cbv beta iota in H; cbn [truthy] in H;
  rewrite Hsne in H; cbn [negb] in H.

(* ------------------------------------------------------------------ *)
(** * The claims *)

(** ** Reply precedence *)

(** C2: in Phase B, for a record in INITIAL_EMAIL_SENT whose reply check
    finds a reply (the inbox search returns [k > 0] messages), the record
    becomes REPLIED with [replied_timestamp] set to the current UTC time, and
    the only interaction with the outside world is the inbox query: no
    follow-up is composed (no [EvGenerate]) or sent (no [EvSend]). Nothing is
    assumed about the clock, so this holds however much time has passed. *)
Theorem reply_takes_precedence E leads email data f rc s d k kv w r w' :
  lead_status w = JDict kv -> assoc email kv = Some (JDict data) ->
  assoc "status" data = Some (JStr "INITIAL_EMAIL_SENT") ->
  assoc "initial_sent_timestamp" data = Some (JStr s) -> String.eqb s "" = false ->
  gmail_service E = true -> fromisoformat E (replace_Z s) = Some d ->
  gmail_list E ("from:" +++ email +++ " after:" +++ string_of_Z (dt_timestamp E d)) = Some k ->
  Nat.ltb 0 k = true ->
  process_follow_up E leads (email, JDict data) (f, rc) w = (r, w') ->
  r = Ok (f, S rc)
  /\ lead_status w' = JDict (dict_set email
                        (JDict (record_after_update "REPLIED" (isoformat_utc E (clock w)) data)) kv)
  /\ events w' = events w
                 ++ [EvReplyQuery ("from:" +++ email +++ " after:" +++ string_of_Z (dt_timestamp E d))].
Proof.
  intros Hls Hdata Hst Hts Hsne Hg Hf Hk Hpos H.
  follow_up_prefix H Hst Hts Hsne.
  match type of H with
  | context [bind (check_for_reply _ _ _) _ ?w1] =>
      destruct (check_for_reply_found E email s d k w1 Hg Hf Hk)
        as (w2 & Hc & Hl2 & Hcl2 & _ & Hev2)
  end.
  rewrite (bind_ok _ _ _ _ _ Hc), Hpos in H; cbv beta iota in H.
  rewrite (bind_ok _ _ _ _ _ (now_iso_spec _ _)) in H; cbv beta in H.
  cbn [lead_status clock events] in Hl2, Hcl2, Hev2.
  update_step H kv data (@or_introl _ (assoc email kv = None /\ data = []) Hdata).
  cbn [bind ret] in H. inversion H; subst. autorewrite with worldp. cbn. rewrite Hcl2. auto.
Qed.

(** ** The follow-up time gate *)

(** C1 (amended): take a record in INITIAL_EMAIL_SENT whose aware timestamp
    [t] parses, whose reply check finds no reply, whose lead is among the
    fetched leads, and for which composing and sending the follow-up both
    succeed. If [now >= t + follow_up_delay_hours] (the boundary included),
    Phase B composes and sends the follow-up and marks the record
    FOLLOW_UP_SENT. Otherwise it only queries the inbox: nothing is composed
    or sent and the store is unchanged. *)
Theorem follow_up_sent_iff_due E pre lead post email data f rc s t fn co text kv w r w' :
  lead_status w = JDict kv -> assoc email kv = Some (JDict data) ->
  assoc "status" data = Some (JStr "INITIAL_EMAIL_SENT") ->
  assoc "initial_sent_timestamp" data = Some (JStr s) -> String.eqb s "" = false ->
  fromisoformat E (replace_Z s) = Some (Aware t) ->
  gmail_service E = true ->
  (gmail_list E ("from:" +++ email +++ " after:" +++ string_of_Z (dt_timestamp E (Aware t)))
     = Some 0
   \/ gmail_list E ("from:" +++ email +++ " after:" +++ string_of_Z (dt_timestamp E (Aware t)))
     = None) ->
  Forall (fun l => exists e, assoc "email" l = Some e /\ String.eqb e email = false) pre ->
  assoc "email" lead = Some email -> String.eqb email "" = false ->
  assoc "firstName" lead = Some fn -> assoc "company" lead = Some co ->
  gemini_model E = true -> gemini_generate E (follow_up_prompt fn co) = Some text ->
  String.eqb text "" = false ->
  gmail_send E email (sender_email E) ("Re: A Partnership in Storytelling for " +++ co)
    (strip (strip text +++ "

All the best,

" +++ your_name E)) = true ->
  process_follow_up E (pre ++ lead :: post) (email, JDict data) (f, rc) w = (r, w') ->
  if Z.leb (t + hours_us (follow_up_delay_hours E)) (clock w) then
    r = Ok (S f, rc)
    /\ lead_status w' = JDict (dict_set email (JDict (record_after_update "FOLLOW_UP_SENT"
                                                      (isoformat_utc E (clock w)) data)) kv)
    /\ events w' = events w
         ++ [EvReplyQuery ("from:" +++ email +++ " after:"
                             +++ string_of_Z (dt_timestamp E (Aware t)));
             EvGenerate (follow_up_prompt fn co);
             EvSend email ("Re: A Partnership in Storytelling for " +++ co)
               (strip (strip text +++ "

All the best,

" +++ your_name E)) true]
  else
    r = Ok (f, rc) /\ lead_status w' = lead_status w
    /\ events w' = events w
         ++ [EvReplyQuery ("from:" +++ email +++ " after:"
                             +++ string_of_Z (dt_timestamp E (Aware t)))].
Proof.
  intros Hls Hdata Hst Hts Hsne Hf Hg Hk Hpre He Hene Hfn Hco Hm Hgen Htext Hsend H.
  follow_up_prefix H Hst Hts Hsne.
  match type of H with
  | context [bind (check_for_reply _ _ _) _ ?w1] =>
      destruct (check_for_reply_no_reply E email s (Aware t) w1 Hg Hf Hk)
        as (w2 & Hc & Hl2 & Hcl2 & _ & Hev2)
  end.
  rewrite (bind_ok _ _ _ _ _ Hc) in H; cbv beta iota in H.
  cbn [lead_status clock events] in Hl2, Hcl2, Hev2.
  destruct (should_send_follow_up_aware E s t w2 Hf) as (w3 & Hs & Hl3 & Hcl3 & _ & Hev3).
  rewrite (bind_ok _ _ _ _ _ Hs) in H; cbv beta in H.
  rewrite Hcl2 in H.
  destruct (Z.leb _ _) eqn:Hdue; cbv iota in H.
  - rewrite (bind_ok _ _ _ _ _ (log_spec _ _ _)) in H; cbv beta in H.
    rewrite (bind_ok _ _ _ _ _ (find_lead_spec pre lead post email _ Hpre He)) in H.
    destruct lead as [|p ps]; [discriminate He|]. cbv beta iota in H.
    rewrite (bind_ok _ _ _ _ _ (draft_follow_up_email_spec E _ email fn co text _ Hm Hfn Hco He
                                   Hgen Htext)) in H.
    cbv beta iota in H.
    rewrite (draft_ok_spec _ _ (re_subject_nonempty co) (follow_up_body_nonempty _ _)) in H; cbv beta iota in H.
    rewrite (bind_ok _ _ _ _ _ (send_email_spec _ _ _ _ _ Hg Hene (re_subject_nonempty co)
                                   (follow_up_body_nonempty _ _) Hsend)) in H.
    cbv beta iota in H.
    rewrite (bind_ok _ _ _ _ _ (now_iso_spec _ _)) in H; cbv beta in H.
    update_step H kv data (@or_introl _ (assoc email kv = None /\ data = []) Hdata).
    cbn [bind ret] in H. inversion H; subst. autorewrite with worldp. cbn.
    rewrite Hcl3, Hcl2, Hev3, Hev2. rewrite <- !app_assoc. auto.
  - cbn in H. inversion H; subst. cbn. rewrite Hl3, Hl2, Hev3, Hev2. auto.
Qed.

(** ** A record without its send time *)

(** C8: in Phase B, a record in INITIAL_EMAIL_SENT without an
    [initial_sent_timestamp] field is skipped: its iteration raises nothing,
    adds a debug line and a warning to the log, leaves the store, the state
    file, the clock and the outside world unchanged, and the loop goes on with
    the next record. *)
Theorem missing_timestamp_skipped E leads email data rest f rc w :
  assoc "status" data = Some (JStr "INITIAL_EMAIL_SENT") ->
  assoc "initial_sent_timestamp" data = None ->
  follow_ups_loop E leads ((email, JDict data) :: rest) (f, rc) w
  = follow_ups_loop E leads rest (f, rc)
      (mkWorld (lead_status w) (state_file w) (clock w)
         (logs w ++ [(Debug, "Checking status for " +++ email);
                     (Warning, "Missing initial_sent_timestamp for " +++ email)])
         (events w) (state_writable w) (bq_calls w)).
Proof.
  intros Hst Hts. cbn [follow_ups_loop].
  apply bind_ok.
  unfold process_follow_up, bind, py_get, log, ret. rewrite Hst, Hts.
  cbn. rewrite <- app_assoc. reflexivity.
Qed.

(** ** Phase A on a new lead *)

Lemma new_leads_loop_app_ok E pre rest n w m w1 :
  new_leads_loop E pre n w = (Ok m, w1) ->
  new_leads_loop E (pre ++ rest) n w = new_leads_loop E rest m w1.
Proof.
  revert n w. induction pre as [|lead pre IH]; intros n w H; cbn [new_leads_loop app] in *.
  - inversion H; subst; reflexivity.
  - unfold bind in *. destruct (process_new_lead E lead n w) as [[c|e] w2]; [|discriminate].
    exact (IH c w2 H).
Qed.

(** C3: take any position of the fetched leads.  When the leads before it
    have been processed without an exception, and the lead there is absent
    from the store at that point (PENDING) and has its initial email drafted
    and sent, Phase A ends with its record
    [{"status": "INITIAL_EMAIL_SENT", "initial_sent_timestamp": now}], where
    [now] is the UTC clock read at the send, rendered in ISO 8601; the record has
    no other field, so neither a follow-up nor a reply timestamp.  Later leads
    of the same run do not change it. *)
Theorem pending_lead_initial_sent E pre lead post email company fn n w1 kv w r w' :
  new_leads_loop E pre 0 w = (Ok n, w1) ->
  assoc "email" lead = Some email -> assoc "company" lead = Some company ->
  assoc "firstName" lead = Some fn -> String.eqb email "" = false ->
  lead_status w1 = JDict kv -> assoc email kv = None -> gmail_service E = true ->
  gmail_send E email (sender_email E) (strip ("A Partnership in Storytelling for " +++ company))
    (strip (initial_body_template E fn)) = true ->
  process_new_leads E (pre ++ lead :: post) w = (r, w') ->
  exists kv', lead_status w' = JDict kv'
    /\ assoc email kv' = Some (sent_record (isoformat_utc E (clock w1))).
Proof.
  intros Hpre He Hc Hf Hne Hls Hnone Hg Hsend H.
  destruct (process_new_lead_sends E lead n w1 email company fn kv He Hc Hf Hne Hls Hnone Hg Hsend)
    as (w2 & Hp & Hl2 & _).
  unfold process_new_leads, bind at 1 in H.
  rewrite (new_leads_loop_app_ok E pre (lead :: post) 0 w n w1 Hpre) in H.
  cbn [new_leads_loop] in H. rewrite (bind_ok _ _ _ _ _ Hp) in H.
  destruct (new_leads_loop E post (S n) w2) as [res w3] eqn:Hl.
  destruct (new_leads_loop_keeps E post (S n) w2 res w3 _ email
              [("status", JStr "INITIAL_EMAIL_SENT");
               ("initial_sent_timestamp", JStr (isoformat_utc E (clock w1)))]
              "INITIAL_EMAIL_SENT" Hl Hl2 (assoc_app_absent _ _ _ Hnone) eq_refl eq_refl)
    as (kv3 & Hl3 & Ha3).
  exists kv3. destruct res as [c|e].
  - rewrite log_spec in H. inversion H; subst. cbn. auto.
  - inversion H; subst. auto.
Qed.

(** ** Phase A leaves the other records alone *)

(** C4: Phase A leaves every record whose status is a string other than
    PENDING (INITIAL_EMAIL_SENT, FOLLOW_UP_SENT, REPLIED, ...) exactly as it
    was: same status, same timestamps, no field added or removed, whatever
    the leads and the services do, and whether the phase ends normally or
    by an exception.  So a second run of Phase A over the same leads does
    not touch what the first one wrote. *)
Theorem phase_a_keeps_non_pending E leads w r w' kv email R s :
  lead_status w = JDict kv -> assoc email kv = Some (JDict R) ->
  assoc "status" R = Some (JStr s) -> String.eqb s "PENDING" = false ->
  process_new_leads E leads w = (r, w') ->
  exists kv', lead_status w' = JDict kv' /\ assoc email kv' = Some (JDict R).
Proof.
  intros Hls HR Hs Hne H.
  unfold process_new_leads, bind at 1 in H.
  destruct (new_leads_loop E leads 0 w) as [res w1] eqn:Hl.
  destruct (new_leads_loop_keeps E leads 0 w res w1 kv email R s Hl Hls HR Hs Hne)
    as (kv1 & Hl1 & Ha1).
  exists kv1. destruct res as [c|e].
  - rewrite log_spec in H. inversion H; subst. cbn. auto.
  - inversion H; subst. auto.
Qed.

(** ** The reply check and the time gate fail closed *)

(** C10: [check_for_reply] never raises: it always returns a boolean.  It
    returns false when the Gmail service is absent, when the timestamp is not
    a string or does not parse as ISO 8601, and when the inbox search fails,
    so an outage reads as "no reply".  [should_send_follow_up] never raises
    either and returns false on a timestamp that does not parse.  On the
    sample configuration with the inbox search down, Ana's follow-up is
    still sent (the count of follow-ups goes to 1). *)
Theorem reply_check_fails_closed :
  (forall E email ts w, exists b w1, check_for_reply E email ts w = (Ok b, w1))
  /\ (forall E email ts w, gmail_service E = false ->
        fst (check_for_reply E email ts w) = Ok false)
  /\ (forall E email ts w, (forall s, ts = JStr s -> fromisoformat E (replace_Z s) = None) ->
        fst (check_for_reply E email ts w) = Ok false)
  /\ (forall E email s d w, fromisoformat E (replace_Z s) = Some d ->
        gmail_list E ("from:" +++ email +++ " after:" +++ string_of_Z (dt_timestamp E d)) = None ->
        fst (check_for_reply E email (JStr s) w) = Ok false)
  /\ (forall E ts w, exists b w1, should_send_follow_up E ts w = (Ok b, w1))
  /\ (forall E ts w, (forall s, ts = JStr s -> fromisoformat E (replace_Z s) = None) ->
        fst (should_send_follow_up E ts w) = Ok false)
  /\ fst (process_follow_up (sample_env None) [lead_ana] ("ana@x.com", JDict ana_record) (0, 0)
            (world0 store_sent)) = Ok (1, 0).
Proof.
  split; [exact check_for_reply_total|].
  split; [intros E email ts w Hg; unfold check_for_reply; rewrite Hg; reflexivity|].
  split; [exact check_for_reply_bad_timestamp|].
  split; [intros E email s d w Hf Hk; exact (check_for_reply_outage E email s d w Hf Hk)|].
  split; [exact should_send_follow_up_total|].
  split; [exact should_send_follow_up_bad_timestamp|].
  vm_compute. reflexivity.
Qed.

(** ** A lead the initial template cannot be filled for *)

Lemma draft_initial_email_missing E lead w :
  assoc "company" lead = None \/ assoc "firstName" lead = None ->
  exists w1, draft_initial_email E lead w
             = (Ok [("subject", "Error"); ("body", "Error drafting email")], w1)
    /\ lead_status w1 = lead_status w /\ clock w1 = clock w /\ events w1 = events w.
Proof.
  intros H. unfold draft_initial_email, try_except, bind, getitem.
  destruct (assoc "company" lead) eqn:Hc.
  - destruct H as [H|H]; [discriminate|]. rewrite H. cbn.
    eexists; split; [reflexivity|]. cbn; auto.
  - cbn. eexists; split; [reflexivity|]. cbn; auto.
Qed.

(** Phase A on a lead the template cannot be filled for: the placeholder
    draft is sent and the lead recorded as INITIAL_EMAIL_SENT. *)
Lemma process_new_lead_placeholder_sent E lead n w email kv :
  assoc "email" lead = Some email ->
  assoc "company" lead = None \/ assoc "firstName" lead = None ->
  String.eqb email "" = false ->
  lead_status w = JDict kv -> assoc email kv = None -> gmail_service E = true ->
  gmail_send E email (sender_email E) "Error" "Error drafting email" = true ->
  exists w1, process_new_lead E lead n w = (Ok (S n), w1)
    /\ lead_status w1 = JDict (kv ++ [(email, sent_record (isoformat_utc E (clock w)))])
    /\ events w1 = events w ++ [EvSend email "Error" "Error drafting email" true].
Proof.
  intros He Hmiss Hne Hls Hnone Hg Hsend.
  destruct (draft_initial_email_missing E lead
              (mkWorld (lead_status w) (state_file w) (clock w)
                 (logs w ++ [(Info, "Processing new lead: " +++ email)]) (events w) (state_writable w) (bq_calls w)) Hmiss)
    as (w1 & Hd & Hl1 & Hc1 & Hev1).
  unfold process_new_lead.
  rewrite (bind_ok _ _ _ _ _ (getitem_spec _ _ _ w He)); cbv beta iota.
  rewrite (bind_ok _ _ _ _ _ (get_lead_status_spec w)); cbv beta iota.
  rewrite Hls.
  rewrite (bind_ok _ _ _ _ _ (py_get_dict_spec _ _ _ _)); cbv beta iota.
  rewrite Hnone; cbv beta iota.
  rewrite (bind_ok _ _ _ _ _ (py_get_dict_spec _ _ _ _)); cbv beta iota.
  cbn [assoc is_str]. rewrite String.eqb_refl.
  rewrite (bind_ok _ _ _ _ _ (log_spec _ _ _)); cbv beta iota.
  rewrite (bind_ok _ _ _ _ _ Hd); cbv beta iota.
  rewrite (draft_ok_spec "Error" "Error drafting email" eq_refl eq_refl); cbv beta iota.
  rewrite bind_assoc.
  rewrite (bind_ok _ _ _ _ _ (send_email_spec _ email "Error" "Error drafting email" _ Hg Hne eq_refl eq_refl Hsend));
    cbv beta iota.
  rewrite bind_assoc.
  rewrite (bind_ok _ _ _ _ _ (now_iso_spec _ _)); cbv beta iota.
  cbn in Hl1, Hc1, Hev1. rewrite Hls in Hl1.
  match goal with |- context [bind (update_lead_status ?EE ?e ?st ?ts) _ ?w2] =>
    rewrite (bind_ok _ _ _ _ _ (update_lead_status_spec EE e st ts w2 kv [] Hl1
                                  (or_intror (conj Hnone eq_refl)))) end.
  eexists; split; [reflexivity|]. autorewrite with worldp. cbn [lead_status events clock].
  rewrite dict_set_absent by exact Hnone. rewrite Hc1, Hev1. split; reflexivity.
Qed.

(** ** Exceptions raised while processing one lead *)

Lemma try_except_total {A} (m : M A) h w :
  (forall e w1, exists a w2, h e w1 = (Ok a, w2)) -> exists a w1, try_except m h w = (Ok a, w1).
Proof. intros Hh. unfold try_except. destruct (m w) as [[a|e] w1]; eauto. Qed.

Lemma draft_initial_email_total E lead w :
  exists d w1, draft_initial_email E lead w = (Ok d, w1).
Proof.
  apply try_except_total. intros e w1; destruct e; eexists _, _; reflexivity.
Qed.

Lemma draft_follow_up_email_total E lead w :
  exists d w1, draft_follow_up_email E lead w = (Ok d, w1).
Proof.
  unfold draft_follow_up_email. destruct (gemini_model E); cbn.
  - apply try_except_total. intros e w1; eexists _, _; reflexivity.
  - eexists _, _; reflexivity.
Qed.

Lemma send_email_total E r s b w :
  exists ok w1, send_email E r s b w = (Ok ok, w1).
Proof.
  unfold send_email. destruct (negb (gmail_service E)); [eexists _, _; reflexivity|].
  destruct (String.eqb r "" || String.eqb s "" || String.eqb b ""); [eexists _, _; reflexivity|].
  apply try_except_total. intros e w1; destruct e; eexists _, _; reflexivity.
Qed.

Lemma try_except_reraise {A} (m : M A) lv msg w e w' :
  try_except m (fun e => log lv msg;; raise e) w = (Err e, w') ->
  exists w1, w' = mkWorld (lead_status w1) (state_file w1) (clock w1)
                    (logs w1 ++ [(lv, msg)]) (events w1) (state_writable w1) (bq_calls w1).
Proof.
  unfold try_except. destruct (m w) as [[a|e'] w1]; intros H; [discriminate|].
  cbn in H. inversion H; subst; eauto.
Qed.


(* ------------------------------------------------------------------ *)
(** ** Records only move forward *)

Lemma assoc_none_notin {A} k (kv : list (string * A)) :
  assoc k kv = None -> ~ In k (map fst kv).
Proof.
  induction kv as [|[k' v'] kv IH]; cbn; [auto|].
  destruct (String.eqb_spec k k'); [discriminate|]. intros H [->|Hin]; [congruence|].
  exact (IH H Hin).
Qed.

Lemma dict_set_nodup {A} k (v : A) kv :
  NoDup (map fst kv) -> NoDup (map fst (dict_set k v kv)).
Proof.
  intros Hnd. destruct (assoc k kv) eqn:Hk.
  - rewrite dict_set_keys by congruence. exact Hnd.
  - rewrite dict_set_absent by exact Hk. rewrite map_app. cbn [map fst].
    apply (Permutation_NoDup (Permutation_cons_append _ _)).
    constructor; [apply assoc_none_notin; exact Hk | exact Hnd].
Qed.

Lemma nodup_assoc_in {A} kv k (v : A) :
  NoDup (map fst kv) -> In (k, v) kv -> assoc k kv = Some v.
Proof.
  induction kv as [|[k' v'] kv IH]; cbn; [tauto|]. intros Hnd Hin.
  inversion Hnd as [|? ? Hnot Hnd']; subst.
  destruct Hin as [Heq|Hin].
  - inversion Heq; subst. rewrite String.eqb_refl. reflexivity.
  - destruct (String.eqb_spec k k') as [->|Hne]; [|exact (IH Hnd' Hin)].
    exfalso. apply Hnot. apply (in_map fst) in Hin. exact Hin.
Qed.

Lemma rec_forward_trans a b c : rec_forward a b -> rec_forward b c -> rec_forward a c.
Proof.
  intros [->|(r & r' & n & n' & Ha & Hb & Hr & Hr' & Hlt & Hts)] Hbc; [exact Hbc|].
  destruct Hbc as [->|(q & q' & m & m' & Hb' & Hc & Hq & Hq' & Hlt' & Hts')].
  - right; exists r, r', n, n'; repeat split; auto.
  - rewrite Hb in Hb'; inversion Hb'; subst q. rewrite Hr' in Hq; inversion Hq; subst m.
    right; exists r, q', n, m'; repeat split; auto; lia.
Qed.

Lemma fw_refl s : fw_store s s.
Proof. intros kv -> Hc. exists kv; split; [reflexivity|]; split; [exact Hc|]. intros e; left; reflexivity. Qed.

Lemma fw_trans a b c : fw_store a b -> fw_store b c -> fw_store a c.
Proof.
  intros Hab Hbc kv Ha Hc.
  destruct (Hab kv Ha Hc) as (kv1 & Hb & Hc1 & Hf1).
  destruct (Hbc kv1 Hb Hc1) as (kv2 & Hc' & Hc2 & Hf2).
  exists kv2; split; [exact Hc'|]; split; [exact Hc2|]. intros e; eapply rec_forward_trans; eauto.
Qed.

Lemma pending_rank0 kv email rec :
  consistent_store kv -> pending_at kv email rec ->
  rank rec = Some 0 /\ rec_at kv email = Some rec
  /\ forall f, In f ts_fields -> assoc f rec = None.
Proof.
  intros [_ Hc] [[Hn ->]|[Hs Hst]].
  - unfold rec_at; rewrite Hn. repeat split; auto.
  - assert (Hr : rank rec = Some 0) by (unfold rank; destruct Hst as [-> | ->]; reflexivity).
    pose proof (Hc _ _ Hs) as Hcr. unfold consistent_rec in Hcr; rewrite Hr in Hcr.
    unfold rec_at; rewrite Hs. repeat split; auto.
Qed.

Lemma record_after_initial ts r :
  record_after_update "INITIAL_EMAIL_SENT" ts r
  = dict_set "initial_sent_timestamp" (JStr ts) (dict_set "status" (JStr "INITIAL_EMAIL_SENT") r).
Proof. reflexivity. Qed.

Lemma record_after_follow_up ts r :
  record_after_update "FOLLOW_UP_SENT" ts r
  = dict_set "follow_up_sent_timestamp" (JStr ts) (dict_set "status" (JStr "FOLLOW_UP_SENT") r).
Proof. reflexivity. Qed.

Lemma record_after_replied ts r :
  record_after_update "REPLIED" ts r
  = dict_set "replied_timestamp" (JStr ts) (dict_set "status" (JStr "REPLIED") r).
Proof. reflexivity. Qed.

(** Setting [email] to a new record [R'] keeps the store consistent and moves
    every record forward when [R'] is consistent and moves [email]'s forward. *)
Lemma fw_dict_set kv email R' :
  (forall kv0, kv0 = kv -> consistent_store kv0 ->
     consistent_rec R' /\ rec_forward (rec_at kv email) (Some R')) ->
  fw_store (JDict kv) (JDict (dict_set email (JDict R') kv)).
Proof.
  intros Hstep kv0 Heq Hc. inversion Heq; subst kv0.
  destruct (Hstep kv eq_refl Hc) as [HR' Hfw].
  exists (dict_set email (JDict R') kv). split; [reflexivity|]. split.
  - destruct Hc as [Hnd Hc]. split; [apply dict_set_nodup; exact Hnd|].
    intros e r He. destruct (String.eqb_spec email e) as [<-|Hne].
    + rewrite assoc_dict_set_eq in He. inversion He; subst; exact HR'.
    + rewrite assoc_dict_set_neq in He by exact Hne. exact (Hc _ _ He).
  - intros e. destruct (String.eqb_spec email e) as [<-|Hne].
    + unfold rec_at at 2. rewrite assoc_dict_set_eq. exact Hfw.
    + unfold rec_at. rewrite assoc_dict_set_neq by exact Hne. left; reflexivity.
Qed.

Lemma ts_fields_cases f :
  In f ts_fields ->
  f = "initial_sent_timestamp" \/ f = "follow_up_sent_timestamp" \/ f = "replied_timestamp".
Proof. cbn; intuition. Qed.

Lemma fw_initial kv email rec ts :
  pending_at kv email rec ->
  fw_store (JDict kv)
    (JDict (dict_set email (JDict (record_after_update "INITIAL_EMAIL_SENT" ts rec)) kv)).
Proof.
  intros Hp. apply fw_dict_set. intros kv0 -> Hc.
  destruct (pending_rank0 _ _ _ Hc Hp) as (Hr & Hat & Hnone).
  rewrite record_after_initial, Hat.
  assert (Hrk : rank (dict_set "initial_sent_timestamp" (JStr ts)
                   (dict_set "status" (JStr "INITIAL_EMAIL_SENT") rec)) = Some 1).
  { unfold rank. rewrite assoc_dict_set_neq by discriminate.
    rewrite assoc_dict_set_eq. reflexivity. }
  split.
  - unfold consistent_rec. rewrite Hrk.
    rewrite !assoc_dict_set_neq by discriminate.
    split; apply Hnone; cbn; auto.
  - right. do 4 eexists. repeat split; [exact Hr | exact Hrk | lia |].
    intros f v Hf Hv. rewrite (Hnone f Hf) in Hv. discriminate.
Qed.

Lemma fw_initial_to kv email R st ts :
  st = "REPLIED" \/ st = "FOLLOW_UP_SENT" ->
  assoc email kv = Some (JDict R) -> assoc "status" R = Some (JStr "INITIAL_EMAIL_SENT") ->
  fw_store (JDict kv) (JDict (dict_set email (JDict (record_after_update st ts R)) kv)).
Proof.
  intros Hst HR Hs. apply fw_dict_set. intros kv0 -> [_ Hc].
  pose proof (Hc _ _ HR) as HcR.
  assert (Hr1 : rank R = Some 1) by (unfold rank; rewrite Hs; reflexivity).
  unfold consistent_rec in HcR; rewrite Hr1 in HcR. destruct HcR as [Hfu Hre].
  unfold rec_at; rewrite HR.
  destruct Hst as [-> | ->];
    [rewrite record_after_replied | rewrite record_after_follow_up];
    (match goal with |- context [dict_set ?tf (JStr ts) (dict_set "status" (JStr ?s) R)] =>
       assert (Hrk : rank (dict_set tf (JStr ts) (dict_set "status" (JStr s) R))
                     = Some (if String.eqb s "REPLIED" then 3 else 2))
         by (unfold rank; rewrite assoc_dict_set_neq by discriminate;
             rewrite assoc_dict_set_eq; reflexivity) end);
    cbn in Hrk; (split; [unfold consistent_rec; rewrite Hrk; exact I|]);
    right; do 4 eexists; (repeat split; [exact Hr1 | exact Hrk | lia |]);
    intros f v Hf Hv; apply ts_fields_cases in Hf as [-> | [-> | ->]];
    try congruence;
    rewrite !assoc_dict_set_neq by discriminate; exact Hv.
Qed.

Lemma frame_result {A} (m : M A) w r w' :
  store_frame m -> m w = (r, w') -> lead_status w' = lead_status w.
Proof. intros Hf H; apply (Hf _ _ _ H). Qed.

Lemma update_tail_footprint E email st ts (k : unit -> M (nat * nat)) w r w' :
  (forall a, store_frame (k a)) ->
  bind (update_lead_status E email st ts) k w = (r, w') ->
  lead_status w' = lead_status w
  \/ exists kv R, lead_status w = JDict kv
       /\ (assoc email kv = Some (JDict R) \/ (assoc email kv = None /\ R = []))
       /\ lead_status w' = JDict (dict_set email (JDict (record_after_update st ts R)) kv).
Proof.
  intros Hk H. unfold bind in H.
  destruct (update_lead_status E email st ts w) as [[u|e] w1] eqn:Hu;
    apply update_lead_status_cases in Hu as [[Hu1 _] | (kv & R & Hls & HR & Hr & Hu1 & _)].
  - left. rewrite (frame_result _ _ _ _ (Hk u) H). exact Hu1.
  - right. exists kv, R. rewrite (frame_result _ _ _ _ (Hk u) H). auto.
  - inversion H; subst. left; exact Hu1.
  - discriminate.
Qed.

Lemma follow_up_footprint E leads email data c w r w' :
  process_follow_up E leads (email, data) c w = (r, w') ->
  lead_status w' = lead_status w
  \/ exists d kv R ts st, data = JDict d
       /\ assoc "status" d = Some (JStr "INITIAL_EMAIL_SENT")
       /\ (st = "REPLIED" \/ st = "FOLLOW_UP_SENT") /\ lead_status w = JDict kv
       /\ (assoc email kv = Some (JDict R) \/ (assoc email kv = None /\ R = []))
       /\ lead_status w' = JDict (dict_set email (JDict (record_after_update st ts R)) kv).
Proof.
  intros H. destruct c as [fc rc]. unfold process_follow_up in H; cbv beta iota in H.
  destruct data as [| | | | |d];
    try (rewrite bind_py_get_nondict in H by (intros ? ?; discriminate);
         inversion H; subst; left; reflexivity).
  rewrite (bind_ok _ _ _ _ _ (py_get_dict_spec _ _ _ _)) in H; cbv beta in H.
  remember (match assoc "status" d with Some v => v | None => JNull end) as sv eqn:Hsv.
  destruct (is_str sv "INITIAL_EMAIL_SENT") eqn:Hs; cbn [negb] in H;
    [| inversion H; subst; left; reflexivity].
  assert (Hst : assoc "status" d = Some (JStr "INITIAL_EMAIL_SENT")).
  { apply is_str_true in Hs. subst sv. destruct (assoc "status" d); congruence. }
  apply frame_then in H as [(? & w1 & _ & Hl1 & _ & H)|[? ?]]; auto with frame;
    try (left; congruence).
  rewrite (bind_ok _ _ _ _ _ (py_get_dict_spec _ _ _ _)) in H; cbv beta in H.
  destruct (negb (truthy _)).
  { left. rewrite <- Hl1. eapply frame_result; [|exact H]. frame_tac. }
  apply frame_then in H as [(replied & w2 & _ & Hl2 & _ & H)|[? ?]]; auto with frame;
    try (left; congruence).
  destruct replied.
  - apply frame_then in H as [(ts & w3 & _ & Hl3 & _ & H)|[? ?]]; auto with frame;
      try (left; congruence).
    apply update_tail_footprint in H as [H | (kv & R & Hls & HR & H)];
      [left; congruence | | intros; frame_tac].
    right. exists d, kv, R, ts, "REPLIED". repeat split; auto. congruence.
  - apply frame_then in H as [(due & w3 & _ & Hl3 & _ & H)|[? ?]]; auto with frame;
      try (left; congruence).
    destruct due; [| inversion H; subst; left; congruence].
    apply frame_then in H as [(? & w4 & _ & Hl4 & _ & H)|[? ?]]; auto with frame;
      try (left; congruence).
    apply frame_then in H as [(ld & w5 & _ & Hl5 & _ & H)|[? ?]]; auto with frame;
      try (left; congruence).
    destruct ld as [[|l0 ls]|];
      try (left; rewrite <- Hl1, <- Hl2, <- Hl3, <- Hl4, <- Hl5;
           eapply frame_result; [|exact H]; frame_tac; fail).
    apply frame_then in H as [(fd & w6 & _ & Hl6 & _ & H)|[? ?]]; auto with frame;
      try (left; congruence).
    destruct fd as [d'|]; cbv beta iota in H;
      [destruct (draft_ok d') as [[subj body]|] |]; cbv beta iota in H;
      try (left; rewrite <- Hl1, <- Hl2, <- Hl3, <- Hl4, <- Hl5, <- Hl6;
           eapply frame_result; [|exact H]; frame_tac; fail).
    apply frame_then in H as [(ok & w7 & _ & Hl7 & _ & H)|[? ?]]; auto with frame;
      try (left; congruence).
    destruct ok;
      [| left; rewrite <- Hl1, <- Hl2, <- Hl3, <- Hl4, <- Hl5, <- Hl6, <- Hl7;
         eapply frame_result; [|exact H]; frame_tac].
    apply frame_then in H as [(ts & w8 & _ & Hl8 & _ & H)|[? ?]]; auto with frame;
      try (left; congruence).
    apply update_tail_footprint in H as [H | (kv & R & Hls & HR & H)];
      [left; congruence | | intros; frame_tac].
    right. exists d, kv, R, ts, "FOLLOW_UP_SENT". repeat split; auto. congruence.
Qed.

Lemma fw_of_frame {A} (m : M A) : store_frame m -> fw_op m.
Proof. intros Hf w r w' H. rewrite (frame_result _ _ _ _ Hf H). apply fw_refl. Qed.

Lemma fw_bind {A B} (m : M A) (k : A -> M B) :
  fw_op m -> (forall a, fw_op (k a)) -> fw_op (bind m k).
Proof.
  intros Hm Hk w r w' H. unfold bind in H.
  destruct (m w) as [[a|e] w1] eqn:E1.
  - exact (fw_trans _ _ _ (Hm _ _ _ E1) (Hk a _ _ _ H)).
  - inversion H; subst. exact (Hm _ _ _ E1).
Qed.

Lemma fw_try_except {A} (m : M A) h :
  fw_op m -> (forall e, fw_op (h e)) -> fw_op (try_except m h).
Proof.
  intros Hm Hh w r w' H. unfold try_except in H.
  destruct (m w) as [[a|e] w1] eqn:E1.
  - inversion H; subst. exact (Hm _ _ _ E1).
  - exact (fw_trans _ _ _ (Hm _ _ _ E1) (Hh e _ _ _ H)).
Qed.

Lemma fw_try_finally {A} (m : M A) fin :
  fw_op m -> fw_op fin -> fw_op (try_finally m fin).
Proof.
  intros Hm Hf w r w' H. unfold try_finally in H.
  destruct (m w) as [r1 w1] eqn:E1. destruct (fin w1) as [[u|e] w2] eqn:E2;
    inversion H; subst; exact (fw_trans _ _ _ (Hm _ _ _ E1) (Hf _ _ _ E2)).
Qed.

Lemma frame_save_state : store_frame save_state.
Proof.
  intros w r w' H. rewrite save_state_spec in H. inversion H; subst.
  autorewrite with worldp; auto.
Qed.

Lemma frame_bq_insert_leads E leads : store_frame (bq_insert_leads E leads).
Proof. induction leads; simpl; frame_tac. Qed.

Lemma fw_new_lead E lead n : fw_op (process_new_lead E lead n).
Proof.
  intros w r w' H.
  apply new_lead_footprint in H as [H | (email & kv & rec & ts & _ & Hkv & Hp & H)];
    rewrite H; [apply fw_refl|]. rewrite Hkv. apply fw_initial. exact Hp.
Qed.

Lemma fw_new_leads_loop E leads : forall n, fw_op (new_leads_loop E leads n).
Proof.
  induction leads as [|lead rest IH]; intros n; cbn [new_leads_loop].
  - apply fw_of_frame, frame_ret.
  - apply fw_bind; [apply fw_new_lead | exact IH].
Qed.

Lemma fw_process_new_leads E leads : fw_op (process_new_leads E leads).
Proof.
  unfold process_new_leads. apply fw_bind; [apply fw_new_leads_loop|].
  intros a; apply fw_of_frame, frame_log.
Qed.

Lemma fw_follow_ups_loop E leads items : forall c w r w' kv,
  lead_status w = JDict kv -> NoDup (map fst items) ->
  Forall (fun p => assoc (fst p) kv = Some (snd p)) items ->
  follow_ups_loop E leads items c w = (r, w') -> fw_store (JDict kv) (lead_status w').
Proof.
  induction items as [|[email data] rest IH]; intros c w r w' kv Hls Hnd Hall H.
  - cbn in H; inversion H; subst; rewrite Hls; apply fw_refl.
  - cbn [follow_ups_loop] in H. unfold bind in H.
    destruct (process_follow_up E leads (email, data) c w) as [res w1] eqn:Hp.
    inversion Hall as [|? ? Hed Hrest]; inversion Hnd as [|? ? Hnot Hnd']; subst.
    cbn [fst snd] in Hed.
    apply follow_up_footprint in Hp
      as [Hp | (d & kv0 & R & ts & st & -> & Hst & Hstc & Hkv0 & HR & Hp)].
    + destruct res as [c'|e].
      * refine (IH _ _ _ _ kv _ Hnd' Hrest H); congruence.
      * inversion H; subst; rewrite Hp, Hls; apply fw_refl.
    + rewrite Hls in Hkv0; inversion Hkv0; subst kv0.
      assert (R = d) by (destruct HR as [HR|[HR _]]; rewrite Hed in HR; congruence). subst R.
      pose proof (fw_initial_to kv email d st ts Hstc Hed Hst) as Hstep.
      destruct res as [c'|e].
      * eapply fw_trans; [exact Hstep|]. eapply IH; [exact Hp | exact Hnd' | | exact H].
        apply Forall_forall; intros [e dd] Hin. cbn [fst snd].
        rewrite assoc_dict_set_neq.
        -- exact (proj1 (Forall_forall _ _) Hrest _ Hin).
        -- intros ->. apply Hnot. apply (in_map fst) in Hin. exact Hin.
      * inversion H; subst. rewrite Hp. exact Hstep.
Qed.

Lemma fw_process_follow_ups E leads : fw_op (process_follow_ups E leads).
Proof.
  intros w r w' H. unfold process_follow_ups in H.
  rewrite (bind_ok _ _ _ _ _ (get_lead_status_spec w)) in H; cbv beta in H.
  destruct (lead_status w) as [| | | | |kv] eqn:Hls;
    try (cbn in H; inversion H; subst; rewrite Hls; apply fw_refl).
  rewrite (bind_ok _ _ _ _ _ (eq_refl : py_items (JDict kv) w = (Ok kv, w))) in H; cbv beta in H.
  unfold bind at 1 in H.
  destruct (follow_ups_loop E leads kv (0, 0) w) as [res w1] eqn:Hl.
  intros kv0 Heq Hc. inversion Heq; subst kv0.
  assert (Hfw : fw_store (JDict kv) (lead_status w1)).
  { eapply fw_follow_ups_loop; [exact Hls | exact (proj1 Hc) | | exact Hl].
    apply Forall_forall; intros [e d] Hin. apply nodup_assoc_in; [exact (proj1 Hc) | exact Hin]. }
  destruct res as [c|e]; [rewrite log_spec in H|]; inversion H; subst; apply Hfw; auto.
Qed.

#[export] Hint Resolve frame_save_state frame_bq_insert_leads : frame.

Lemma fw_run_workflow E leads : fw_op (run_workflow E leads).
Proof.
  unfold run_workflow.
  repeat (first [ apply fw_process_new_leads | apply fw_process_follow_ups
                | apply fw_of_frame; solve [frame_tac]
                | match goal with
                  | |- fw_op (bind _ _) => apply fw_bind; [|intro]
                  | |- fw_op (try_except _ _) => apply fw_try_except; [|intro]
                  | |- fw_op (try_finally _ _) => apply fw_try_finally
                  | |- fw_op (match ?x with _ => _ end) => destruct x
                  | |- fw_op (if ?b then _ else _) => destruct b
                  end]).
Qed.

(** C5: every write of the Reconciler moves records forward.  Starting from a
    consistent store (no key twice; a PENDING record carries no timestamp,
    an INITIAL_EMAIL_SENT record neither a follow-up nor a reply timestamp),
    after one Phase A iteration, after one Phase B iteration on an item of
    the store, and after a whole run (whatever the services answer, whether
    it ends normally or by an exception), the store is consistent and each
    record is either unchanged or has a strictly later status on
    PENDING, INITIAL_EMAIL_SENT, FOLLOW_UP_SENT, REPLIED with every
    timestamp it had kept with the same value. *)
Theorem status_moves_forward :
  (forall E lead n w r w' kv, process_new_lead E lead n w = (r, w') ->
     lead_status w = JDict kv -> consistent_store kv ->
     exists kv', lead_status w' = JDict kv' /\ consistent_store kv'
                 /\ forall e, rec_forward (rec_at kv e) (rec_at kv' e))
  /\ (forall E leads email data c w r w' kv,
        process_follow_up E leads (email, data) c w = (r, w') ->
        lead_status w = JDict kv -> assoc email kv = Some data -> consistent_store kv ->
        exists kv', lead_status w' = JDict kv' /\ consistent_store kv'
                    /\ forall e, rec_forward (rec_at kv e) (rec_at kv' e))
  /\ (forall E leads w r w' kv, run_workflow E leads w = (r, w') ->
        lead_status w = JDict kv -> consistent_store kv ->
        exists kv', lead_status w' = JDict kv' /\ consistent_store kv'
                    /\ forall e, rec_forward (rec_at kv e) (rec_at kv' e)).
Proof.
  split; [|split].
  - intros E lead n w r w' kv H Hls Hc. exact (fw_new_lead E lead n w r w' H kv Hls Hc).
  - intros E leads email data c w r w' kv H Hls Hd Hc.
    assert (Hfw : fw_store (JDict kv) (lead_status w')).
    { eapply fw_follow_ups_loop with (items := [(email, data)]) (c := c) (w := w);
        [exact Hls | repeat constructor; cbn; tauto | repeat constructor; exact Hd |].
      cbn [follow_ups_loop]. unfold bind. rewrite H.
      destruct r; reflexivity. }
    exact (Hfw kv eq_refl Hc).
  - intros E leads w r w' kv H Hls Hc. exact (fw_run_workflow E leads w r w' H kv Hls Hc).
Qed.

(* ------------------------------------------------------------------ *)
(** ** Saving what was loaded *)

Lemma scan_string_escape c tail :
  scan_string (escape_char c ++ tail) = cons_fst c (scan_string tail).
Proof.
  destruct c as [b0 b1 b2 b3 b4 b5 b6 b7];
    destruct b0, b1, b2, b3, b4, b5, b6, b7; reflexivity.
Qed.

Lemma scan_string_encoded s tail :
  scan_string (flat_map escape_char (list_ascii_of_string s) ++ dq :: tail)
  = Some (list_ascii_of_string s, tail).
Proof.
  induction s as [|c s IH]; [reflexivity|].
  cbn [list_ascii_of_string flat_map]. rewrite <- app_assoc, scan_string_escape, IH.
  reflexivity.
Qed.

Lemma skip_ws_repeat_space n s : skip_ws (repeat " "%char n ++ s) = skip_ws s.
Proof. induction n as [|n IH]; [reflexivity|]. exact IH. Qed.

Lemma skip_ws_newline_indent lvl s : skip_ws (newline_indent lvl ++ s) = skip_ws s.
Proof. apply skip_ws_repeat_space. Qed.

Lemma skip_ws_nonws c r : is_ws c = false -> skip_ws (c :: r) = c :: r.
Proof. intros H; cbn [skip_ws]; rewrite H; reflexivity. Qed.

Lemma encode_str_app k X :
  encode_str k ++ X = dq :: flat_map escape_char (list_ascii_of_string k) ++ dq :: X.
Proof. unfold encode_str; cbn [app]; rewrite <- app_assoc; reflexivity. Qed.

Lemma parse_value_str f s rest :
  parse_value (S f) (encode_str s ++ rest) = Some (JStr s, rest).
Proof.
  rewrite encode_str_app. cbn [parse_value]. rewrite skip_ws_nonws by reflexivity.
  rewrite Ascii.eqb_refl, scan_string_encoded, string_of_list_ascii_of_string.
  reflexivity.
Qed.

Lemma dump_dict_cons lvl k x kvs :
  dump lvl (JDict ((k, x) :: kvs))
  = "{"%char :: newline_indent (S lvl) ++ encode_str k ++ [":"%char; " "%char]
      ++ dump (S lvl) x ++ members_text lvl kvs ++ newline_indent lvl ++ ["}"%char].
Proof.
  cbn [dump]. do 6 f_equal.
  induction kvs as [|[k' y] l IH]; [reflexivity|].
  cbn [members_text]. rewrite <- IH. reflexivity.
Qed.

Lemma parse_value_ws f sp s :
  skip_ws (sp ++ s) = skip_ws s -> parse_value f (sp ++ s) = parse_value f s.
Proof. intros H; destruct f; [reflexivity|]. cbn [parse_value]. rewrite H. reflexivity. Qed.

Lemma dict_of_pairs_acc_app {A} (acc l : list (string * A)) :
  NoDup (map fst (acc ++ l)) -> dict_of_pairs_acc acc l = acc ++ l.
Proof.
  revert acc; induction l as [|[k v] l IH]; intros acc H; cbn [dict_of_pairs_acc].
  - rewrite app_nil_r; reflexivity.
  - assert (Hk : assoc k acc = None).
    { rewrite map_app in H. cbn [map] in H. apply NoDup_remove_2 in H.
      clear - H. induction acc as [|[k' v'] acc IHa]; [reflexivity|].
      cbn [assoc]. cbn [map] in H. destruct (String.eqb_spec k k').
      - subst; exfalso; apply H; left; reflexivity.
      - apply IHa. intros Hin; apply H; right; exact Hin. }
    rewrite dict_set_absent by exact Hk. rewrite IH.
    + rewrite <- app_assoc; reflexivity.
    + rewrite <- app_assoc; exact H.
Qed.

Lemma dict_of_pairs_nodup {A} (l : list (string * A)) :
  NoDup (map fst l) -> dict_of_pairs l = l.
Proof. intros H; exact (dict_of_pairs_acc_app [] l H). Qed.

Lemma encode_str_length k : 2 <= length (encode_str k).
Proof. unfold encode_str; cbn [length]; rewrite length_app; cbn [length]; lia. Qed.

Lemma newline_indent_length lvl : 1 <= length (newline_indent lvl).
Proof. cbn [newline_indent length]; lia. Qed.

Lemma members_parse lvl : forall l k x f rest,
  Forall (fun p => parses_at (S lvl) (snd p)) ((k, x) :: l) ->
  length (newline_indent (S lvl) ++ encode_str k ++ [":"%char; " "%char] ++ dump (S lvl) x
          ++ members_text lvl l) < f ->
  parse_members f (newline_indent (S lvl) ++ encode_str k ++ [":"%char; " "%char]
                   ++ dump (S lvl) x ++ members_text lvl l ++ newline_indent lvl
                   ++ "}"%char :: rest)
  = Some ((k, x) :: l, rest).
Proof.
  induction l as [|[k' y] l IH]; intros k x f rest Hall Hlen;
    (destruct f as [|f]; [cbn [length] in Hlen; lia|]);
    inversion Hall as [|? ? Hx Hl]; subst; cbn [snd] in Hx;
    pose proof (encode_str_length k); pose proof (newline_indent_length (S lvl));
    rewrite !length_app in Hlen; cbn [parse_members];
    rewrite skip_ws_newline_indent, encode_str_app, skip_ws_nonws by reflexivity;
    rewrite Ascii.eqb_refl, scan_string_encoded; cbv beta iota;
    change ([":"%char; " "%char] ++ ?X) with (":"%char :: " "%char :: X);
    rewrite skip_ws_nonws by reflexivity; rewrite Ascii.eqb_refl;
    change (" "%char :: ?s) with ([" "%char] ++ s);
    rewrite parse_value_ws by reflexivity;
    rewrite Hx by (cbn [length] in Hlen; lia); cbv beta iota;
    rewrite string_of_list_ascii_of_string.
  - cbn [members_text app]. rewrite skip_ws_newline_indent, skip_ws_nonws by reflexivity.
    reflexivity.
  - cbn [members_text]. rewrite <- app_comm_cons, skip_ws_nonws by reflexivity.
    rewrite Ascii.eqb_refl. rewrite <- !app_assoc.
    inversion Hl; subst.
    rewrite IH; [reflexivity | exact Hl |].
    cbn [members_text length] in Hlen. rewrite !length_app in Hlen |- *. lia.
Qed.

Lemma parse_dict lvl kv :
  NoDup (map fst kv) -> Forall (fun p => parses_at (S lvl) (snd p)) kv ->
  parses_at lvl (JDict kv).
Proof.
  intros Hnd Hall f rest Hlen. destruct kv as [|[k x] l].
  - destruct f as [|f]; [cbn in Hlen; lia|]. reflexivity.
  - rewrite dump_dict_cons in *. destruct f as [|f]; [cbn [length] in Hlen; lia|].
    cbn [length] in Hlen. rewrite !length_app in Hlen.
    cbn [parse_value]. rewrite <- app_comm_cons, skip_ws_nonws by reflexivity.
    change (Ascii.eqb "{"%char dq) with false. rewrite Ascii.eqb_refl. cbv beta iota.
    rewrite <- !app_assoc. change (["}"%char] ++ ?X) with ("}"%char :: X).
    rewrite members_parse; [| exact Hall | rewrite !length_app; lia].
    rewrite skip_ws_newline_indent, encode_str_app, skip_ws_nonws by reflexivity.
    change (Ascii.eqb dq "}"%char) with false. cbv beta iota.
    rewrite dict_of_pairs_nodup by exact Hnd. reflexivity.
Qed.

Lemma parses_str lvl s : parses_at lvl (JStr s).
Proof.
  intros f rest Hlen. destruct f as [|f]; [cbn in Hlen; lia|]. apply parse_value_str.
Qed.

Lemma parses_wf m : wf_mapping m -> parses_at 0 m.
Proof.
  intros (kv & -> & Hnd & Hall). apply parse_dict; [exact Hnd|].
  eapply Forall_impl; [|exact Hall]. intros [e v] (r & Hv & Hnd' & Hs); cbn [snd] in *; subst v.
  apply parse_dict; [exact Hnd'|].
  eapply Forall_impl; [|exact Hs]. intros [k v] (s & Hv); cbn [snd] in *; subst v.
  apply parses_str.
Qed.

Lemma loads_dumps m : wf_mapping m -> loads (dumps m) = Some m.
Proof.
  intros Hwf. unfold loads, dumps.
  pose proof (parses_wf m Hwf (S (length (dump 0 m))) [] (Nat.lt_succ_diag_r _)) as H.
  rewrite app_nil_r in H. rewrite H. reflexivity.
Qed.

(** C9: a well-formed status mapping [m] (an object keyed by email whose
    values are objects of string fields, no key twice at either level) that
    [_save_state] wrote to the state file is loaded back by [_load_state]
    as [m] itself, and saving it again writes the same text: no field added,
    dropped or changed. *)
Theorem state_roundtrip m w r w' :
  wf_mapping m -> state_file w = Some (dumps m) ->
  (init;; save_state) w = (r, w') ->
  r = Ok tt /\ lead_status w' = m /\ state_file w' = Some (dumps m).
Proof.
  intros Hwf Hf H. pose proof (loads_dumps m Hwf) as Hl.
  destruct Hwf as (kv & -> & _).
  unfold init, load_state, bind, read_state_file in H. rewrite Hf in H. cbv beta iota in H.
  rewrite Hl in H. cbv beta iota in H.
  unfold py_len, log, ret, put_lead_status, save_state, try_except, get_lead_status,
    write_state_file in H.
  cbv beta iota in H. cbn [state_writable] in H.
  destruct (state_writable w); cbv beta iota in H; cbn [logs] in H;
    inversion H; subst; cbn [lead_status state_file]; auto.
Qed.

(* ------------------------------------------------------------------ *)
(** * Further properties of the code *)

(* proofs *)
Lemma re_rep_sound cls : forall s m k,
  re_rep cls m k s = true ->
  exists p r, s = p ++ r /\ m <= length p /\ Forall (fun c => cls c = true) p /\ k r = true.
Proof.
  induction s as [|c s IH]; intros m k H; cbn [re_rep] in H.
  - rewrite orb_false_r in H. apply andb_true_iff in H as [Hm Hk].
    apply Nat.eqb_eq in Hm; subst. exists [], []; auto.
  - apply orb_true_iff in H as [H | H].
    + apply andb_true_iff in H as [Hm Hk]. apply Nat.eqb_eq in Hm; subst.
      exists [], (c :: s); simpl; auto.
    + apply andb_true_iff in H as [Hc H]. apply IH in H as (p & r & -> & Hl & Hp & Hk).
      exists (c :: p), r; simpl; repeat split; auto; lia.
Qed.

Lemma re_rep_complete cls p : forall r m k,
  m <= length p -> Forall (fun c => cls c = true) p -> k r = true ->
  re_rep cls m k (p ++ r) = true.
Proof.
  induction p as [|c p IH]; intros r m k Hm Hp Hk; simpl in *.
  - destruct m; [|lia]. destruct r; simpl; rewrite Hk; reflexivity.
  - inversion Hp; subst. apply orb_true_iff; right. rewrite H1; simpl.
    apply IH; auto; lia.
Qed.

Lemma re_items_end s : re_items [] s = true -> s = [] \/ s = ["010"%char].
Proof.
  destruct s as [|c [|d s]]; simpl; auto; try discriminate.
  intros H. apply Nat.eqb_eq in H. right. f_equal.
  rewrite <- (ascii_nat_embedding c), H. reflexivity.
Qed.

Lemma email_pattern_iff l :
  re_items email_pattern l = true
  <-> email_shape l \/ exists l', l = l' ++ ["010"%char] /\ email_shape l'.
Proof.
  split.
  - unfold email_pattern; cbn [re_items]. intros H.
    apply re_rep_sound in H as (loc & r1 & -> & Hl1 & Hloc & H).
    destruct r1 as [|a r1]; [discriminate|]. apply andb_true_iff in H as [Ha H].
    apply Ascii.eqb_eq in Ha; subst a.
    apply re_rep_sound in H as (dom & r2 & -> & Hl2 & Hdom & H).
    destruct r2 as [|a r2]; [discriminate|]. apply andb_true_iff in H as [Ha H].
    apply Ascii.eqb_eq in Ha; subst a.
    apply re_rep_sound in H as (tld & r3 & -> & Hl3 & Htld & H).
    apply re_items_end in H as [-> | ->].
    + left. exists loc, dom, tld. rewrite !app_nil_r.
      repeat split; auto; intros ->; simpl in *; lia.
    + right. exists (loc ++ "@"%char :: dom ++ "."%char :: tld).
      split; [rewrite <- !app_assoc; simpl; rewrite <- !app_assoc; reflexivity|].
      exists loc, dom, tld. repeat split; auto; intros ->; simpl in *; lia.
  - assert (Hshape : forall l r, email_shape l -> re_items [] r = true ->
                     re_items email_pattern (l ++ r) = true).
    { intros l0 r (loc & dom & tld & -> & Hl & Hd & Ht & Hloc & Hdom & Htld) Hr.
      unfold email_pattern; cbn [re_items]. rewrite <- app_assoc.
      apply re_rep_complete; auto; [destruct loc; simpl; [congruence | lia]|].
      simpl. rewrite <- app_assoc. apply re_rep_complete; auto;
        [destruct dom; simpl; [congruence | lia]|].
      simpl. apply re_rep_complete; auto. }
    intros [H | (l' & -> & H)].
    + rewrite <- (app_nil_r l). apply Hshape; auto.
    + apply Hshape; auto.
Qed.

Lemma drop_space_head l c r : drop_space l = c :: r -> py_isspace c = false.
Proof.
  induction l as [|a l IH]; simpl; [discriminate|].
  destruct (py_isspace a) eqn:Ha; auto. intros H; inversion H; subst; auto.
Qed.

Lemma drop_space_suffix l : exists p, l = p ++ drop_space l.
Proof.
  induction l as [|a l IH]; simpl; [exists []; reflexivity|].
  destruct (py_isspace a); [destruct IH as [p Hp]; exists (a :: p); simpl; congruence|].
  exists []; reflexivity.
Qed.

Lemma drop_space_id l : (forall c r, l = c :: r -> py_isspace c = false) -> drop_space l = l.
Proof. destruct l as [|c r]; simpl; auto. intros H; rewrite (H c r eq_refl); reflexivity. Qed.

(** The characters [strip] leaves at both ends are not white space. *)
Lemma strip_ends s :
  let l := list_ascii_of_string (strip s) in
  (forall c r, l = c :: r -> py_isspace c = false)
  /\ (forall c p, l = p ++ [c] -> py_isspace c = false).
Proof.
  unfold strip; rewrite list_ascii_of_string_of_list_ascii. cbv zeta.
  set (D1 := drop_space (list_ascii_of_string s)).
  set (D2 := drop_space (rev D1)).
  split.
  - intros c r H.
    destruct (drop_space_suffix (rev D1)) as [p Hp]. fold D2 in Hp.
    assert (Hr : rev D1 = p ++ rev (c :: r)) by (rewrite <- H, rev_involutive; exact Hp).
    simpl in Hr. apply (f_equal (@rev ascii)) in Hr.
    rewrite rev_involutive, !rev_app_distr, rev_involutive in Hr. simpl in Hr.
    eapply drop_space_head; exact Hr.
  - intros c p H. apply (f_equal (@rev ascii)) in H.
    rewrite rev_involutive, rev_app_distr in H. simpl in H.
    eapply drop_space_head; exact H.
Qed.

Lemma strip_idem s : strip (strip s) = strip s.
Proof.
  destruct (strip_ends s) as [Hh Ht].
  unfold strip at 1. rewrite (drop_space_id _ Hh).
  rewrite drop_space_id.
  - rewrite rev_involutive, string_of_list_ascii_of_string. reflexivity.
  - intros c r H. apply (Ht c (rev r)).
    apply (f_equal (@rev ascii)) in H. rewrite rev_involutive in H. rewrite H. reflexivity.
Qed.

Lemma is_valid_email_iff e :
  is_valid_email e = true <-> email_shape (list_ascii_of_string (strip e)).
Proof.
  unfold is_valid_email. rewrite email_pattern_iff. split; [|auto].
  intros [H | (l' & Hl & _)]; auto.
  destruct (strip_ends e) as [_ Ht]. apply Ht in Hl. discriminate.
Qed.

Lemma plain_local c : re_local c = true -> plain_char c = true.
Proof. destruct c as [[] [] [] [] [] [] [] []]; vm_compute; congruence. Qed.
Lemma plain_domain c : re_domain c = true -> plain_char c = true.
Proof. destruct c as [[] [] [] [] [] [] [] []]; vm_compute; congruence. Qed.
Lemma plain_alpha c : re_alpha c = true -> plain_char c = true.
Proof. destruct c as [[] [] [] [] [] [] [] []]; vm_compute; congruence. Qed.

Lemma plain_count l : Forall (fun c => plain_char c = true) l -> count_occ ascii_dec l "@"%char = 0.
Proof.
  induction 1 as [|c l Hc _ IH]; simpl; auto.
  destruct (ascii_dec c "@"%char); [subst; discriminate | exact IH].
Qed.

Lemma plain_weaken (P : ascii -> bool) l :
  (forall c, P c = true -> plain_char c = true) ->
  Forall (fun c => P c = true) l -> Forall (fun c => plain_char c = true) l.
Proof. intros H; apply Forall_impl; auto. Qed.

(** X1: once stripped, an address that [_is_valid_email] accepts holds exactly one [@], and none of its characters is whitespace, a double or single quote or a backslash. *)
Theorem valid_email_single_at e :
  is_valid_email e = true ->
  count_occ ascii_dec (list_ascii_of_string (strip e)) "@"%char = 1
  /\ Forall (fun c => py_isspace c = false /\ c <> dq /\ c <> "'"%char /\ c <> bslash)
       (list_ascii_of_string (strip e)).
Proof.
  intros H. apply is_valid_email_iff in H as (loc & dom & tld & Hl & _ & _ & _ & Hloc & Hdom & Htld).
  rewrite Hl.
  apply (plain_weaken _ _ plain_local) in Hloc.
  apply (plain_weaken _ _ plain_domain) in Hdom.
  apply (plain_weaken _ _ plain_alpha) in Htld.
  split.
  - rewrite !count_occ_app. simpl. rewrite count_occ_app. simpl.
    rewrite !plain_count by assumption. reflexivity.
  - assert (Hp : forall c, plain_char c = true ->
               py_isspace c = false /\ c <> dq /\ c <> "'"%char /\ c <> bslash).
    { intros c Hc. unfold plain_char in Hc.
      repeat rewrite andb_true_iff in Hc. destruct Hc as [[[[H1 H2] H3] H4] _].
      apply negb_true_iff in H1, H2, H3, H4.
      repeat split; auto; intros ->; rewrite Ascii.eqb_refl in *; discriminate. }
    apply Forall_app; split; [eapply Forall_impl; [exact Hp | exact Hloc]|].
    constructor; [repeat split; vm_compute; congruence|].
    apply Forall_app; split; [eapply Forall_impl; [exact Hp | exact Hdom]|].
    constructor; [repeat split; vm_compute; congruence|].
    eapply Forall_impl; [exact Hp | exact Htld].
Qed.

Lemma cell_stripped row i : strip (cell row i) = cell row i.
Proof. unfold cell. destruct (Nat.ltb i (length row)); [apply strip_idem | reflexivity]. Qed.

Lemma validate_lead_result row w r w' :
  validate_lead row w = (r, w') ->
  exists o, r = Ok o /\ (forall l, o = Some l -> valid_lead l).
Proof.
  unfold validate_lead, bind, log, ret. cbv zeta.
  destruct (Nat.ltb (length row) MIN_ROW_LENGTH);
    [intros H; inversion H; subst; exists None; split; [reflexivity | discriminate]|].
  destruct (is_valid_email (cell row 2)) eqn:Hv; cbn [negb];
    [| intros H; inversion H; subst; exists None; split; [reflexivity | discriminate]].
  destruct (negb (String.eqb (cell row 0) "") && negb (String.eqb (cell row 2) "")
            && negb (String.eqb (cell row 3) "")) eqn:Hreq;
    [| intros H; inversion H; subst; exists None; split; [reflexivity | discriminate]].
  intros H; inversion H; subst. eexists; split; [reflexivity|].
  intros l Hl; inversion Hl; subst.
  repeat rewrite andb_true_iff in Hreq. destruct Hreq as [[H0 H2] H3].
  apply negb_true_iff, String.eqb_neq in H0, H2, H3.
  do 6 eexists; split; [reflexivity|].
  repeat split; auto. repeat constructor; apply cell_stripped.
Qed.

Lemma validate_rows_result rows : forall i w r w',
  validate_rows rows i w = (r, w') ->
  exists leads, r = Ok leads /\ Forall valid_lead leads /\ length leads <= length rows.
Proof.
  induction rows as [|row rows IH]; intros i w r w' H; cbn [validate_rows] in H.
  - inversion H; subst. exists []; simpl; auto.
  - unfold bind at 1 in H.
    destruct (validate_lead row w) as [o w1] eqn:Hv.
    apply validate_lead_result in Hv as (o' & -> & Ho).
    assert (Hlog : exists w2, (match o' with
                               | Some _ => ret tt
                               | None => log Warning ("Skipped invalid row " +++ string_of_nat i
                                                      +++ ": " +++ py_str_list row)
                               end) w1 = (Ok tt, w2))
      by (destruct o'; eexists; reflexivity).
    destruct Hlog as [w2 Hlog].
    rewrite (bind_ok _ _ _ _ _ Hlog) in H.
    unfold bind at 1 in H.
    destruct (validate_rows rows (S i) w2) as [r2 w3] eqn:Hr.
    apply IH in Hr as (leads & -> & Hall & Hlen).
    inversion H; subst. destruct o' as [l|].
    + exists (l :: leads). simpl; repeat split; auto; lia.
    + exists leads. simpl; repeat split; auto; lia.
Qed.

Lemma log_only_ret {A} (a : A) : log_only (ret a).
Proof. intros w r w' H; inversion H; auto. Qed.
Lemma log_only_raise {A} e : log_only (@raise A e).
Proof. intros w r w' H; inversion H; auto. Qed.
Lemma log_only_log lv msg : log_only (log lv msg).
Proof. intros w r w' H; inversion H; auto. Qed.
Lemma log_only_bind {A B} (m : M A) (k : A -> M B) :
  log_only m -> (forall a, log_only (k a)) -> log_only (bind m k).
Proof.
  intros Hm Hk w r w' H; unfold bind in H.
  destruct (m w) as [[a|e] w1] eqn:E1; apply Hm in E1 as (E2 & E3 & E4 & E5).
  - apply Hk in H as (H1 & H2 & H3 & H4); repeat split; congruence.
  - inversion H; subst; auto.
Qed.
Lemma log_only_try_except {A} (m : M A) h :
  log_only m -> (forall e, log_only (h e)) -> log_only (try_except m h).
Proof.
  intros Hm Hh w r w' H; unfold try_except in H.
  destruct (m w) as [[a|e] w1] eqn:E1; apply Hm in E1 as (E2 & E3 & E4 & E5).
  - inversion H; subst; auto.
  - apply Hh in H as (H1 & H2 & H3 & H4); repeat split; congruence.
Qed.

Create HintDb logonly.
#[export] Hint Resolve log_only_ret log_only_raise log_only_log : logonly.

Ltac log_only_tac :=
  repeat (first [solve [auto with logonly] | match goal with
          | |- log_only (bind _ _) => apply log_only_bind; [|intro]
          | |- log_only (try_except _ _) => apply log_only_try_except; [|intro]
          | |- log_only (if ?b then _ else _) => destruct b
          | |- log_only (match ?x with _ => _ end) => destruct x
          | |- log_only (let _ := _ in _) => cbv zeta
          end]).

Lemma log_only_validate_lead row : log_only (validate_lead row).
Proof. unfold validate_lead; log_only_tac. Qed.
#[export] Hint Resolve log_only_validate_lead : logonly.

Lemma log_only_validate_rows rows : forall i, log_only (validate_rows rows i).
Proof. induction rows; intros i; simpl; log_only_tac. Qed.
#[export] Hint Resolve log_only_validate_rows : logonly.

Lemma log_only_fetch_leads sh : log_only (fetch_leads sh).
Proof. unfold fetch_leads; log_only_tac. Qed.

Lemma fetch_leads_result sh w r w' :
  fetch_leads sh w = (r, w') ->
  exists leads, r = Ok leads /\ Forall valid_lead leads
  /\ (leads <> [] -> sheets_service sh = true
                   /\ exists rows, values_get sh = Ok (Some rows) /\ length leads <= length rows)
  /\ lead_status w' = lead_status w /\ events w' = events w.
Proof.
  intros H0. pose proof (log_only_fetch_leads sh _ _ _ H0) as (Hl & _ & _ & He).
  revert H0. unfold fetch_leads. destruct (sheets_service sh).
  2: { intros H; inversion H; subst; exists []; simpl; repeat split; auto; congruence. }
  cbn [negb]. unfold try_except. rewrite (bind_ok _ _ _ _ _ (log_spec _ _ _)).
  destruct (values_get sh) as [vals|e].
  2: { destruct e; intros H; inversion H; subst; exists []; simpl; repeat split; auto;
       congruence. }
  destruct vals as [rows|].
  2: { intros H; inversion H; subst; exists []; simpl; repeat split; auto; congruence. }
  destruct rows as [|row rows].
  { intros H; inversion H; subst; exists []; simpl; repeat split; auto; congruence. }
  unfold bind at 1.
  destruct (validate_rows (row :: rows) 2 _) as [r1 w1] eqn:Hv.
  pose proof Hv as Hv'. apply validate_rows_result in Hv' as (leads & -> & Hall & Hlen).
  intros H; inversion H; subst.
  exists leads; repeat split; auto. eauto.
Qed.

(** X2: [fetch_leads] never raises: it returns a list of leads that all passed [_validate_lead], a nonempty list only when the Sheets service exists and the response has a [values] entry with at least as many rows, and it leaves the lead store and the outside world untouched. *)
Theorem fetch_leads_validated sh w r w' :
  fetch_leads sh w = (r, w') ->
  exists leads, r = Ok leads /\ Forall valid_lead leads
  /\ (leads <> [] -> sheets_service sh = true
                   /\ exists rows, values_get sh = Ok (Some rows) /\ length leads <= length rows)
  /\ lead_status w' = lead_status w /\ events w' = events w.
Proof. exact (fetch_leads_result sh w r w'). Qed.

(** X3: every lead [fetch_leads] returns has a company and a first name, so [draft_initial_email] gives it the template subject and body, and that draft passes the checks of [_process_new_leads]. *)
Theorem fetched_lead_gets_template_draft E sh w leads w' l w2 :
  fetch_leads sh w = (Ok leads, w') -> In l leads ->
  exists co fn,
    fst (draft_initial_email E l w2)
      = Ok [("subject", strip ("A Partnership in Storytelling for " +++ co));
            ("body", strip (initial_body_template E fn))]
    /\ draft_ok [("subject", strip ("A Partnership in Storytelling for " +++ co));
                 ("body", strip (initial_body_template E fn))]
       = Some (strip ("A Partnership in Storytelling for " +++ co),
               strip (initial_body_template E fn)).
Proof.
  intros H Hin. apply fetch_leads_result in H as (leads' & Hr & Hall & _).
  inversion Hr; subst leads'.
  rewrite Forall_forall in Hall. destruct (Hall l Hin) as (fn & ln & em & co & ti & ind & -> & _).
  exists co, fn. split.
  - rewrite (draft_initial_email_spec E [("firstName", fn); ("lastName", ln); ("email", em); ("company", co);
         ("title", ti); ("industry", ind)] em co fn w2 eq_refl eq_refl eq_refl). reflexivity.
  - apply draft_ok_spec; [apply subject_nonempty | apply body_nonempty].
Qed.


Lemma safe_bind {A B} (m : M A) (k : A -> M B) :
  safe m -> (forall a, safe (k a)) -> safe (bind m k).
Proof.
  intros Hm Hk w Hw. destruct (Hm w Hw) as (a & w1 & H1 & Ho1 & Hi1).
  destruct (Hk a w1 Ho1) as (b & w2 & H2 & Ho2 & Hi2).
  exists b, w2. rewrite (bind_ok _ _ _ _ _ H1). split; [exact H2|]. split; auto.
  eapply incl_tran; eauto.
Qed.

Lemma safe_total_frame {A} (m : M A) :
  (forall w, exists a w', m w = (Ok a, w')) -> store_frame m -> safe m.
Proof.
  intros Ht Hf w Hw. destruct (Ht w) as (a & w' & H). exists a, w'.
  destruct (Hf _ _ _ H) as [Hl _]. rewrite Hl. split; [exact H|]. split; auto.
  apply incl_refl.
Qed.

Lemma safe_ret {A} (a : A) : safe (ret a).
Proof. apply safe_total_frame; [intros; eexists _, _; reflexivity | apply frame_ret]. Qed.
Lemma safe_log lv msg : safe (log lv msg).
Proof. apply safe_total_frame; [intros; eexists _, _; reflexivity | apply frame_log]. Qed.
Lemma safe_now_iso E : safe (now_iso E).
Proof. apply safe_total_frame; [intros; eexists _, _; reflexivity | apply frame_now_iso]. Qed.
Lemma safe_check_for_reply E email ts : safe (check_for_reply E email ts).
Proof. apply safe_total_frame; [intros; apply check_for_reply_total | apply frame_check_for_reply]. Qed.
Lemma safe_should_send_follow_up E ts : safe (should_send_follow_up E ts).
Proof.
  apply safe_total_frame; [intros; apply should_send_follow_up_total | apply frame_should_send_follow_up].
Qed.
Lemma safe_draft_initial_email E lead : safe (draft_initial_email E lead).
Proof.
  apply safe_total_frame; [intros; apply draft_initial_email_total | apply frame_draft_initial_email].
Qed.
Lemma safe_draft_follow_up_email E lead : safe (draft_follow_up_email E lead).
Proof.
  apply safe_total_frame;
    [intros; apply draft_follow_up_email_total | apply frame_draft_follow_up_email].
Qed.
Lemma safe_send_email E r s b : safe (send_email E r s b).
Proof. apply safe_total_frame; [intros; apply send_email_total | apply frame_send_email]. Qed.
Lemma safe_save_state : safe save_state.
Proof.
  intros w Hw. rewrite save_state_spec. eexists _, _; split; [reflexivity|].
  rewrite saved_lead_status. split; [exact Hw | apply incl_refl].
Qed.

Lemma object_store_dict_set kv email r :
  Forall (fun p => exists r, snd p = JDict r) kv ->
  Forall (fun p => exists r, snd p = JDict r) (dict_set email (JDict r) kv).
Proof.
  induction kv as [|[k v] kv IH]; intros Hall; simpl;
    [constructor; [simpl; eauto | constructor]|].
  inversion Hall as [|? ? Hv Hrest]; subst.
  destruct (String.eqb email k); constructor; simpl; eauto.
Qed.

Lemma keys_dict_set_incl {A} email (v : A) kv :
  incl (map fst kv) (map fst (dict_set email v kv)).
Proof.
  induction kv as [|[k v0] kv IH]; simpl; [intros ? []|].
  destruct (String.eqb email k); simpl; [apply incl_refl|].
  apply incl_cons; [left; reflexivity|]. apply incl_tl, IH.
Qed.

Lemma assoc_object kv k v :
  Forall (fun p => exists r, snd p = JDict r) kv -> assoc k kv = Some v -> exists r, v = JDict r.
Proof.
  induction kv as [|[k' v'] kv IH]; intros Hall; simpl; [discriminate|].
  inversion Hall as [|? ? Hv Hrest]; subst.
  destruct (String.eqb k k'); auto. intros H; inversion H; subst. exact Hv.
Qed.

Lemma safe_update_lead_status E email st ts : safe (update_lead_status E email st ts).
Proof.
  intros w (kv & Hls & Hall).
  assert (Hrec : exists r, assoc email kv = Some (JDict r) \/ (assoc email kv = None /\ r = [])).
  { destruct (assoc email kv) as [v|] eqn:Hk; [|eauto].
    destruct (assoc_object _ _ _ Hall Hk) as [r ->]; eauto. }
  destruct Hrec as [r Hr].
  rewrite (update_lead_status_spec _ _ _ _ _ _ _ Hls Hr). eexists _, _; split; [reflexivity|].
  autorewrite with worldp. split.
  - eexists; split; [reflexivity|]. apply object_store_dict_set, Hall.
  - rewrite Hls; cbn [store_keys]. apply keys_dict_set_incl.
Qed.

Create HintDb safe.
#[export] Hint Resolve safe_ret safe_log safe_now_iso safe_check_for_reply
  safe_should_send_follow_up safe_draft_initial_email safe_draft_follow_up_email
  safe_send_email safe_save_state safe_update_lead_status : safe.

Lemma safe_getitem lead k v : assoc k lead = Some v -> safe (getitem lead k).
Proof. intros H. apply safe_total_frame; [intros w; exists v, w; apply getitem_spec, H | unfold getitem; rewrite H; apply frame_ret]. Qed.

Lemma safe_py_get_dict kv k d : safe (py_get (JDict kv) k d).
Proof. apply safe_total_frame; [intros; eexists _, _; reflexivity | apply frame_ret]. Qed.

#[export] Hint Resolve safe_py_get_dict : safe.

Ltac safe_tac :=
  repeat (first [solve [auto with safe] | match goal with
          | |- safe (bind _ _) => apply safe_bind; [|intro]
          | |- safe (if ?b then _ else _) => destruct b
          | |- safe (match ?x with _ => _ end) => destruct x
          | |- safe (let '(_, _) := ?x in _) => destruct x
          end]).

Lemma safe_find_lead leads email : Forall has_email leads -> safe (find_lead leads email).
Proof.
  induction 1 as [|l leads [e He] _ IH]; simpl; [auto with safe|].
  apply safe_bind; [apply (safe_getitem _ _ _ He)|]. intros e'.
  destruct (String.eqb e' email); auto with safe.
Qed.

(** Runs [safe m] at a world whose store is a known object store. *)
Lemma safe_at {A} (m : M A) w :
  safe m -> object_store (lead_status w) ->
  exists a w', m w = (Ok a, w') /\ object_store (lead_status w')
               /\ incl (store_keys (lead_status w)) (store_keys (lead_status w')).
Proof. intros Hs Hw; exact (Hs w Hw). Qed.

Lemma safe_process_new_lead E lead n : has_email lead -> safe (process_new_lead E lead n).
Proof.
  intros [e He] w Hw. pose proof Hw as (kv & Hls & Hall).
  unfold process_new_lead.
  rewrite (bind_ok _ _ _ _ _ (getitem_spec _ _ _ w He)); cbv beta.
  rewrite (bind_ok _ _ _ _ _ (get_lead_status_spec w)), Hls; cbv beta.
  rewrite (bind_ok _ _ _ _ _ (py_get_dict_spec _ _ _ _)); cbv beta.
  assert (Hr : exists r, match assoc e kv with Some v => v | None => JDict [] end = JDict r).
  { destruct (assoc e kv) as [v|] eqn:Hk; [exact (assoc_object _ _ _ Hall Hk) | eauto]. }
  destruct Hr as [r ->].
  rewrite (bind_ok _ _ _ _ _ (py_get_dict_spec _ _ _ _)); cbv beta.
  match goal with |- exists a w', ?t w = _ /\ _ =>
    assert (Hs : safe t);
    [|destruct (Hs w Hw) as (a & w' & H1 & H2 & H3); rewrite Hls in H3; eauto] end.
  safe_tac.
Qed.

Lemma safe_new_leads_loop E leads : Forall has_email leads -> forall n, safe (new_leads_loop E leads n).
Proof.
  induction 1 as [|l leads Hl _ IH]; intros n; simpl; [auto with safe|].
  apply safe_bind; [apply safe_process_new_lead, Hl | intros; apply IH].
Qed.

Lemma safe_process_follow_up E leads email d c :
  Forall has_email leads -> safe (process_follow_up E leads (email, JDict d) c).
Proof.
  intros Hl. unfold process_follow_up. destruct c as [f rc]. cbv beta iota.
  pose proof (safe_find_lead leads email Hl). safe_tac.
Qed.

Lemma safe_follow_ups_loop E leads items :
  Forall has_email leads -> Forall (fun it => exists d, snd it = JDict d) items ->
  forall c, safe (follow_ups_loop E leads items c).
Proof.
  intros Hl. induction 1 as [|[email v] items [d Hd] _ IH]; intros c; simpl; [auto with safe|].
  simpl in Hd; subst v.
  apply safe_bind; [apply safe_process_follow_up, Hl | intros; apply IH].
Qed.

Lemma safe_process_follow_ups E leads : Forall has_email leads -> safe (process_follow_ups E leads).
Proof.
  intros Hl w Hw. pose proof Hw as (kv & Hls & Hall).
  unfold process_follow_ups.
  rewrite (bind_ok _ _ _ _ _ (get_lead_status_spec w)), Hls; cbv beta.
  rewrite (bind_ok _ _ _ _ _ (ret_spec kv w : py_items (JDict kv) w = _)); cbv beta.
  assert (Hs : safe (counts <- follow_ups_loop E leads kv (0, 0);;
                     log Info ("Processed follow-ups: " +++ string_of_nat (fst counts)
                               +++ " sent, " +++ string_of_nat (snd counts)
                               +++ " replies detected"))).
  { apply safe_bind; [apply safe_follow_ups_loop; auto | intros; auto with safe]. }
  destruct (Hs w Hw) as (a & w' & H1 & H2 & H3). rewrite Hls in H3. eauto.
Qed.

Lemma safe_bq_insert_leads E leads : Forall has_email leads -> safe (bq_insert_leads E leads).
Proof.
  induction 1 as [|l leads [e He] _ IH]; simpl; [auto with safe|].
  intros w Hw. pose proof Hw as (kv & Hls & Hall).
  rewrite (bind_ok _ _ _ _ _ (getitem_spec _ _ _ w He)); cbv beta.
  rewrite (bind_ok _ _ _ _ _ (get_lead_status_spec w)), Hls; cbv beta.
  rewrite (bind_ok _ _ _ _ _ (py_get_dict_spec _ _ _ _)); cbv beta.
  assert (Hr : exists r, match assoc e kv with Some v => v | None => JDict [] end = JDict r).
  { destruct (assoc e kv) as [v|] eqn:Hk; [exact (assoc_object _ _ _ Hall Hk) | eauto]. }
  destruct Hr as [r ->].
  rewrite (bind_ok _ _ _ _ _ (py_get_dict_spec _ _ _ _)); cbv beta.
  match goal with |- context [bind (bq_insert_lead E ?l') _ w] =>
    destruct (quiet_bq_insert_lead E l' w) as (u & w1 & Hq & Hq1 & _) end.
  rewrite (bind_ok _ _ _ _ _ Hq).
  assert (Hw1 : object_store (lead_status w1)) by (rewrite Hq1; exact Hw).
  destruct (IH w1 Hw1) as (a & w' & H1 & H2 & H3). rewrite Hq1, Hls in H3. eauto.
Qed.

Lemma safe_process_new_leads E leads : Forall has_email leads -> safe (process_new_leads E leads).
Proof.
  intros Hl. unfold process_new_leads.
  apply safe_bind; [apply safe_new_leads_loop, Hl | intros; auto with safe].
Qed.

(** ** Writes to the state file *)

Lemma file_ret {A} (a : A) : file_frame (ret a).
Proof. intros w r w' H; inversion H; auto. Qed.
Lemma file_raise {A} e : file_frame (@raise A e).
Proof. intros w r w' H; inversion H; auto. Qed.
Lemma file_log lv msg : file_frame (log lv msg).
Proof. intros w r w' H; inversion H; auto. Qed.
Lemma file_emit ev : file_frame (emit ev).
Proof. intros w r w' H; inversion H; auto. Qed.
Lemma file_utc_now : file_frame utc_now.
Proof. intros w r w' H; inversion H; auto. Qed.
Lemma file_get_lead_status : file_frame get_lead_status.
Proof. intros w r w' H; inversion H; auto. Qed.
Lemma file_put_lead_status v : file_frame (put_lead_status v).
Proof. intros w r w' H; inversion H; auto. Qed.
Lemma file_read_state_file : file_frame read_state_file.
Proof. intros w r w' H; inversion H; auto. Qed.
Lemma file_call_bq c : file_frame (call_bq c).
Proof. intros w r w' H; inversion H; auto. Qed.
Lemma file_write_state_file txt : file_frame (write_state_file txt).
Proof.
  intros w r w' H; unfold write_state_file in H; cbv beta in H.
  destruct (state_writable w) eqn:Hw; inversion H; subst; cbn; rewrite ?Hw;
    (split; [reflexivity | intros; try discriminate; reflexivity]).
Qed.

Lemma file_of_quiet {A} (m : M A) : quiet m -> file_frame m.
Proof.
  intros Hq w r w' H. destruct (Hq w) as (a & w1 & H1 & _ & B1 & _ & _ & E1).
  rewrite H1 in H; inversion H; subst; auto.
Qed.

Lemma file_bind {A B} (m : M A) (k : A -> M B) :
  file_frame m -> (forall a, file_frame (k a)) -> file_frame (bind m k).
Proof.
  intros Hm Hk w r w' H; unfold bind in H.
  destruct (m w) as [[a|e] w1] eqn:E1; apply Hm in E1 as [E2 E3].
  - apply Hk in H as [H1 H2]. split; [congruence|]. intros Hw.
    rewrite H2, E3 by congruence; auto.
  - inversion H; subst; auto.
Qed.

Lemma file_try_except {A} (m : M A) h :
  file_frame m -> (forall e, file_frame (h e)) -> file_frame (try_except m h).
Proof.
  intros Hm Hh w r w' H; unfold try_except in H.
  destruct (m w) as [[a|e] w1] eqn:E1; apply Hm in E1 as [E2 E3].
  - inversion H; subst; auto.
  - apply Hh in H as [H1 H2]. split; [congruence|]. intros Hw.
    rewrite H2, E3 by congruence; auto.
Qed.

Lemma file_try_finally {A} (m : M A) fin :
  file_frame m -> file_frame fin -> file_frame (try_finally m fin).
Proof.
  intros Hm Hf w r w' H; unfold try_finally in H.
  destruct (m w) as [r1 w1] eqn:E1. apply Hm in E1 as [E2 E3].
  destruct (fin w1) as [[u|e] w2] eqn:E4; apply Hf in E4 as [E5 E6];
    inversion H; subst; (split; [congruence|]); intros Hw; rewrite E6, E3 by congruence; auto.
Qed.

Create HintDb filef.
#[export] Hint Resolve file_ret file_raise file_log file_emit file_utc_now file_get_lead_status
  file_put_lead_status file_read_state_file file_call_bq file_write_state_file : filef.

Ltac file_tac :=
  repeat (first [solve [auto with filef] | match goal with
          | |- file_frame (bind _ _) => apply file_bind; [|intro]
          | |- file_frame (try_except _ _) => apply file_try_except; [|intro]
          | |- file_frame (try_finally _ _) => apply file_try_finally
          | |- file_frame (getitem _ _) => unfold getitem
          | |- file_frame (py_get _ _ _) => unfold py_get
          | |- file_frame (py_items _) => unfold py_items
          | |- file_frame (parse_iso _ _) => unfold parse_iso
          | |- file_frame (if ?b then _ else _) => destruct b
          | |- file_frame (match ?x with _ => _ end) => destruct x
          | |- file_frame (let '(_, _) := ?x in _) => destruct x
          end]).

Lemma file_check_for_reply E email ts : file_frame (check_for_reply E email ts).
Proof. unfold check_for_reply; file_tac. Qed.
Lemma file_should_send_follow_up E ts : file_frame (should_send_follow_up E ts).
Proof. unfold should_send_follow_up; file_tac. Qed.
Lemma file_draft_initial_email E lead : file_frame (draft_initial_email E lead).
Proof. unfold draft_initial_email; file_tac. Qed.
Lemma file_draft_follow_up_email E lead : file_frame (draft_follow_up_email E lead).
Proof. unfold draft_follow_up_email; file_tac. Qed.
Lemma file_send_email E r s b : file_frame (send_email E r s b).
Proof. unfold send_email; file_tac. Qed.
Lemma file_now_iso E : file_frame (now_iso E).
Proof. unfold now_iso; file_tac. Qed.
Lemma file_find_lead leads email : file_frame (find_lead leads email).
Proof. induction leads; simpl; file_tac. Qed.
Lemma file_save_state : file_frame save_state.
Proof. unfold save_state; file_tac. Qed.
Lemma file_set_record_field email f v : file_frame (set_record_field email f v).
Proof. unfold set_record_field; file_tac. Qed.
Lemma file_mirror_update E e st : file_frame (mirror_update E e st).
Proof. apply file_of_quiet, quiet_mirror_update. Qed.
Lemma file_bq_insert_lead E l : file_frame (bq_insert_lead E l).
Proof. apply file_of_quiet, quiet_bq_insert_lead. Qed.

#[export] Hint Resolve file_check_for_reply file_should_send_follow_up file_draft_initial_email
  file_draft_follow_up_email file_send_email file_now_iso file_find_lead file_save_state
  file_set_record_field file_mirror_update file_bq_insert_lead : filef.

Lemma file_update_lead_status E email st ts : file_frame (update_lead_status E email st ts).
Proof. unfold update_lead_status; file_tac. Qed.
#[export] Hint Resolve file_update_lead_status : filef.

Lemma file_new_leads_loop E leads : forall n, file_frame (new_leads_loop E leads n).
Proof. induction leads; intros n; simpl; [file_tac|]. apply file_bind; [|auto]. unfold process_new_lead; file_tac. Qed.
Lemma file_process_new_leads E leads : file_frame (process_new_leads E leads).
Proof. unfold process_new_leads. pose proof (file_new_leads_loop E leads 0). file_tac. Qed.
Lemma file_follow_ups_loop E leads items : forall c, file_frame (follow_ups_loop E leads items c).
Proof. induction items; intros c; simpl; [file_tac|]. apply file_bind; [|auto]. unfold process_follow_up; file_tac. Qed.
Lemma file_process_follow_ups E leads : file_frame (process_follow_ups E leads).
Proof. unfold process_follow_ups. file_tac. apply file_follow_ups_loop. Qed.
Lemma file_bq_insert_leads E leads : file_frame (bq_insert_leads E leads).
Proof. induction leads; simpl; file_tac. Qed.
Lemma file_load_state : file_frame load_state.
Proof. unfold load_state; file_tac. Qed.
Lemma file_init : file_frame init.
Proof. unfold init; pose proof file_load_state; file_tac. Qed.

#[export] Hint Resolve file_process_new_leads file_process_follow_ups file_bq_insert_leads
  file_init : filef.

Lemma file_validate_rows rows : forall i, file_frame (validate_rows rows i).
Proof. induction rows; intros i; simpl; [file_tac|]. unfold validate_lead; file_tac. Qed.
Lemma file_fetch_leads sh : file_frame (fetch_leads sh).
Proof. unfold fetch_leads. pose proof (file_validate_rows). file_tac. Qed.
#[export] Hint Resolve file_fetch_leads : filef.

Lemma file_run_workflow E leads : file_frame (run_workflow E leads).
Proof. unfold run_workflow; file_tac. Qed.

(** The state file after a final [_save_state]: the store written out when
    the file can be written, else the file as it was. *)
Lemma file_then_saved w w1 :
  state_writable w1 = state_writable w -> (state_writable w = false -> state_file w1 = state_file w) ->
  state_file (saved w1) = if state_writable w then Some (dumps (lead_status w1)) else state_file w.
Proof.
  intros H1 H2. rewrite saved_state_file, H1. destruct (state_writable w) eqn:Hw; auto.
Qed.

(** X4: over a store of record objects and leads that all carry an email, [run_workflow] completes normally and keeps a store of record objects with every key it had; its final [_save_state] writes that store to the state file when the file can be written, and otherwise leaves the file as it was. *)
Theorem object_store_run_completes E leads w r w' :
  object_store (lead_status w) -> Forall has_email leads ->
  run_workflow E leads w = (r, w') ->
  r = Ok tt /\ object_store (lead_status w')
  /\ incl (store_keys (lead_status w)) (store_keys (lead_status w'))
  /\ state_file w' = if state_writable w then Some (dumps (lead_status w')) else state_file w.
Proof.
  intros Hw Hl H. unfold run_workflow in H.
  rewrite !(bind_ok _ _ _ _ _ (log_spec _ _ _)) in H; cbv beta in H.
  set (w3 := mkWorld _ _ _ _ _ _ _) in H.
  assert (Hw3 : object_store (lead_status w3)) by exact Hw.
  assert (Hbody : safe (match leads with
         | [] => log Warning "No leads fetched. Exiting workflow"
         | _ :: _ =>
             (if bq_enabled E then bq_insert_leads E leads else ret tt);;
             log Info "Processing initial outreach for new leads...";;
             process_new_leads E leads;;
             log Info "Processing follow-ups and checking for replies...";;
             process_follow_ups E leads;;
             (if bq_enabled E then log Info "CAMPAIGN ANALYTICS" else ret tt);;
             log Info "Workflow completed successfully"
         end)).
  { destruct leads; [auto with safe|].
    pose proof (safe_bq_insert_leads E _ Hl). pose proof (safe_process_new_leads E _ Hl).
    pose proof (safe_process_follow_ups E _ Hl). safe_tac. }
  assert (Hfile : file_frame (match leads with
         | [] => log Warning "No leads fetched. Exiting workflow"
         | _ :: _ =>
             (if bq_enabled E then bq_insert_leads E leads else ret tt);;
             log Info "Processing initial outreach for new leads...";;
             process_new_leads E leads;;
             log Info "Processing follow-ups and checking for replies...";;
             process_follow_ups E leads;;
             (if bq_enabled E then log Info "CAMPAIGN ANALYTICS" else ret tt);;
             log Info "Workflow completed successfully"
         end)) by file_tac.
  destruct (Hbody w3 Hw3) as (a & w4 & H4 & Ho4 & Hi4).
  destruct (Hfile _ _ _ H4) as [Hf1 Hf2].
  unfold try_finally, try_except in H. rewrite H4 in H.
  rewrite save_state_spec in H. inversion H; subst.
  rewrite saved_lead_status. destruct a. repeat split; auto.
  apply file_then_saved; auto.
Qed.

Lemma sends_to_app e a b : sends_to e (a ++ b) = sends_to e a + sends_to e b.
Proof. unfold sends_to; rewrite filter_app, length_app; reflexivity. Qed.

Lemma log_only_then {A B} (m : M A) (k : A -> M B) w r w' :
  log_only m -> bind m k w = (r, w') ->
  (exists a w1, m w = (Ok a, w1) /\ lead_status w1 = lead_status w
                /\ events w1 = events w /\ k a w1 = (r, w'))
  \/ (lead_status w' = lead_status w /\ events w' = events w).
Proof.
  intros Hf H; unfold bind in H.
  destruct (m w) as [[a|e] w1] eqn:E1; pose proof (Hf _ _ _ E1) as (E2 & _ & _ & E3).
  - left; exists a, w1; auto.
  - right; inversion H; subst; auto.
Qed.

Lemma log_only_get_lead_status : log_only get_lead_status.
Proof. intros w r w' H; inversion H; auto. Qed.
Lemma log_only_getitem lead k : log_only (getitem lead k).
Proof. unfold getitem; log_only_tac. Qed.
Lemma log_only_py_get d k x : log_only (py_get d k x).
Proof. unfold py_get; log_only_tac. Qed.
Lemma log_only_now_iso E : log_only (now_iso E).
Proof. intros w r w' H; inversion H; auto. Qed.
Lemma log_only_draft_initial_email E lead : log_only (draft_initial_email E lead).
Proof. unfold draft_initial_email; pose proof log_only_getitem; log_only_tac. Qed.
#[export] Hint Resolve log_only_get_lead_status log_only_getitem log_only_py_get
  log_only_now_iso log_only_draft_initial_email : logonly.

Lemma send_email_sends E x s b w r w' :
  send_email E x s b w = (r, w') ->
  lead_status w' = lead_status w /\
  forall e, sends_to e (events w') = sends_to e (events w)
            + (if String.eqb x e && match r with Ok true => true | _ => false end then 1 else 0).
Proof.
  unfold send_email. intros H.
  destruct (gmail_service E); cbn [negb] in H.
  2: { cbn in H; inversion H; subst; split; auto; intros e; destruct (String.eqb x e); cbn -[sends_to]; lia. }
  destruct (String.eqb x "" || String.eqb s "" || String.eqb b "").
  { cbn in H; inversion H; subst; split; auto; intros e; destruct (String.eqb x e); cbn -[sends_to]; lia. }
  unfold try_except, bind, emit in H; cbn in H.
  destruct (gmail_send E x (sender_email E) s b); inversion H; subst; cbn -[sends_to];
    split; auto; intros e; rewrite sends_to_app; unfold sends_to at 2; cbn;
    destruct (String.eqb x e); cbn; lia.
Qed.

Lemma pending_b_after_initial kv x ts rec e :
  pending_b (JDict (dict_set x (JDict (record_after_update "INITIAL_EMAIL_SENT" ts rec)) kv)) e
  = if String.eqb x e then false else pending_b (JDict kv) e.
Proof.
  cbn [pending_b]. destruct (String.eqb x e) eqn:Hx.
  - apply String.eqb_eq in Hx; subst. rewrite assoc_dict_set_eq.
    unfold record_after_update; cbn [String.eqb Ascii.eqb Bool.eqb andb].
    rewrite assoc_dict_set_neq by discriminate. rewrite assoc_dict_set_eq. reflexivity.
  - rewrite assoc_dict_set_neq; [reflexivity|].
    intros ->; rewrite String.eqb_refl in Hx; discriminate.
Qed.

Lemma new_lead_sends_bound E lead n w r w' e :
  process_new_lead E lead n w = (r, w') ->
  sends_to e (events w') + Nat.b2n (pending_b (lead_status w') e)
  <= sends_to e (events w) + Nat.b2n (pending_b (lead_status w) e).
Proof.
  intros H. unfold process_new_lead in H.
  apply log_only_then in H as [(x & w1 & _ & Hl1 & He1 & H)|[Hl He]]; auto with logonly;
    [|rewrite Hl, He; lia].
  apply log_only_then in H as [(ls & w2 & Hls2 & Hl2 & He2 & H)|[Hl He]]; auto with logonly;
    [|rewrite Hl, He, Hl1, He1; lia].
  inversion Hls2; subst ls.
  apply log_only_then in H as [(rv & w3 & Hrv & Hl3 & He3 & H)|[Hl He]]; auto with logonly;
    [|rewrite Hl, He, Hl2, He2, Hl1, He1; lia].
  apply log_only_then in H as [(st & w4 & Hst & Hl4 & He4 & H)|[Hl He]]; auto with logonly;
    [|rewrite Hl, He, Hl3, He3, Hl2, He2, Hl1, He1; lia].
  assert (Hw4 : lead_status w4 = lead_status w /\ events w4 = events w) by (split; congruence).
  destruct (is_str st "PENDING") eqn:Hp.
  2: { apply log_only_then in H as [(? & ? & ? & Hl & He & H)|[Hl He]]; auto with logonly;
       [inversion H; subst|]; rewrite Hl, He, (proj1 Hw4), (proj2 Hw4); lia. }
  apply log_only_then in H as [(? & w5 & _ & Hl5 & He5 & H)|[Hl He]]; auto with logonly;
    [|rewrite Hl, He, (proj1 Hw4), (proj2 Hw4); lia].
  apply log_only_then in H as [(d & w6 & _ & Hl6 & He6 & H)|[Hl He]]; auto with logonly;
    [|rewrite Hl, He, Hl5, He5, (proj1 Hw4), (proj2 Hw4); lia].
  assert (Hw6 : lead_status w6 = lead_status w /\ events w6 = events w) by (destruct Hw4; split; congruence).
  destruct (draft_ok d) as [[subj body]|].
  2: { apply log_only_then in H as [(? & ? & ? & Hl & He & H)|[Hl He]]; auto with logonly;
       [inversion H; subst|]; rewrite Hl, He, (proj1 Hw6), (proj2 Hw6); lia. }
  rewrite bind_assoc in H. unfold bind at 1 in H.
  destruct (send_email E x subj body w6) as [res w7] eqn:Hs.
  apply send_email_sends in Hs as [Hl7 He7].
  destruct res as [[|]|err].
  2: { apply log_only_then in H as [(? & ? & ? & Hl & He & H)|[Hl He]]; auto with logonly;
       [inversion H; subst|]; rewrite Hl, He, He7, Hl7, (proj1 Hw6), (proj2 Hw6), andb_false_r;
       lia. }
  2: { inversion H; subst. rewrite He7, Hl7, (proj1 Hw6), (proj2 Hw6), andb_false_r; lia. }
  (* the send succeeded: the record of [x] leaves PENDING *)
  rewrite bind_assoc, (bind_ok _ _ _ _ _ (now_iso_spec _ _)) in H; cbv beta in H.
  set (ts := isoformat_utc E (clock w7)) in H.
  assert (Hls1 : lead_status w1 = lead_status w) by congruence.
  assert (Hls7 : lead_status w7 = lead_status w) by (destruct Hw6; congruence).
  rewrite Hls1 in Hrv.
  destruct (lead_status w) as [| | | | |kv] eqn:Hls; try (cbn in Hrv; discriminate).
  cbn in Hrv; inversion Hrv; subst rv.
  destruct (match assoc x kv with Some v => v | None => JDict [] end) as [| | | | |rec] eqn:Hrec;
    try (cbn in Hst; discriminate).
  cbn in Hst; inversion Hst; subst st.
  assert (Hpre : assoc x kv = Some (JDict rec) \/ (assoc x kv = None /\ rec = [])).
  { destruct (assoc x kv); [left; congruence | right; split; congruence]. }
  assert (Hpend : pending_b (JDict kv) x = true).
  { cbn [pending_b]. destruct Hpre as [Hx | [Hx ->]]; rewrite Hx; [|reflexivity].
    destruct (assoc "status" rec); [exact Hp | reflexivity]. }
  unfold bind in H. rewrite (update_lead_status_spec _ _ _ _ _ _ _ Hls7 Hpre) in H.
  inversion H; subst. autorewrite with worldp. cbn [lead_status events].
  rewrite pending_b_after_initial, He7, (proj2 Hw6).
  destruct (String.eqb x e) eqn:Hx; cbn -[pending_b sends_to]; [|lia].
  apply String.eqb_eq in Hx; subst x. rewrite Hpend; cbn -[sends_to]; lia.
Qed.

Lemma new_leads_loop_sends_bound E leads : forall n w r w' e,
  new_leads_loop E leads n w = (r, w') ->
  sends_to e (events w') + Nat.b2n (pending_b (lead_status w') e)
  <= sends_to e (events w) + Nat.b2n (pending_b (lead_status w) e).
Proof.
  induction leads as [|lead rest IH]; intros n w r w' e H; cbn [new_leads_loop] in H.
  - inversion H; subst; lia.
  - unfold bind at 1 in H.
    destruct (process_new_lead E lead n w) as [[c|err] w1] eqn:Hp;
      pose proof (new_lead_sends_bound _ _ _ _ _ _ e Hp).
    + specialize (IH _ _ _ _ e H); lia.
    + inversion H; subst; lia.
Qed.

(** X5: [_process_new_leads] sends at most one email to an address, and only when that address is pending in the store (absent, recorded without a status, or recorded as PENDING), whatever duplicates the lead list holds. *)
Theorem initial_email_at_most_once E leads w r w' e :
  process_new_leads E leads w = (r, w') ->
  sends_to e (events w') <= sends_to e (events w) + Nat.b2n (pending_b (lead_status w) e).
Proof.
  intros H. unfold process_new_leads, bind at 1 in H.
  destruct (new_leads_loop E leads 0 w) as [[c|err] w1] eqn:Hl;
    pose proof (new_leads_loop_sends_bound _ _ _ _ _ _ e Hl).
  - cbn in H; inversion H; subst; cbn [events lead_status]; lia.
  - inversion H; subst; lia.
Qed.

Lemma keeps_of_frame {A} email R (m : M A) : store_frame m -> keeps_rec email R m.
Proof. intros Hf w r w' H. rewrite (frame_result _ _ _ _ Hf H). auto. Qed.

Lemma keeps_bind {A B} email R (m : M A) (k : A -> M B) :
  keeps_rec email R m -> (forall a, keeps_rec email R (k a)) -> keeps_rec email R (bind m k).
Proof.
  intros Hm Hk w r w' H Hw. unfold bind in H.
  destruct (m w) as [[a|e] w1] eqn:E1; pose proof (Hm _ _ _ E1 Hw) as E2.
  - exact (Hk a _ _ _ H E2).
  - inversion H; subst; auto.
Qed.

Lemma keeps_try_except {A} email R (m : M A) h :
  keeps_rec email R m -> (forall e, keeps_rec email R (h e)) -> keeps_rec email R (try_except m h).
Proof.
  intros Hm Hh w r w' H Hw. unfold try_except in H.
  destruct (m w) as [[a|e] w1] eqn:E1; pose proof (Hm _ _ _ E1 Hw) as E2.
  - inversion H; subst; auto.
  - exact (Hh e _ _ _ H E2).
Qed.

Lemma keeps_try_finally {A} email R (m : M A) fin :
  keeps_rec email R m -> keeps_rec email R fin -> keeps_rec email R (try_finally m fin).
Proof.
  intros Hm Hf w r w' H Hw. unfold try_finally in H.
  destruct (m w) as [r1 w1] eqn:E1. pose proof (Hm _ _ _ E1 Hw) as E3.
  destruct (fin w1) as [[u|e] w2] eqn:E2; pose proof (Hf _ _ _ E2 E3); inversion H; subst; auto.
Qed.

Lemma keeps_new_lead E email R s lead n :
  assoc "status" R = Some (JStr s) -> String.eqb s "PENDING" = false ->
  keeps_rec email R (process_new_lead E lead n).
Proof.
  intros Hs Hne w r w' H (kv & Hls & Hnd & HR).
  pose proof (new_lead_keeps _ _ _ _ _ _ _ _ _ _ H Hls HR Hs Hne) as (kv' & Hls' & HR').
  exists kv'; split; [exact Hls'|]; split; [|exact HR'].
  apply new_lead_footprint in H as [H | (e' & kv0 & rec & ts & _ & Hkv0 & _ & H)].
  - rewrite H, Hls in Hls'. inversion Hls'; subst; exact Hnd.
  - rewrite H in Hls'; inversion Hls'; subst kv'. rewrite Hls in Hkv0; inversion Hkv0; subst.
    apply dict_set_nodup, Hnd.
Qed.

Lemma keeps_new_leads_loop E email R s leads :
  assoc "status" R = Some (JStr s) -> String.eqb s "PENDING" = false ->
  forall n, keeps_rec email R (new_leads_loop E leads n).
Proof.
  intros Hs Hne. induction leads as [|lead rest IH]; intros n; cbn [new_leads_loop].
  - apply keeps_of_frame, frame_ret.
  - apply keeps_bind; [eapply keeps_new_lead; eauto | exact IH].
Qed.

Lemma keeps_follow_ups_loop E leads email R s items :
  assoc "status" R = Some (JStr s) -> String.eqb s "INITIAL_EMAIL_SENT" = false ->
  forall c w r w' kv,
  lead_status w = JDict kv -> NoDup (map fst kv) -> assoc email kv = Some (JDict R) ->
  NoDup (map fst items) -> Forall (fun p => assoc (fst p) kv = Some (snd p)) items ->
  follow_ups_loop E leads items c w = (r, w') -> holds_at email R (lead_status w').
Proof.
  intros Hs Hne. induction items as [|[e data] rest IH];
    intros c w r w' kv Hls Hnd HR Hndi Hall H.
  - cbn in H; inversion H; subst; rewrite Hls; exists kv; auto.
  - cbn [follow_ups_loop] in H. unfold bind in H.
    destruct (process_follow_up E leads (e, data) c w) as [res w1] eqn:Hp.
    inversion Hall as [|? ? Hed Hrest]; inversion Hndi as [|? ? Hnot Hndi']; subst.
    cbn [fst snd] in Hed.
    apply follow_up_footprint in Hp
      as [Hp | (d & kv0 & R0 & ts & st & -> & Hst & _ & Hkv0 & HR0 & Hp)].
    + destruct res as [c'|err].
      * refine (IH _ _ _ _ kv _ Hnd HR Hndi' Hrest H); congruence.
      * inversion H; subst; rewrite Hp, Hls; exists kv; auto.
    + rewrite Hls in Hkv0; inversion Hkv0; subst kv0.
      assert (Hneq : e <> email).
      { intros ->. rewrite HR in Hed; inversion Hed; subst d. rewrite Hs in Hst.
        inversion Hst; subst. discriminate. }
      assert (HR' : assoc email (dict_set e (JDict (record_after_update st ts R0)) kv)
                    = Some (JDict R)) by (rewrite assoc_dict_set_neq; auto).
      pose proof (dict_set_nodup e (JDict (record_after_update st ts R0)) kv Hnd) as Hnd'.
      destruct res as [c'|err].
      * eapply IH; [exact Hp | exact Hnd' | exact HR' | exact Hndi' | | exact H].
        apply Forall_forall; intros [e2 dd] Hin. cbn [fst snd].
        rewrite assoc_dict_set_neq.
        -- exact (proj1 (Forall_forall _ _) Hrest _ Hin).
        -- intros ->. apply Hnot. apply (in_map fst) in Hin. exact Hin.
      * inversion H; subst. rewrite Hp. eexists; eauto.
Qed.

Lemma keeps_process_follow_ups E leads email R s :
  assoc "status" R = Some (JStr s) -> String.eqb s "INITIAL_EMAIL_SENT" = false ->
  keeps_rec email R (process_follow_ups E leads).
Proof.
  intros Hs Hne w r w' H (kv & Hls & Hnd & HR). unfold process_follow_ups in H.
  rewrite (bind_ok _ _ _ _ _ (get_lead_status_spec w)), Hls in H; cbv beta in H.
  rewrite (bind_ok _ _ _ _ _ (eq_refl : py_items (JDict kv) w = (Ok kv, w))) in H; cbv beta in H.
  unfold bind at 1 in H.
  destruct (follow_ups_loop E leads kv (0, 0) w) as [res w1] eqn:Hl.
  assert (Hk : holds_at email R (lead_status w1)).
  { eapply keeps_follow_ups_loop; eauto.
    apply Forall_forall; intros [e d] Hin. apply nodup_assoc_in; [exact Hnd | exact Hin]. }
  destruct res as [c|e]; [rewrite log_spec in H|]; inversion H; subst; exact Hk.
Qed.

(** X6: a run of [run_workflow] leaves unchanged the record of a lead whose status is neither PENDING nor INITIAL_EMAIL_SENT. *)
Theorem settled_record_untouched E leads w r w' kv email R s :
  run_workflow E leads w = (r, w') ->
  lead_status w = JDict kv -> NoDup (map fst kv) -> assoc email kv = Some (JDict R) ->
  assoc "status" R = Some (JStr s) ->
  String.eqb s "PENDING" = false -> String.eqb s "INITIAL_EMAIL_SENT" = false ->
  exists kv', lead_status w' = JDict kv' /\ assoc email kv' = Some (JDict R).
Proof.
  intros H Hls Hnd HR Hs Hp Hi.
  assert (Hk : keeps_rec email R (run_workflow E leads)).
  { unfold run_workflow.
    repeat (first [ apply keeps_of_frame; solve [frame_tac]
                  | unfold process_new_leads; apply keeps_bind;
                    [eapply keeps_new_leads_loop; eauto | intro; apply keeps_of_frame; frame_tac]
                  | eapply keeps_process_follow_ups; eauto; fail
                  | match goal with
                    | |- keeps_rec _ _ (bind _ _) => apply keeps_bind; [|intro]
                    | |- keeps_rec _ _ (try_except _ _) => apply keeps_try_except; [|intro]
                    | |- keeps_rec _ _ (try_finally _ _) => apply keeps_try_finally
                    | |- keeps_rec _ _ (match ?x with _ => _ end) => destruct x
                    | |- keeps_rec _ _ (if ?b then _ else _) => destruct b
                    end]). }
  destruct (Hk _ _ _ H (ex_intro _ kv (conj Hls (conj Hnd HR)))) as (kv' & Hls' & _ & HR').
  eauto.
Qed.

Lemma record_after_update_status st ts R :
  assoc "status" (record_after_update st ts R) = Some (JStr st).
Proof.
  unfold record_after_update.
  destruct (String.eqb st "INITIAL_EMAIL_SENT");
    [|destruct (String.eqb st "FOLLOW_UP_SENT"); [|destruct (String.eqb st "REPLIED")]];
    rewrite ?assoc_dict_set_neq by discriminate; apply assoc_dict_set_eq.
Qed.

Lemma record_after_update_ts st ts R f :
  ts_field st = Some f -> assoc f (record_after_update st ts R) = Some (JStr ts).
Proof.
  unfold ts_field, record_after_update.
  destruct (String.eqb st "INITIAL_EMAIL_SENT");
    [|destruct (String.eqb st "FOLLOW_UP_SENT"); [|destruct (String.eqb st "REPLIED")]];
    intros H; inversion H; subst; apply assoc_dict_set_eq.
Qed.

Lemma record_after_update_other st ts R f :
  f <> "status" -> ts_field st <> Some f ->
  assoc f (record_after_update st ts R) = assoc f R.
Proof.
  unfold ts_field, record_after_update. intros Hs Ht.
  destruct (String.eqb st "INITIAL_EMAIL_SENT");
    [|destruct (String.eqb st "FOLLOW_UP_SENT"); [|destruct (String.eqb st "REPLIED")]];
    rewrite ?assoc_dict_set_neq by congruence; reflexivity.
Qed.

(** X7: [_update_lead_status] over a JSON object store either raises a TypeError without effect, when the lead's entry is not an object, or sets the lead's status and the timestamp field of that status, keeps the record's other fields and the other leads' entries, and sends nothing; its [_save_state] writes the new store to the state file when the file can be written, and otherwise leaves the file as it was. *)
Theorem update_lead_status_lookup E email st ts w kv r w' :
  lead_status w = JDict kv -> update_lead_status E email st ts w = (r, w') ->
  (exists v, assoc email kv = Some v /\ (forall R, v <> JDict R) /\ r = Err TypeError /\ w' = w)
  \/ (exists R0 kv', (assoc email kv = Some (JDict R0) \/ (assoc email kv = None /\ R0 = []))
        /\ r = Ok tt /\ lead_status w' = JDict kv'
        /\ state_file w' = (if state_writable w then Some (dumps (JDict kv')) else state_file w)
        /\ events w' = events w
        /\ exists R', assoc email kv' = Some (JDict R')
        /\ assoc "status" R' = Some (JStr st)
        /\ (forall f, ts_field st = Some f -> assoc f R' = Some (JStr ts))
        /\ (forall f, f <> "status" -> ts_field st <> Some f -> assoc f R' = assoc f R0)
        /\ (forall e, e <> email -> assoc e kv' = assoc e kv)).
Proof.
  intros Hls H.
  destruct (assoc email kv) as [v|] eqn:Hk.
  - destruct v as [| | | | |R0];
      try (rewrite (update_lead_status_nondict _ _ _ _ _ _ _ Hls Hk) in H by (intros ? ?; discriminate);
           inversion H; subst; left; eexists; repeat split; eauto; intros ? ?; discriminate).
    right. rewrite (update_lead_status_spec E email st ts w kv R0 Hls (or_introl Hk)) in H.
    injection H as <- <-. autorewrite with worldp.
    do 2 eexists; split; [left; reflexivity|].
    repeat split. eexists; split; [apply assoc_dict_set_eq|].
    split; [apply record_after_update_status|]. split; [apply record_after_update_ts|].
    split; [apply record_after_update_other|]. intros e He; apply assoc_dict_set_neq; congruence.
  - right. rewrite (update_lead_status_spec E email st ts w kv [] Hls (or_intror (conj Hk eq_refl))) in H.
    injection H as <- <-. autorewrite with worldp.
    do 2 eexists; split; [right; split; reflexivity|].
    repeat split. eexists; split; [apply assoc_dict_set_eq|].
    split; [apply record_after_update_status|]. split; [apply record_after_update_ts|].
    split; [apply record_after_update_other|]. intros e He; apply assoc_dict_set_neq; congruence.
Qed.

Lemma run_workflow_nondict E lead rest w r w' email :
  (forall kv, lead_status w <> JDict kv) -> assoc "email" lead = Some email ->
  run_workflow E (lead :: rest) w = (r, w') ->
  r = Err AttributeError /\ events w' = events w /\ lead_status w' = lead_status w
  /\ state_file w' = if state_writable w then Some (dumps (lead_status w)) else state_file w.
Proof.
  intros Hnd He H. unfold run_workflow in H.
  rewrite !(bind_ok _ _ _ _ _ (log_spec _ _ _)) in H; cbv beta in H.
  set (w3 := mkWorld _ _ _ _ _ _ _) in H.
  assert (Hb : exists w4, (x <- (if bq_enabled E then bq_insert_leads E (lead :: rest) else ret tt);;
      log Info "Processing initial outreach for new leads...";;
      process_new_leads E (lead :: rest);;
      log Info "Processing follow-ups and checking for replies...";;
      process_follow_ups E (lead :: rest);;
      (if bq_enabled E then log Info "CAMPAIGN ANALYTICS" else ret tt);;
      log Info "Workflow completed successfully") w3 = (Err AttributeError, w4)
      /\ lead_status w4 = lead_status w /\ events w4 = events w
      /\ state_writable w4 = state_writable w /\ state_file w4 = state_file w).
  { destruct (bq_enabled E).
    - cbn [bq_insert_leads]. rewrite bind_assoc.
      rewrite (bind_ok _ _ _ _ _ (getitem_spec _ _ _ _ He)); cbv beta.
      rewrite bind_assoc, (bind_ok _ _ _ _ _ (get_lead_status_spec _)); cbv beta.
      rewrite bind_assoc. unfold bind at 1. rewrite py_get_nondict_spec by exact Hnd.
      eexists; split; [reflexivity|]; repeat split; reflexivity.
    - rewrite (bind_ok _ _ _ _ _ (ret_spec _ _)); cbv beta.
      rewrite (bind_ok _ _ _ _ _ (log_spec _ _ _)); cbv beta.
      unfold process_new_leads. rewrite !bind_assoc. cbn [new_leads_loop].
      rewrite !bind_assoc. unfold process_new_lead.
      rewrite !bind_assoc, (bind_ok _ _ _ _ _ (getitem_spec _ _ _ _ He)); cbv beta.
      rewrite !bind_assoc, (bind_ok _ _ _ _ _ (get_lead_status_spec _)); cbv beta.
      rewrite !bind_assoc. unfold bind at 1. rewrite py_get_nondict_spec by exact Hnd.
      eexists; split; [reflexivity|]; repeat split; reflexivity. }
  destruct Hb as (w4 & H4 & Hl4 & He4 & Hw4 & Hf4).
  unfold try_finally, try_except in H. rewrite H4 in H.
  rewrite (bind_ok _ _ _ _ _ (log_spec _ _ _)) in H.
  cbn [raise] in H. rewrite save_state_spec in H. inversion H; subst.
  rewrite saved_state_file, saved_lead_status, saved_events. cbn [lead_status events state_file state_writable].
  rewrite Hl4, He4, Hw4, Hf4. auto.
Qed.

(** X8: when the state file holds a JSON array or string, [run_workflow] on a nonempty lead list ends in an AttributeError at the first lead, having sent nothing; its finally clause writes the loaded value back to a writable state file (as [json.dump] renders it) and leaves an unwritable one as it was. *)
Theorem array_state_file_aborts E lead rest w r w' email txt v :
  state_file w = Some txt -> loads txt = Some v ->
  ((exists l, v = JList l) \/ (exists s, v = JStr s)) ->
  assoc "email" lead = Some email ->
  main_run E (lead :: rest) w = (r, w') ->
  r = Err AttributeError /\ events w' = events w /\ lead_status w' = v
  /\ state_file w' = if state_writable w then Some (dumps v) else Some txt.
Proof.
  intros Hf Hl Hv He H. unfold main_run, init, load_state in H.
  rewrite !bind_assoc in H.
  rewrite (bind_ok _ _ _ _ _ (eq_refl : read_state_file w = (Ok (state_file w), w))) in H;
    cbv beta in H. rewrite Hf, Hl in H.
  assert (Hlen : exists n, py_len v = Some n)
    by (destruct Hv as [[l ->]|[s ->]]; eexists; reflexivity).
  destruct Hlen as [n Hn]. rewrite Hn in H.
  rewrite !bind_assoc, (bind_ok _ _ _ _ _ (log_spec _ _ _)) in H; cbv beta in H.
  rewrite (bind_ok _ _ _ _ _ (ret_spec _ _)) in H; cbv beta in H.
  unfold bind, put_lead_status, log in H; cbv beta iota in H.
  apply run_workflow_nondict with (email := email) in H; cbn [lead_status events] in H;
    [| destruct Hv as [[l ->]|[s ->]]; intros ? ?; discriminate | exact He].
  cbn [state_writable state_file] in H. rewrite Hf in H. exact H.
Qed.

Lemma attempts_to_app e a b : attempts_to e (a ++ b) = attempts_to e a + attempts_to e b.
Proof. unfold attempts_to; rewrite filter_app, length_app; reflexivity. Qed.

Lemma no_send_log_only {A} (m : M A) : log_only m -> no_send m.
Proof. intros Hm w r w' H e. apply Hm in H as (_ & _ & _ & ->). reflexivity. Qed.

Lemma no_send_bind {A B} (m : M A) (k : A -> M B) :
  no_send m -> (forall a, no_send (k a)) -> no_send (bind m k).
Proof.
  intros Hm Hk w r w' H e. unfold bind in H.
  destruct (m w) as [[a|err] w1] eqn:E1; pose proof (Hm _ _ _ E1 e).
  - rewrite (Hk a _ _ _ H e); assumption.
  - inversion H; subst; assumption.
Qed.

Lemma no_send_try_except {A} (m : M A) h :
  no_send m -> (forall err, no_send (h err)) -> no_send (try_except m h).
Proof.
  intros Hm Hh w r w' H e. unfold try_except in H.
  destruct (m w) as [[a|err] w1] eqn:E1; pose proof (Hm _ _ _ E1 e).
  - inversion H; subst; assumption.
  - rewrite (Hh err _ _ _ H e); assumption.
Qed.

Lemma no_send_generate p : no_send (emit (EvGenerate p)).
Proof. intros w r w' H e; inversion H; subst; cbn -[attempts_to]. rewrite attempts_to_app; cbn; lia. Qed.

Lemma no_send_utc_now : no_send utc_now.
Proof. intros w r w' H e; inversion H; subst; reflexivity. Qed.

Lemma no_send_check_for_reply E email ts : no_send (check_for_reply E email ts).
Proof.
  intros w r w' H e. apply check_for_reply_events in H as (_ & _ & [-> | [q ->]]); [reflexivity|].
  rewrite attempts_to_app; cbn; lia.
Qed.

Lemma no_send_update_lead_status E email st ts : no_send (update_lead_status E email st ts).
Proof. intros w r w' H e. rewrite (update_lead_status_events _ _ _ _ _ _ _ H). reflexivity. Qed.

Lemma log_only_find_lead leads email : log_only (find_lead leads email).
Proof. induction leads; simpl; log_only_tac. Qed.

Create HintDb sends.
#[export] Hint Resolve no_send_log_only no_send_generate no_send_utc_now no_send_check_for_reply
  no_send_update_lead_status log_only_find_lead : sends.
#[export] Hint Resolve log_only_ret log_only_raise log_only_log log_only_get_lead_status
  log_only_getitem log_only_py_get log_only_now_iso : sends.

Ltac no_send_tac :=
  repeat (first [solve [auto with sends] | match goal with
          | |- no_send (bind _ _) => apply no_send_bind; [|intro]
          | |- no_send (try_except _ _) => apply no_send_try_except; [|intro]
          | |- no_send (if ?b then _ else _) => destruct b
          | |- no_send (match ?x with _ => _ end) => destruct x
          | |- no_send (let _ := _ in _) => cbv zeta
          end]).

Lemma no_send_should_send_follow_up E ts : no_send (should_send_follow_up E ts).
Proof. unfold should_send_follow_up, parse_iso; no_send_tac. Qed.

Lemma no_send_draft_follow_up_email E lead : no_send (draft_follow_up_email E lead).
Proof. unfold draft_follow_up_email; no_send_tac. Qed.

#[export] Hint Resolve no_send_should_send_follow_up no_send_draft_follow_up_email : sends.

Lemma one_send_of_no_send {A} x (m : M A) : no_send m -> one_send_to x m.
Proof. intros Hm w r w' H e. rewrite (Hm _ _ _ H e). lia. Qed.

Lemma one_send_bind_na {A B} x (m : M A) (k : A -> M B) :
  no_send m -> (forall a, one_send_to x (k a)) -> one_send_to x (bind m k).
Proof.
  intros Hm Hk w r w' H e. unfold bind in H.
  destruct (m w) as [[a|err] w1] eqn:E1; pose proof (Hm _ _ _ E1 e).
  - pose proof (Hk a _ _ _ H e); lia.
  - inversion H; subst; lia.
Qed.

Lemma one_send_bind_an {A B} x (m : M A) (k : A -> M B) :
  one_send_to x m -> (forall a, no_send (k a)) -> one_send_to x (bind m k).
Proof.
  intros Hm Hk w r w' H e. unfold bind in H.
  destruct (m w) as [[a|err] w1] eqn:E1; pose proof (Hm _ _ _ E1 e).
  - rewrite (Hk a _ _ _ H e); assumption.
  - inversion H; subst; assumption.
Qed.

Lemma one_send_send_email E x s b : one_send_to x (send_email E x s b).
Proof.
  intros w r w' H e. unfold send_email in H.
  destruct (gmail_service E); cbn [negb] in H.
  2: { cbn in H; inversion H; subst; cbn -[attempts_to]; lia. }
  destruct (String.eqb x "" || String.eqb s "" || String.eqb b "").
  { cbn in H; inversion H; subst; cbn -[attempts_to]; lia. }
  unfold try_except, bind, emit in H; cbn in H.
  destruct (gmail_send E x (sender_email E) s b); inversion H; subst; cbn -[attempts_to];
    rewrite attempts_to_app; unfold attempts_to at 2; cbn;
    destruct (String.eqb x e); cbn; lia.
Qed.

#[export] Hint Resolve one_send_send_email : sends.

Ltac one_send_tac :=
  repeat (first [solve [auto with sends] | apply one_send_of_no_send; solve [no_send_tac]
                | match goal with
          | |- one_send_to _ (bind _ _) =>
              first [apply one_send_bind_na; [solve [no_send_tac] | intro]
                    | apply one_send_bind_an; [|intro; solve [no_send_tac]]]
          | |- one_send_to _ (if ?b then _ else _) => destruct b
          | |- one_send_to _ (match ?x with _ => _ end) => destruct x
          | |- one_send_to _ (let _ := _ in _) => cbv zeta
          end]).

Lemma follow_up_one_send E leads email data c :
  one_send_to email (process_follow_up E leads (email, data) c).
Proof. destruct c; unfold process_follow_up; cbv beta iota. one_send_tac. Qed.

Lemma follow_up_no_send E leads email data c :
  follow_up_candidate data = false -> no_send (process_follow_up E leads (email, data) c).
Proof.
  intros Hc w r w' H e. destruct c as [fc rc]. unfold process_follow_up in H; cbv beta iota in H.
  destruct data as [| | | | |d];
    try (rewrite bind_py_get_nondict in H by (intros ? ?; discriminate);
         inversion H; subst; reflexivity).
  rewrite (bind_ok _ _ _ _ _ (py_get_dict_spec _ _ _ _)) in H; cbv beta in H.
  cbn [follow_up_candidate] in Hc.
  destruct (is_str _ "INITIAL_EMAIL_SENT"); cbn [negb andb] in H, Hc;
    [|inversion H; subst; reflexivity].
  rewrite (bind_ok _ _ _ _ _ (log_spec _ _ _)) in H; cbv beta in H.
  rewrite (bind_ok _ _ _ _ _ (py_get_dict_spec _ _ _ _)) in H; cbv beta in H.
  rewrite Hc in H; cbn [negb] in H.
  rewrite (bind_ok _ _ _ _ _ (log_spec _ _ _)) in H; inversion H; subst; reflexivity.
Qed.

Lemma follow_ups_loop_attempts E leads items : forall c w r w' e,
  follow_ups_loop E leads items c w = (r, w') ->
  attempts_to e (events w') <= attempts_to e (events w)
    + length (filter (fun p => String.eqb (fst p) e && follow_up_candidate (snd p)) items).
Proof.
  induction items as [|[email data] rest IH]; intros c w r w' e H; cbn [follow_ups_loop] in H.
  - inversion H; subst; cbn; lia.
  - unfold bind at 1 in H.
    destruct (process_follow_up E leads (email, data) c w) as [res w1] eqn:Hp.
    assert (Hstep : attempts_to e (events w1) <= attempts_to e (events w)
                      + (if String.eqb email e && follow_up_candidate data then 1 else 0)).
    { destruct (follow_up_candidate data) eqn:Hc.
      - rewrite andb_true_r. exact (follow_up_one_send E leads email data c _ _ _ Hp e).
      - rewrite andb_false_r, (follow_up_no_send E leads email data c Hc _ _ _ Hp e). lia. }
    cbn [filter fst snd].
    destruct res as [c'|err]; [pose proof (IH _ _ _ _ e H) | inversion H; subst];
      destruct (String.eqb email e && follow_up_candidate data); cbn [length] in *; lia.
Qed.

Lemma filter_notin_nil (P : string * json -> bool) e kv :
  ~ In e (map fst kv) -> (forall p, String.eqb (fst p) e = false -> P p = false) ->
  filter P kv = [].
Proof.
  intros Hn HP. induction kv as [|[k v] kv IH]; cbn; [reflexivity|].
  cbn in Hn. rewrite HP; [apply IH; tauto|]. cbn. apply String.eqb_neq. intros ->; tauto.
Qed.

Lemma candidates_at_most_one kv e :
  NoDup (map fst kv) ->
  length (filter (fun p => String.eqb (fst p) e && follow_up_candidate (snd p)) kv)
  <= match assoc e kv with Some d => if follow_up_candidate d then 1 else 0 | None => 0 end.
Proof.
  induction kv as [|[k v] kv IH]; intros Hnd; cbn; [lia|].
  inversion Hnd as [|? ? Hnot Hnd']; subst.
  rewrite (String.eqb_sym e k).
  destruct (String.eqb_spec k e) as [->|Hne]; cbn [andb].
  - rewrite (filter_notin_nil _ e kv Hnot) by (intros p Hp; rewrite Hp; reflexivity).
    destruct (follow_up_candidate v); cbn; lia.
  - exact (IH Hnd').
Qed.

(** X9: [_process_follow_ups] attempts at most one follow-up to an address, and none unless its record was a follow-up candidate at the start of the phase. *)
Theorem follow_up_attempt_at_most_once E leads w r w' kv e :
  process_follow_ups E leads w = (r, w') ->
  lead_status w = JDict kv -> NoDup (map fst kv) ->
  attempts_to e (events w') <= attempts_to e (events w)
    + match assoc e kv with Some d => if follow_up_candidate d then 1 else 0 | None => 0 end.
Proof.
  intros H Hls Hnd. unfold process_follow_ups in H.
  rewrite (bind_ok _ _ _ _ _ (get_lead_status_spec w)), Hls in H; cbv beta in H.
  rewrite (bind_ok _ _ _ _ _ (eq_refl : py_items (JDict kv) w = (Ok kv, w))) in H; cbv beta in H.
  unfold bind at 1 in H.
  destruct (follow_ups_loop E leads kv (0, 0) w) as [res w1] eqn:Hl.
  pose proof (follow_ups_loop_attempts _ _ _ _ _ _ _ e Hl) as H1.
  pose proof (candidates_at_most_one kv e Hnd) as H2.
  destruct res as [c|err]; [rewrite log_spec in H|]; inversion H; subst; cbn [events]; lia.
Qed.

Lemma valid_lead_has_email l : valid_lead l -> has_email l.
Proof. intros (fn & ln & em & co & ti & ind & -> & _). exists em; reflexivity. Qed.

Lemma safe_workflow_body E leads :
  Forall has_email leads ->
  safe (match leads with
        | [] => log Warning "No leads fetched. Exiting workflow"
        | _ =>
            (if bq_enabled E then bq_insert_leads E leads else ret tt);;
            log Info "Processing initial outreach for new leads...";;
            process_new_leads E leads;;
            log Info "Processing follow-ups and checking for replies...";;
            process_follow_ups E leads;;
            (if bq_enabled E then log Info "CAMPAIGN ANALYTICS" else ret tt);;
            log Info "Workflow completed successfully"
        end).
Proof.
  intros Hl. destruct leads; [auto with safe|].
  pose proof (safe_bq_insert_leads E _ Hl). pose proof (safe_process_new_leads E _ Hl).
  pose proof (safe_process_follow_ups E _ Hl). safe_tac.
Qed.

Lemma init_object_store w r w' :
  match state_file w with
  | None => True
  | Some txt => forall v, loads txt = Some v -> py_len v <> None -> object_store v
  end ->
  init w = (r, w') -> r = Ok tt /\ object_store (lead_status w').
Proof.
  intros Hf H. unfold init, load_state in H. rewrite !bind_assoc in H.
  rewrite (bind_ok _ _ _ _ _ (eq_refl : read_state_file w = (Ok (state_file w), w))) in H;
    cbv beta in H.
  assert (Hld : exists v w1, (match state_file w with
      | Some txt =>
          match loads txt with
          | Some state =>
              match py_len state with
              | Some n => log Info ("Loaded state for " +++ string_of_nat n +++ " leads");; ret state
              | None => log Error "Error loading state";; ret (JDict [])
              end
          | None => log Error "Invalid JSON in state file";; ret (JDict [])
          end
      | None => log Info "No existing state file found, starting fresh";; ret (JDict [])
      end) w = (Ok v, w1) /\ object_store v).
  { assert (H0 : object_store (JDict [])) by (exists []; split; [reflexivity | constructor]).
    destruct (state_file w) as [txt|]; [|eexists _, _; split; [reflexivity | exact H0]].
    destruct (loads txt) as [v|] eqn:Hv; [|eexists _, _; split; [reflexivity | exact H0]].
    destruct (py_len v) as [n|] eqn:Hn; [|eexists _, _; split; [reflexivity | exact H0]].
    eexists _, _; split; [reflexivity|]. apply (Hf v eq_refl). congruence. }
  destruct Hld as (v & w1 & H1 & Hv).
  rewrite (bind_ok _ _ _ _ _ H1) in H.
  unfold bind, put_lead_status, log in H; cbv beta iota in H. inversion H; subst. auto.
Qed.


(** X11: [check_for_reply] answers true only when the Gmail service exists, the timestamp is a string that parses, and the inbox search for messages from the lead after that time returned at least one message; that search is its only effect. *)
Theorem reply_found_only_on_evidence E email ts w w' :
  check_for_reply E email ts w = (Ok true, w') ->
  exists s d k, ts = JStr s /\ gmail_service E = true
    /\ fromisoformat E (replace_Z s) = Some d
    /\ gmail_list E ("from:" +++ email +++ " after:" +++ string_of_Z (dt_timestamp E d)) = Some k
    /\ 0 < k
    /\ events w' = events w
         ++ [EvReplyQuery ("from:" +++ email +++ " after:" +++ string_of_Z (dt_timestamp E d))].
Proof.
  unfold check_for_reply, try_except, parse_iso, bind, log, ret, raise, emit.
  destruct (gmail_service E) eqn:Hg; cbn; [|intros H; inversion H].
  destruct ts as [| | | s | |]; cbn; try (intros H; inversion H; fail).
  destruct (fromisoformat E (replace_Z s)) as [d|] eqn:Hf; cbn; [|intros H; inversion H].
  destruct (gmail_list E _) as [k|] eqn:Hk; cbn; [|intros H; inversion H].
  destruct k as [|k']; intros H; cbn in H; [inversion H|].
  injection H as <-. exists s, d, (S k'). repeat split; auto. lia.
Qed.

(** X12: once [should_send_follow_up] answers true at some time, it answers true at every later time. *)
Theorem follow_up_due_stays_due E ts w w1 w2 :
  should_send_follow_up E ts w = (Ok true, w1) -> (clock w <= clock w2)%Z ->
  fst (should_send_follow_up E ts w2) = Ok true.
Proof.
  unfold should_send_follow_up, try_except, parse_iso, bind, utc_now, log, ret, raise.
  destruct ts as [| | | s | |]; cbn; try (intros H; inversion H; fail).
  destruct (fromisoformat E (replace_Z s)) as [[t|t]|]; cbn; try (intros H; inversion H; fail).
  destruct (Z.leb (t + hours_us (follow_up_delay_hours E)) (clock w)) eqn:H1;
    intros H; inversion H.
  intros Hc. apply Z.leb_le in H1.
  assert (Hle2 : Z.leb (t + hours_us (follow_up_delay_hours E)) (clock w2) = true)
    by (apply Z.leb_le; lia).
  rewrite Hle2. reflexivity.
Qed.

Lemma drop_space_spaces l : Forall (fun c => py_isspace c = true) l -> drop_space l = [].
Proof. induction 1 as [|c l Hc _ IH]; cbn; [reflexivity | rewrite Hc; exact IH]. Qed.

(** X13: when Gemini answers the follow-up prompt with blank text, [draft_follow_up_email] still returns a draft that passes the checks, whose body is only the sign-off. *)
Theorem blank_reply_signoff_only E lead email fn co text w :
  gemini_model E = true -> assoc "firstName" lead = Some fn ->
  assoc "company" lead = Some co -> assoc "email" lead = Some email ->
  gemini_generate E (follow_up_prompt fn co) = Some text ->
  String.eqb text "" = false -> Forall (fun c => py_isspace c = true) (list_ascii_of_string text) ->
  exists d, fst (draft_follow_up_email E lead w) = Ok (Some d)
    /\ draft_ok d = Some ("Re: A Partnership in Storytelling for " +++ co,
                          strip ("

All the best,

" +++ your_name E)).
Proof.
  intros Hm Hf Hc He Hg Ht Hsp.
  assert (Hs : strip text = "") by (unfold strip; rewrite (drop_space_spaces _ Hsp); reflexivity).
  rewrite (draft_follow_up_email_spec E lead email fn co text w Hm Hf Hc He Hg Ht).
  eexists; split; [reflexivity|].
  rewrite (draft_ok_spec _ _ (re_subject_nonempty co) (follow_up_body_nonempty E text)).
  rewrite Hs. reflexivity.
Qed.

(** X14: the earlier [check_for_reply] of [src/follow_up_agent.py] returns the same answer and issues the same Gmail queries as the one of [src/agents/follow_up_agent.py]. *)
Theorem legacy_check_for_reply_agrees E email ts w :
  fst (legacy_check_for_reply E email ts w) = fst (check_for_reply E email ts w)
  /\ events (snd (legacy_check_for_reply E email ts w))
     = events (snd (check_for_reply E email ts w)).
Proof.
  unfold legacy_check_for_reply, check_for_reply, try_except, parse_iso, bind, log, ret,
    raise, emit.
  destruct (gmail_service E); cbn.
  - destruct ts as [| | | s | |]; cbn; auto.
    destruct (fromisoformat E (replace_Z s)) as [d|]; cbn; auto.
    destruct (gmail_list E _) as [[|k]|]; cbn; auto.
  - destruct ts as [| | | s | |]; cbn; auto.
    destruct (fromisoformat E (replace_Z s)); cbn; auto.
Qed.

(** X15: where the earlier [should_send_follow_up] returns an answer, the current one returns the same; where the earlier one raises, the current one answers false. *)
Theorem legacy_should_send_fails_closed E ts w r w' :
  legacy_should_send_follow_up E ts w = (r, w') ->
  fst (should_send_follow_up E ts w) = match r with Ok b => Ok b | Err _ => Ok false end.
Proof.
  unfold legacy_should_send_follow_up, should_send_follow_up, try_except, parse_iso, bind,
    utc_now, log, ret, raise.
  destruct ts as [| | | s | |]; cbn; try (intros H; inversion H; reflexivity).
  destruct (fromisoformat E (replace_Z s)) as [[t|t]|]; cbn; intros H; inversion H; subst;
    try reflexivity.
  destruct (Z.leb _ _); reflexivity.
Qed.

Lemma untouched_ret {A} (a : A) : file_untouched (ret a).
Proof. intros w r w' H; inversion H; auto. Qed.
Lemma untouched_raise {A} e : file_untouched (@raise A e).
Proof. intros w r w' H; inversion H; auto. Qed.
Lemma untouched_get_lead_status : file_untouched get_lead_status.
Proof. intros w r w' H; inversion H; auto. Qed.
Lemma untouched_put_lead_status v : file_untouched (put_lead_status v).
Proof. intros w r w' H; inversion H; auto. Qed.

Lemma untouched_bind {A B} (m : M A) (k : A -> M B) :
  file_untouched m -> (forall a, file_untouched (k a)) -> file_untouched (bind m k).
Proof.
  intros Hm Hk w r w' H; unfold bind in H.
  destruct (m w) as [[a|e] w1] eqn:E1; apply Hm in E1 as (E2 & E3 & E4).
  - apply Hk in H as (H1 & H2 & H3). repeat split; congruence.
  - inversion H; subst; auto.
Qed.

Ltac untouched_tac :=
  repeat (first [apply untouched_ret | apply untouched_raise | apply untouched_get_lead_status
                | apply untouched_put_lead_status | match goal with
          | |- file_untouched (bind _ _) => apply untouched_bind; [|intro]
          | |- file_untouched (set_record_field _ _ _) => unfold set_record_field
          | |- file_untouched (if ?b then _ else _) => destruct b
          | |- file_untouched (match ?x with _ => _ end) => destruct x
          end]).

Lemma agree_bind {A} (m : M A) (k1 k2 : A -> M unit) :
  file_untouched m -> (forall a w, upd_agree w (k1 a w) (k2 a w)) ->
  forall w, upd_agree w (bind m k1 w) (bind m k2 w).
Proof.
  intros Hm Hk w. unfold bind. destruct (m w) as [[a|e] w1] eqn:E1.
  - apply Hm in E1 as (E2 & E3 & E4).
    destruct (Hk a w1) as (A1 & A2 & A3 & A4 & A5 & A6).
    split; [exact A1|]. split; [exact A2|]. split; [congruence|]. split; [congruence|].
    split; [intros Hw; apply A5; congruence|].
    intros Hw. rewrite <- E3. apply A6. congruence.
  - apply Hm in E1 as (E2 & E3 & E4). cbn.
    split; [reflexivity|]. split; [reflexivity|]. split; [exact E4|]. split; [exact E2|].
    split; [intros _; split; reflexivity|].
    intros _. split; [exact E3|]. split; [exact E3|]. split; [discriminate|]. auto.
Qed.

(** The last steps: the earlier [_save_state] raises when the file cannot be
    written, the current one logs it and goes on to the BigQuery mirror. *)
Lemma upd_tail_agree E email st w :
  upd_agree w
    ((legacy_save_state;; log Info ("Updated status for " +++ email +++ " to " +++ st +++ ".")) w)
    ((save_state;; mirror_update E email st;;
      log Info ("Updated status for " +++ email +++ " to " +++ st)) w).
Proof.
  rewrite update_tail_spec. unfold upd_agree. autorewrite with worldp.
  unfold legacy_save_state, bind, get_lead_status, write_state_file, log.
  destruct (state_writable w) eqn:Hw; cbn; autorewrite with worldp; rewrite ?Hw;
    repeat split; auto; intros; discriminate.
Qed.

Lemma legacy_update_agree E email st ts w :
  upd_agree w (legacy_update_lead_status email st ts w) (update_lead_status E email st ts w).
Proof.
  unfold legacy_update_lead_status, update_lead_status. revert w.
  apply agree_bind; [untouched_tac | intros ls w1; revert w1].
  apply agree_bind; [untouched_tac | intros u1 w2; revert w2].
  apply agree_bind; [untouched_tac | intros u2 w3; revert w3].
  apply agree_bind; [untouched_tac | intros u3 w4].
  apply upd_tail_agree.
Qed.

(** X16: the earlier [_update_lead_status] of [src/orchestrator_agent.py] leaves the same store and outside effects as [_update_lead_status] of [src/agents/orchestrator.py] and makes no BigQuery call; when the state file can be written both have the same result and write the same file, and when it cannot, the earlier one raises (its [_save_state] lets the error of [open] through) where the current one returns normally, and neither changes the file. *)
Theorem legacy_update_lead_status_agrees E email st ts w :
  lead_status (snd (legacy_update_lead_status email st ts w))
     = lead_status (snd (update_lead_status E email st ts w))
  /\ events (snd (legacy_update_lead_status email st ts w))
     = events (snd (update_lead_status E email st ts w))
  /\ bq_calls (snd (legacy_update_lead_status email st ts w)) = bq_calls w
  /\ (state_writable w = true ->
      fst (legacy_update_lead_status email st ts w) = fst (update_lead_status E email st ts w)
      /\ state_file (snd (legacy_update_lead_status email st ts w))
         = state_file (snd (update_lead_status E email st ts w)))
  /\ (state_writable w = false ->
      state_file (snd (legacy_update_lead_status email st ts w)) = state_file w
      /\ state_file (snd (update_lead_status E email st ts w)) = state_file w
      /\ (fst (update_lead_status E email st ts w) = Ok tt ->
          fst (legacy_update_lead_status email st ts w) = Err OtherError)
      /\ (forall e, fst (update_lead_status E email st ts w) = Err e ->
          fst (legacy_update_lead_status email st ts w) = Err e)).
Proof.
  destruct (legacy_update_agree E email st ts w) as (H1 & H2 & H3 & _ & H5 & H6).
  split; [exact H1|]. split; [exact H2|]. split; [exact H3|]. split; [exact H5 | exact H6].
Qed.

Lemma preserves_bind {A B} I (m : M A) (k : A -> M B) :
  preserves I m -> (forall a, preserves I (k a)) -> preserves I (bind m k).
Proof.
  intros Hm Hk w Hw. destruct (Hm w Hw) as (a & w1 & H1 & Hw1).
  destruct (Hk a w1 Hw1) as (b & w2 & H2 & Hw2). exists b, w2.
  rewrite (bind_ok _ _ _ _ _ H1). auto.
Qed.

(** A total operation that leaves the store alone, whose results satisfy [P]. *)
Lemma preserves_bind_frame {A B} I (P : A -> Prop) (m : M A) (k : A -> M B) :
  store_frame m -> (forall w, exists a w', m w = (Ok a, w')) ->
  (forall w a w', m w = (Ok a, w') -> P a) ->
  (forall a, P a -> preserves I (k a)) -> preserves I (bind m k).
Proof.
  intros Hf Ht Hp Hk w Hw. destruct (Ht w) as (a & w1 & H1).
  destruct (Hf _ _ _ H1) as [Hl _].
  assert (Hw1 : I (lead_status w1)) by (rewrite Hl; exact Hw).
  destruct (Hk a (Hp _ _ _ H1) w1 Hw1) as (b & w2 & H2 & Hw2).
  exists b, w2. rewrite (bind_ok _ _ _ _ _ H1). auto.
Qed.

Lemma preserves_frame {A} I (m : M A) :
  store_frame m -> (forall w, exists a w', m w = (Ok a, w')) -> preserves I m.
Proof.
  intros Hf Ht w Hw. destruct (Ht w) as (a & w1 & H1). destruct (Hf _ _ _ H1) as [Hl _].
  exists a, w1. rewrite Hl. auto.
Qed.

Lemma preserves_get {B} I (k : json -> M B) :
  (forall v, I v -> preserves I (k v)) -> preserves I (bind get_lead_status k).
Proof. intros Hk w Hw. rewrite (bind_ok _ _ _ _ _ (get_lead_status_spec w)). apply Hk; auto. Qed.

Lemma bind_ret_l {A B} (a : A) (k : A -> M B) : bind (ret a) k = k a.
Proof. reflexivity. Qed.

Lemma py_get_dict_ret kv k d :
  py_get (JDict kv) k d = ret (match assoc k kv with Some v => v | None => d end).
Proof. reflexivity. Qed.

Lemma getitem_ret lead k v : assoc k lead = Some v -> getitem lead k = ret v.
Proof. intros H; unfold getitem; rewrite H; reflexivity. Qed.

Lemma py_getitem_ret kv k v : assoc k kv = Some v -> py_getitem (JDict kv) k = ret v.
Proof. intros H; unfold py_getitem; rewrite H; reflexivity. Qed.

Lemma returns_ret {A} (P : A -> Prop) a : P a -> returns P (ret a).
Proof. intros Ha w a' w' H; inversion H; subst; exact Ha. Qed.

Lemma returns_raise {A} (P : A -> Prop) e : returns P (raise e).
Proof. intros w a w' H; inversion H. Qed.

Lemma returns_bind {A B} (P : B -> Prop) (m : M A) (k : A -> M B) :
  (forall a, returns P (k a)) -> returns P (bind m k).
Proof.
  intros Hk w b w' H; unfold bind in H.
  destruct (m w) as [[a|e] w1]; [exact (Hk a _ _ _ H) | inversion H].
Qed.

Lemma returns_try_except {A} (P : A -> Prop) (m : M A) h :
  returns P m -> (forall e, returns P (h e)) -> returns P (try_except m h).
Proof.
  intros Hm Hh w a w' H; unfold try_except in H.
  destruct (m w) as [[a'|e] w1] eqn:E1; [inversion H; subst; exact (Hm _ _ _ E1) | exact (Hh e _ _ _ H)].
Qed.

Ltac returns_tac :=
  repeat (first [apply returns_raise | apply returns_ret; solve [eauto] | match goal with
          | |- returns _ (bind _ _) => apply returns_bind; intro
          | |- returns _ (try_except _ _) => apply returns_try_except; [|intro]
          | |- returns _ (getitem _ _) => unfold getitem
          | |- returns _ (if ?b then _ else _) => destruct b
          | |- returns _ (match ?x with _ => _ end) => destruct x
          | |- returns _ (let _ := _ in _) => cbv zeta
          end]).

Lemma draft_initial_email_fields E lead w d w1 :
  draft_initial_email E lead w = (Ok d, w1) -> exists s b, d = [("subject", s); ("body", b)].
Proof.
  revert w d w1. change (returns (fun d => exists s b, d = [("subject", s); ("body", b)])
                                 (draft_initial_email E lead)).
  unfold draft_initial_email. returns_tac.
Qed.

Lemma draft_follow_up_email_fields E lead w d w1 :
  draft_follow_up_email E lead w = (Ok d, w1) ->
  d = None \/ exists s b, d = Some [("subject", s); ("body", b)].
Proof.
  revert w d w1.
  change (returns (fun d => d = None \/ exists s b, d = Some [("subject", s); ("body", b)])
                  (draft_follow_up_email E lead)).
  unfold draft_follow_up_email. returns_tac.
Qed.

Lemma legacy_update_lead_status_spec (E : env) email st ts w kv r :
  state_writable w = true -> lead_status w = JDict kv ->
  (assoc email kv = Some (JDict r) \/ (assoc email kv = None /\ r = [])) ->
  exists w', legacy_update_lead_status email st ts w = (Ok tt, w')
    /\ lead_status w' = JDict (dict_set email (JDict (record_after_update st ts r)) kv)
    /\ state_writable w' = true.
Proof.
  intros Hw Hls Hr. destruct (legacy_update_agree E email st ts w) as (A1 & _ & _ & A4 & A5 & _).
  destruct (A5 Hw) as [A6 _].
  rewrite (update_lead_status_spec _ _ _ _ _ _ _ Hls Hr) in A1, A6.
  destruct (legacy_update_lead_status email st ts w) as [r1 w1]. cbn in A1, A4, A6.
  subst r1. autorewrite with worldp in A1. exists w1; repeat split; congruence.
Qed.

Lemma preserves_w_bind {A B} I (m : M A) (k : A -> M B) :
  preserves_w I m -> (forall a, preserves_w I (k a)) -> preserves_w I (bind m k).
Proof.
  intros Hm Hk w Hw Hs. destruct (Hm w Hw Hs) as (a & w1 & H1 & Hw1 & Hs1).
  destruct (Hk a w1 Hw1 Hs1) as (b & w2 & H2 & Hw2 & Hs2). exists b, w2.
  rewrite (bind_ok _ _ _ _ _ H1). auto.
Qed.

Lemma preserves_w_frame {A} I (m : M A) :
  store_frame m -> file_frame m -> (forall w, exists a w', m w = (Ok a, w')) -> preserves_w I m.
Proof.
  intros Hf Hff Ht w Hw Hs. destruct (Ht w) as (a & w1 & H1).
  destruct (Hf _ _ _ H1) as [Hl _]. destruct (Hff _ _ _ H1) as [Hs1 _].
  exists a, w1. rewrite Hl, Hs1. auto.
Qed.

Lemma preserves_w_bind_frame {A B} I (P : A -> Prop) (m : M A) (k : A -> M B) :
  store_frame m -> file_frame m -> (forall w, exists a w', m w = (Ok a, w')) ->
  (forall w a w', m w = (Ok a, w') -> P a) ->
  (forall a, P a -> preserves_w I (k a)) -> preserves_w I (bind m k).
Proof.
  intros Hf Hff Ht Hp Hk w Hw Hs. destruct (Ht w) as (a & w1 & H1).
  destruct (Hf _ _ _ H1) as [Hl _]. destruct (Hff _ _ _ H1) as [Hs1 _].
  assert (Hw1 : I (lead_status w1)) by (rewrite Hl; exact Hw).
  destruct (Hk a (Hp _ _ _ H1) w1 Hw1 ltac:(congruence)) as (b & w2 & H2 & Hw2 & Hs2).
  exists b, w2. rewrite (bind_ok _ _ _ _ _ H1). auto.
Qed.

Lemma preserves_w_get {B} I (k : json -> M B) :
  (forall v, I v -> preserves_w I (k v)) -> preserves_w I (bind get_lead_status k).
Proof. intros Hk w Hw Hs. rewrite (bind_ok _ _ _ _ _ (get_lead_status_spec w)). apply Hk; auto. Qed.

Lemma preserves_w_of_safe {A} (m : M A) : safe m -> file_frame m -> preserves_w object_store m.
Proof.
  intros Hm Hf w Hw Hs. destruct (Hm w Hw) as (a & w1 & H1 & Hw1 & _).
  destruct (Hf _ _ _ H1) as [Hs1 _]. exists a, w1. rewrite Hs1. auto.
Qed.

Lemma preserves_w_legacy_update email st ts :
  preserves_w object_store (legacy_update_lead_status email st ts).
Proof.
  intros w (kv & Hls & Hall) Hs.
  assert (Hrec : exists r, assoc email kv = Some (JDict r) \/ (assoc email kv = None /\ r = [])).
  { destruct (assoc email kv) as [v|] eqn:Hk; [|eauto].
    destruct (assoc_object _ _ _ Hall Hk) as [r ->]; eauto. }
  destruct Hrec as [r Hr].
  destruct (legacy_update_lead_status_spec E0 email st ts w kv r Hs Hls Hr) as (w1 & H1 & Hl1 & Hs1).
  exists tt, w1. rewrite Hl1. split; [exact H1|]. split; [|exact Hs1].
  eexists; split; [reflexivity|]. apply object_store_dict_set, Hall.
Qed.

Ltac safe_w_tac :=
  repeat (first [ apply preserves_w_legacy_update
                | apply preserves_w_of_safe; [solve [auto with safe] | solve [file_tac]]
                | match goal with
          | |- preserves_w _ (bind _ _) => apply preserves_w_bind; [|intro]
          | |- preserves_w _ (if ?b then _ else _) => destruct b
          | |- preserves_w _ (match ?x with _ => _ end) => destruct x
          end]).

Lemma safe_bind_frame {A B} (P : A -> Prop) (m : M A) (k : A -> M B) :
  store_frame m -> (forall w, exists a w', m w = (Ok a, w')) ->
  (forall w a w', m w = (Ok a, w') -> P a) ->
  (forall a, P a -> safe (k a)) -> safe (bind m k).
Proof.
  intros Hf Ht Hp Hk w Hw. destruct (Ht w) as (a & w1 & H1).
  destruct (Hf _ _ _ H1) as [Hl _].
  assert (Hw1 : object_store (lead_status w1)) by (rewrite Hl; exact Hw).
  destruct (Hk a (Hp _ _ _ H1) w1 Hw1) as (b & w2 & H2 & Hw2 & Hi2).
  exists b, w2. rewrite (bind_ok _ _ _ _ _ H1). rewrite Hl in Hi2. auto.
Qed.

Lemma Forall_dict_set {A} (P : string * A -> Prop) k v kv :
  P (k, v) -> Forall P kv -> Forall P (dict_set k v kv).
Proof.
  intros Hp. induction 1 as [|[k' v'] kv Hkv Hrest IH]; simpl; [constructor; auto|].
  destruct (String.eqb k k') eqn:Hk;
    [apply String.eqb_eq in Hk; subst; constructor; auto | constructor; auto].
Qed.

Lemma assoc_some_in {A} k (v : A) kv : assoc k kv = Some v -> In (k, v) kv.
Proof.
  induction kv as [|[k' v'] kv IH]; simpl; [discriminate|].
  destruct (String.eqb k k') eqn:Hk; [|auto].
  apply String.eqb_eq in Hk; intros H; inversion H; subst; auto.
Qed.

Lemma rec_with_status_object kv : Forall rec_with_status kv -> object_store (JDict kv).
Proof.
  intros H. exists kv; split; [reflexivity|].
  eapply Forall_impl; [|exact H]. intros p (R & s & HR & _). eauto.
Qed.

Lemma legacy_new_lead_inv E e d lead :
  has_email lead -> assoc "status" d = Some (JStr "INITIAL_EMAIL_SENT") ->
  preserves_w (phase_a_inv e d) (legacy_new_lead E lead).
Proof.
  intros [x Hx] Hd. unfold legacy_new_lead. rewrite (getitem_ret _ _ _ Hx), bind_ret_l.
  apply preserves_w_get. intros v (kv & -> & Hall & He).
  rewrite py_get_dict_ret, bind_ret_l.
  assert (HR : exists R, match assoc x kv with Some v => v | None => JDict [] end = JDict R
                 /\ (assoc x kv = Some (JDict R) \/ (assoc x kv = None /\ R = []))).
  { destruct (assoc x kv) as [v|] eqn:Hk; [|eauto].
    destruct (proj1 (Forall_forall _ _) Hall _ (assoc_some_in _ _ _ Hk)) as (R & s & HR & _).
    cbn in HR; subst v; eauto. }
  destruct HR as (R & -> & HxR). rewrite py_get_dict_ret, bind_ret_l.
  destruct (is_str _ "PENDING") eqn:Hp;
    [|apply preserves_w_frame; [apply frame_log | apply file_log | intros; eexists _, _; reflexivity]].
  assert (Hne : x <> e).
  { intros <-. destruct HxR as [Hk | [Hk _]]; rewrite He in Hk; [|discriminate].
    inversion Hk; subst R. rewrite Hd in Hp. discriminate. }
  intros w Hw Hs.
  assert (Hrest : preserves_w (phase_a_inv e d)
    (log Info ("Processing new lead: " +++ x);;
     draft <- draft_initial_email E lead;;
     subject <- getitem draft "subject";;
     body <- getitem draft "body";;
     success <- send_email E x subject body;;
     if success then
       sent_timestamp <- now_iso E;;
       legacy_update_lead_status x "INITIAL_EMAIL_SENT" sent_timestamp
     else ret tt)).
  { apply preserves_w_bind;
      [apply preserves_w_frame; [apply frame_log | apply file_log | intros; eexists _, _; reflexivity]|].
    intros _.
    apply (preserves_w_bind_frame _ (fun d => exists s b, d = [("subject", s); ("body", b)]));
      [apply frame_draft_initial_email | apply file_draft_initial_email
      | apply draft_initial_email_total | apply draft_initial_email_fields |].
    intros dr (s & b & ->). rewrite (getitem_ret _ _ s), bind_ret_l by reflexivity.
    rewrite (getitem_ret _ _ b), bind_ret_l by reflexivity.
    apply (preserves_w_bind_frame _ (fun _ => True));
      [apply frame_send_email | apply file_send_email | apply send_email_total | auto |].
    intros [|] _;
      [|apply preserves_w_frame; [apply frame_ret | apply file_ret | intros; eexists _, _; reflexivity]].
    apply (preserves_w_bind_frame _ (fun _ => True));
      [apply frame_now_iso | apply file_now_iso | intros; eexists _, _; reflexivity | auto |].
    intros ts _ w2 (kv2 & Hls2 & Hall2 & He2) Hs2.
    assert (Hr2 : exists R2, assoc x kv2 = Some (JDict R2) \/ (assoc x kv2 = None /\ R2 = [])).
    { destruct (assoc x kv2) as [v|] eqn:Hk; [|eauto].
      destruct (proj1 (Forall_forall _ _) Hall2 _ (assoc_some_in _ _ _ Hk)) as (R2 & s2 & HR2 & _).
      cbn in HR2; subst v; eauto. }
    destruct Hr2 as [R2 Hr2].
    destruct (legacy_update_lead_status_spec E x "INITIAL_EMAIL_SENT" ts w2 kv2 R2 Hs2 Hls2 Hr2)
      as (w3 & H3 & Hls3 & Hs3).
    exists tt, w3. split; [exact H3|]. rewrite Hls3. split; [|exact Hs3].
    eexists; split; [reflexivity|]. split.
    - apply Forall_dict_set; [|exact Hall2].
      exists (record_after_update "INITIAL_EMAIL_SENT" ts R2), (JStr "INITIAL_EMAIL_SENT").
      split; [reflexivity | apply record_after_update_status].
    - rewrite assoc_dict_set_neq by exact Hne. exact He2. }
  apply Hrest; assumption.
Qed.

Lemma legacy_new_leads_loop_inv E e d leads :
  Forall has_email leads -> assoc "status" d = Some (JStr "INITIAL_EMAIL_SENT") ->
  preserves_w (phase_a_inv e d) (legacy_new_leads_loop E leads).
Proof.
  intros Hl Hd. induction Hl as [|l leads Hl _ IH]; simpl.
  - apply preserves_w_frame; [apply frame_ret | apply file_ret | intros; eexists _, _; reflexivity].
  - apply preserves_w_bind; [apply legacy_new_lead_inv; auto | intros; exact IH].
Qed.

Lemma legacy_follow_up_missing_ts E leads item w :
  missing_ts_record item ->
  exists w', legacy_follow_up E leads item w = (Err (KeyError "initial_sent_timestamp"), w').
Proof.
  destruct item as [x v]. intros (d & Hv & Hs & Ht). cbn in Hv; subst v.
  unfold legacy_follow_up. rewrite (py_getitem_ret _ _ _ Hs), bind_ret_l. cbn [is_str negb].
  unfold py_getitem. rewrite Ht. eexists; reflexivity.
Qed.

Lemma legacy_follow_up_cases E leads item w :
  Forall has_email leads -> rec_with_status item -> object_store (lead_status w) ->
  state_writable w = true ->
  (exists w', legacy_follow_up E leads item w = (Err (KeyError "initial_sent_timestamp"), w'))
  \/ (exists w', legacy_follow_up E leads item w = (Ok tt, w') /\ object_store (lead_status w')
        /\ state_writable w' = true).
Proof.
  destruct item as [x v]. intros Hl (R & s & Hv & Hs) Hw Hsw. cbn in Hv; subst v.
  unfold legacy_follow_up. rewrite (py_getitem_ret _ _ _ Hs), bind_ret_l.
  destruct (negb (is_str s "INITIAL_EMAIL_SENT")); [right; eexists; split; [reflexivity | auto]|].
  destruct (assoc "initial_sent_timestamp" R) as [t|] eqn:Ht;
    [|left; unfold py_getitem; rewrite Ht; eexists; reflexivity].
  right. rewrite (py_getitem_ret _ _ _ Ht), bind_ret_l.
  match goal with |- exists w', ?m w = _ /\ _ => assert (Hs' : preserves_w object_store m) end.
  { pose proof (safe_find_lead leads x Hl).
    apply preserves_w_bind; [safe_w_tac | intros _].
    apply preserves_w_bind; [safe_w_tac | intros []]; [safe_w_tac|].
    apply preserves_w_bind; [safe_w_tac | intros []]; [|safe_w_tac].
    apply preserves_w_bind; [safe_w_tac | intros _].
    apply preserves_w_bind;
      [apply preserves_w_of_safe; [assumption | apply file_find_lead] | intros [[|p lead]|]];
      try solve [safe_w_tac].
    apply (preserves_w_bind_frame _ (fun d => d = None \/ exists s b, d = Some [("subject", s); ("body", b)]));
      [apply frame_draft_follow_up_email | apply file_draft_follow_up_email
      | apply draft_follow_up_email_total | apply draft_follow_up_email_fields |].
    intros dr [-> | (s1 & b1 & ->)]; [safe_w_tac|].
    rewrite (getitem_ret _ _ s1), bind_ret_l by reflexivity.
    rewrite (getitem_ret _ _ b1), bind_ret_l by reflexivity.
    safe_w_tac. }
  destruct (Hs' w Hw Hsw) as ([] & w' & H1 & H2 & H3). eauto.
Qed.

Lemma legacy_follow_ups_loop_aborts E leads items :
  Forall has_email leads -> Forall rec_with_status items -> Exists missing_ts_record items ->
  forall w, object_store (lead_status w) -> state_writable w = true ->
  exists w', legacy_follow_ups_loop E leads items w = (Err (KeyError "initial_sent_timestamp"), w').
Proof.
  intros Hl Hall Hex. induction Hex as [item rest Hb | item rest _ IH]; intros w Hw Hsw; simpl.
  - destruct (legacy_follow_up_missing_ts E leads item w Hb) as [w' H].
    rewrite (bind_err _ _ _ _ _ H). eauto.
  - inversion Hall as [|? ? Hi Hr]; subst.
    destruct (legacy_follow_up_cases E leads item w Hl Hi Hw Hsw) as [[w' H] | (w1 & H & Hw1 & Hs1)].
    + rewrite (bind_err _ _ _ _ _ H). eauto.
    + rewrite (bind_ok _ _ _ _ _ H). apply IH; auto.
Qed.

(** X17: in the earlier orchestrator, when the state file is writable, every stored entry is a record with a status and every lead has an email, a record with status INITIAL_EMAIL_SENT and no initial_sent_timestamp makes [run_workflow] on a nonempty lead list end in a KeyError for initial_sent_timestamp. *)
Theorem legacy_missing_timestamp_aborts E leads w r w' kv e d :
  state_writable w = true -> leads <> [] -> Forall has_email leads ->
  lead_status w = JDict kv -> Forall rec_with_status kv ->
  assoc e kv = Some (JDict d) -> assoc "status" d = Some (JStr "INITIAL_EMAIL_SENT") ->
  assoc "initial_sent_timestamp" d = None ->
  legacy_run_workflow E leads w = (r, w') ->
  r = Err (KeyError "initial_sent_timestamp").
Proof.
  intros Hsw Hne Hl Hls Hall He Hs Ht H. unfold legacy_run_workflow in H.
  rewrite (bind_ok _ _ _ _ _ (log_spec _ _ _)) in H.
  destruct leads as [|l0 ls0]; [congruence|].
  set (w1 := mkWorld _ _ _ _ _ _ _) in H.
  assert (Hi1 : phase_a_inv e d (lead_status w1)) by (exists kv; auto).
  destruct (legacy_new_leads_loop_inv E e d (l0 :: ls0) Hl Hs w1 Hi1 Hsw)
    as ([] & w2 & H2 & (kv2 & Hls2 & Hall2 & He2) & Hs2).
  rewrite (bind_ok _ _ _ _ _ H2), (bind_ok _ _ _ _ _ (log_spec _ _ _)) in H.
  rewrite (bind_ok _ _ _ _ _ (get_lead_status_spec _)) in H. cbn [lead_status] in H.
  rewrite Hls2 in H. rewrite (bind_ok _ _ _ _ _ (ret_spec kv2 _ : py_items (JDict kv2) _ = _)) in H.
  assert (Hex : Exists missing_ts_record kv2).
  { apply Exists_exists. exists (e, JDict d). split; [apply assoc_some_in, He2|].
    exists d; auto. }
  set (w3 := mkWorld _ _ _ _ _ _ _) in H.
  assert (Hw3 : object_store (lead_status w3)) by (cbn; try rewrite Hls2; apply rec_with_status_object, Hall2).
  destruct (legacy_follow_ups_loop_aborts E (l0 :: ls0) kv2 Hl Hall2 Hex w3 Hw3 Hs2) as [w4 H4].
  rewrite (bind_err _ _ _ _ _ H4) in H. inversion H; reflexivity.
Qed.

Lemma no_send_bind_post {A B} (P : A -> Prop) (m : M A) (k : A -> M B) :
  no_send m -> returns P m -> (forall a, P a -> no_send (k a)) -> no_send (bind m k).
Proof.
  intros Hm Hp Hk w r w' H e. unfold bind in H.
  destruct (m w) as [[a|err] w1] eqn:E1; pose proof (Hm _ _ _ E1 e).
  - rewrite (Hk a (Hp _ _ _ E1) _ _ _ H e); assumption.
  - inversion H; subst; assumption.
Qed.

Section NoGemini.
Variable E : env.
(** Gemini gives no usable text: no model, or every answer is empty. *)
Hypothesis no_text : forall p t, gemini_model E = true -> gemini_generate E p = Some t -> t = "".

Lemma draft_follow_up_email_none lead : returns (fun d => d = None) (draft_follow_up_email E lead).
Proof.
  unfold draft_follow_up_email. destruct (gemini_model E) eqn:Hm; cbn [negb]; [|returns_tac].
  apply returns_try_except; [|intros; returns_tac].
  apply returns_bind; intros fn. apply returns_bind; intros co. cbv zeta.
  apply returns_bind; intros _.
  destruct (gemini_generate E _) as [t|] eqn:Hg; [|apply returns_raise].
  rewrite (no_text _ _ eq_refl Hg). cbn [String.eqb]. returns_tac.
Qed.

Lemma no_send_process_follow_up leads item c : no_send (process_follow_up E leads item c).
Proof.
  destruct item as [email data], c as [fc rc]. unfold process_follow_up; cbv beta iota.
  repeat (first [solve [auto with sends] | match goal with
          | |- no_send (bind (draft_follow_up_email _ _) _) =>
              apply (no_send_bind_post (fun d => d = None));
              [auto with sends | apply draft_follow_up_email_none | intros ? ->]
          | |- no_send (bind _ _) => apply no_send_bind; [|intro]
          | |- no_send (if ?b then _ else _) => destruct b
          | |- no_send (match ?x with _ => _ end) => destruct x
          end]).
Qed.

Lemma no_send_follow_ups_loop leads items : forall c, no_send (follow_ups_loop E leads items c).
Proof.
  induction items as [|it items IH]; intros c; simpl; [auto with sends|].
  apply no_send_bind; [apply no_send_process_follow_up | intros; apply IH].
Qed.

End NoGemini.

(** X18: when Gemini only ever answers with empty text, [_process_follow_ups] attempts no follow-up email. *)
Theorem no_gemini_no_follow_up E leads w r w' e :
  (forall p t, gemini_model E = true -> gemini_generate E p = Some t -> t = "") ->
  process_follow_ups E leads w = (r, w') ->
  attempts_to e (events w') = attempts_to e (events w).
Proof.
  intros Hg H. revert w r w' H e. unfold process_follow_ups.
  apply no_send_bind; [auto with sends | intros ls].
  apply no_send_bind; [unfold py_items; destruct ls; auto with sends | intros items].
  apply no_send_bind; [apply no_send_follow_ups_loop, Hg | intros; auto with sends].
Qed.

(* ------------------------------------------------------------------ *)
(** * Instances on the sample configuration *)

(** The follow-up at exactly 48 hours after the initial email, with no
    reply, is sent. *)
Lemma follow_up_sent_iff_due_witness :
  fst (process_follow_up E0 [lead_ana] ("ana@x.com", JDict ana_record) (0, 0)
         (world0 store_sent)) = Ok (1, 0).
Proof.
  pose proof (follow_up_sent_iff_due E0 [] lead_ana [] "ana@x.com" ana_record 0 0
                "2024-01-01T00:00:00Z" t_sent "Ana" "Acme" "Just following up on my earlier note."
                [("ana@x.com", JDict ana_record)] (world0 store_sent)
                (fst (process_follow_up E0 [lead_ana] ("ana@x.com", JDict ana_record) (0, 0)
                        (world0 store_sent)))
                (snd (process_follow_up E0 [lead_ana] ("ana@x.com", JDict ana_record) (0, 0)
                        (world0 store_sent)))
                eq_refl eq_refl eq_refl eq_refl eq_refl eq_refl eq_refl (or_introl eq_refl)
                (Forall_nil _) eq_refl eq_refl eq_refl eq_refl eq_refl eq_refl eq_refl eq_refl
                ltac:(vm_compute; reflexivity)) as H.
  exact (proj1 H).
Defined.

(** A reply found two days after the initial email, with the follow-up also
    due: the record becomes REPLIED. *)
Lemma reply_takes_precedence_witness :
  fst (process_follow_up (sample_env (Some 1)) [lead_ana] ("ana@x.com", JDict ana_record) (0, 0)
         (world0 store_sent)) = Ok (0, 1).
Proof.
  pose proof (reply_takes_precedence (sample_env (Some 1)) [lead_ana] "ana@x.com" ana_record 0 0
                "2024-01-01T00:00:00Z" (Aware t_sent) 1 [("ana@x.com", JDict ana_record)]
                (world0 store_sent)
                (fst (process_follow_up (sample_env (Some 1)) [lead_ana]
                        ("ana@x.com", JDict ana_record) (0, 0) (world0 store_sent)))
                (snd (process_follow_up (sample_env (Some 1)) [lead_ana]
                        ("ana@x.com", JDict ana_record) (0, 0) (world0 store_sent)))
                eq_refl eq_refl eq_refl eq_refl eq_refl eq_refl eq_refl eq_refl eq_refl
                ltac:(vm_compute; reflexivity)) as H.
  exact (proj1 H).
Defined.

(** Bo, then Ana, both new: Ana gets her initial email. *)
Lemma pending_lead_initial_sent_witness :
  exists kv', lead_status (snd (process_new_leads E0 [lead_bad; lead_ana] (world0 (JDict []))))
              = JDict kv'
    /\ assoc "ana@x.com" kv'
       = Some (sent_record (isoformat_utc E0 (clock (snd (new_leads_loop E0 [lead_bad] 0
                                                            (world0 (JDict []))))))).
Proof.
  exact (pending_lead_initial_sent E0 [lead_bad] lead_ana [] "ana@x.com" "Acme" "Ana" 1
           (snd (new_leads_loop E0 [lead_bad] 0 (world0 (JDict []))))
           (match lead_status (snd (new_leads_loop E0 [lead_bad] 0 (world0 (JDict [])))) with
            | JDict kv => kv | _ => [] end)
           (world0 (JDict []))
           (fst (process_new_leads E0 [lead_bad; lead_ana] (world0 (JDict []))))
           (snd (process_new_leads E0 [lead_bad; lead_ana] (world0 (JDict []))))
           ltac:(vm_compute; reflexivity)
           eq_refl eq_refl eq_refl eq_refl
           ltac:(vm_compute; reflexivity) ltac:(vm_compute; reflexivity)
           eq_refl eq_refl
           ltac:(vm_compute; reflexivity)).
Defined.

(** A second run of Phase A after Ana's initial email leaves her record. *)
Lemma phase_a_keeps_non_pending_witness :
  exists kv', lead_status (snd (process_new_leads E0 [lead_ana] (world0 store_sent))) = JDict kv'
    /\ assoc "ana@x.com" kv' = Some (JDict ana_record).
Proof.
  exact (phase_a_keeps_non_pending E0 [lead_ana] (world0 store_sent)
           (fst (process_new_leads E0 [lead_ana] (world0 store_sent)))
           (snd (process_new_leads E0 [lead_ana] (world0 store_sent)))
           [("ana@x.com", JDict ana_record)] "ana@x.com" ana_record "INITIAL_EMAIL_SENT"
           eq_refl eq_refl eq_refl eq_refl ltac:(vm_compute; reflexivity)).
Defined.

(** A sent record that lost its timestamp is skipped without error. *)
Lemma missing_timestamp_skipped_witness :
  fst (follow_ups_loop E0 [lead_ana]
         [("ana@x.com", JDict [("status", JStr "INITIAL_EMAIL_SENT")])] (0, 0)
         (world0 store_sent)) = Ok (0, 0).
Proof.
  rewrite (missing_timestamp_skipped E0 [lead_ana] "ana@x.com"
             [("status", JStr "INITIAL_EMAIL_SENT")] [] 0 0 (world0 store_sent)
             eq_refl eq_refl).
  reflexivity.
Defined.

(** Ana's follow-up is due at exactly 48 hours and no reply came, but Ana is
    no longer among the fetched leads: no follow-up is sent and her record
    stays INITIAL_EMAIL_SENT. *)
Lemma due_follow_up_not_sent :
  fst (run_workflow E0 [lead_bad] (world0 store_sent)) = Ok tt
  /\ filter (fun ev => match ev with EvSend r _ _ _ => String.eqb r "ana@x.com" | _ => false end)
       (events (snd (run_workflow E0 [lead_bad] (world0 store_sent)))) = []
  /\ In (EvReplyQuery "from:ana@x.com after:1704067200")
       (events (snd (run_workflow E0 [lead_bad] (world0 store_sent))))
  /\ exists kv, lead_status (snd (run_workflow E0 [lead_bad] (world0 store_sent))) = JDict kv
                /\ assoc "ana@x.com" kv = Some (JDict ana_record).
Proof.
  vm_compute. split; [reflexivity|]. split; [reflexivity|]. split; [auto|].
  eexists; split; reflexivity.
Qed.




(** The store after Ana's initial email survives a restart. *)
Lemma state_roundtrip_witness :
  lead_status (snd ((init;; save_state) (mkWorld JNull (Some (dumps store_sent)) t_now [] [] true [])))
  = store_sent
  /\ state_file (snd ((init;; save_state) (mkWorld JNull (Some (dumps store_sent)) t_now [] [] true [])))
     = Some (dumps store_sent).
Proof.
  pose proof (state_roundtrip store_sent (mkWorld JNull (Some (dumps store_sent)) t_now [] [] true [])
                (fst ((init;; save_state) (mkWorld JNull (Some (dumps store_sent)) t_now [] [] true [])))
                (snd ((init;; save_state) (mkWorld JNull (Some (dumps store_sent)) t_now [] [] true [])))
                ltac:(eexists; split; [reflexivity|]; split;
                      [vm_compute; repeat constructor; simpl; tauto|];
                      repeat constructor; eexists; split; [reflexivity|]; split;
                      [vm_compute; repeat constructor; simpl; intuition discriminate|];
                      repeat constructor; eexists; reflexivity)
                eq_refl ltac:(vm_compute; reflexivity)) as H.
  exact (proj2 H).
Defined.

(** A valid address: one [@], no blanks or quotes. *)
Lemma valid_email_single_at_witness :
  count_occ ascii_dec (list_ascii_of_string (strip "ana@x.com")) "@"%char = 1
  /\ Forall (fun c => py_isspace c = false /\ c <> dq /\ c <> "'"%char /\ c <> bslash)
       (list_ascii_of_string (strip "ana@x.com")).
Proof. apply (valid_email_single_at "ana@x.com"). vm_compute. reflexivity. Defined.

(** Fetching Ana's row. *)
Lemma fetch_leads_validated_witness :
  exists leads, fst (fetch_leads sheet_ana (world0 (JDict []))) = Ok leads
  /\ Forall valid_lead leads
  /\ (leads <> [] -> sheets_service sheet_ana = true
        /\ exists rows, values_get sheet_ana = Ok (Some rows) /\ length leads <= length rows)
  /\ lead_status (snd (fetch_leads sheet_ana (world0 (JDict [])))) = lead_status (world0 (JDict []))
  /\ events (snd (fetch_leads sheet_ana (world0 (JDict [])))) = events (world0 (JDict [])).
Proof.
  apply (fetch_leads_validated sheet_ana (world0 (JDict []))
           (fst (fetch_leads sheet_ana (world0 (JDict []))))
           (snd (fetch_leads sheet_ana (world0 (JDict []))))).
  vm_compute. reflexivity.
Defined.

(** Ana's fetched lead gets the template draft. *)
Lemma fetched_lead_gets_template_draft_witness :
  exists co fn,
    fst (draft_initial_email E0 lead_ana_row (world0 (JDict [])))
      = Ok [("subject", strip ("A Partnership in Storytelling for " +++ co));
            ("body", strip (initial_body_template E0 fn))]
    /\ draft_ok [("subject", strip ("A Partnership in Storytelling for " +++ co));
                 ("body", strip (initial_body_template E0 fn))]
       = Some (strip ("A Partnership in Storytelling for " +++ co),
               strip (initial_body_template E0 fn)).
Proof.
  apply (fetched_lead_gets_template_draft E0 sheet_ana (world0 (JDict [])) [lead_ana_row]
           (snd (fetch_leads sheet_ana (world0 (JDict [])))) lead_ana_row (world0 (JDict []))).
  - vm_compute. reflexivity.
  - simpl. left. reflexivity.
Defined.

(** A run over the store after Ana's initial email. *)
Lemma object_store_run_completes_witness :
  fst (run_workflow E0 [lead_ana] (world0 store_sent)) = Ok tt
  /\ object_store (lead_status (snd (run_workflow E0 [lead_ana] (world0 store_sent))))
  /\ incl (store_keys (lead_status (world0 store_sent)))
          (store_keys (lead_status (snd (run_workflow E0 [lead_ana] (world0 store_sent)))))
  /\ state_file (snd (run_workflow E0 [lead_ana] (world0 store_sent)))
     = Some (dumps (lead_status (snd (run_workflow E0 [lead_ana] (world0 store_sent))))).
Proof.
  apply (object_store_run_completes E0 [lead_ana] (world0 store_sent)
           (fst (run_workflow E0 [lead_ana] (world0 store_sent)))
           (snd (run_workflow E0 [lead_ana] (world0 store_sent)))).
  - exists [("ana@x.com", JDict ana_record)]. split; [reflexivity|].
    constructor; [eexists; reflexivity | constructor].
  - constructor; [eexists; reflexivity | constructor].
  - vm_compute. reflexivity.
Defined.

(** Ana listed twice in an empty store gets one initial email. *)
Lemma initial_email_at_most_once_witness :
  sends_to "ana@x.com" (events (snd (process_new_leads E0 [lead_ana; lead_ana] (world0 (JDict [])))))
  <= sends_to "ana@x.com" (events (world0 (JDict [])))
     + Nat.b2n (pending_b (lead_status (world0 (JDict []))) "ana@x.com").
Proof.
  apply (initial_email_at_most_once E0 [lead_ana; lead_ana] (world0 (JDict []))
           (fst (process_new_leads E0 [lead_ana; lead_ana] (world0 (JDict []))))
           (snd (process_new_leads E0 [lead_ana; lead_ana] (world0 (JDict [])))) "ana@x.com").
  vm_compute. reflexivity.
Defined.

(** Ana's REPLIED record survives a run. *)
Lemma settled_record_untouched_witness :
  exists kv', lead_status (snd (run_workflow E0 [lead_ana] (world0 store_replied))) = JDict kv'
    /\ assoc "ana@x.com" kv' = Some (JDict [("status", JStr "REPLIED")]).
Proof.
  apply (settled_record_untouched E0 [lead_ana] (world0 store_replied)
           (fst (run_workflow E0 [lead_ana] (world0 store_replied)))
           (snd (run_workflow E0 [lead_ana] (world0 store_replied)))
           [("ana@x.com", JDict [("status", JStr "REPLIED")])] "ana@x.com"
           [("status", JStr "REPLIED")] "REPLIED").
  - vm_compute. reflexivity.
  - reflexivity.
  - constructor; [intros [] | constructor].
  - reflexivity.
  - reflexivity.
  - reflexivity.
  - reflexivity.
Defined.

(** Recording Ana's initial email in an empty store. *)
Lemma update_lead_status_lookup_witness :
  (exists v, assoc "ana@x.com" (@nil (string * json)) = Some v /\ (forall R, v <> JDict R)
             /\ fst update_ana = Err TypeError /\ snd update_ana = world0 (JDict []))
  \/ (exists R0 kv', (assoc "ana@x.com" (@nil (string * json)) = Some (JDict R0)
                      \/ (assoc "ana@x.com" (@nil (string * json)) = None /\ R0 = []))
        /\ fst update_ana = Ok tt /\ lead_status (snd update_ana) = JDict kv'
        /\ state_file (snd update_ana) = Some (dumps (JDict kv'))
        /\ events (snd update_ana) = events (world0 (JDict []))
        /\ exists R', assoc "ana@x.com" kv' = Some (JDict R')
        /\ assoc "status" R' = Some (JStr "INITIAL_EMAIL_SENT")
        /\ (forall f, ts_field "INITIAL_EMAIL_SENT" = Some f
                      -> assoc f R' = Some (JStr "2024-01-03T00:00:00+00:00"))
        /\ (forall f, f <> "status" -> ts_field "INITIAL_EMAIL_SENT" <> Some f
                      -> assoc f R' = assoc f R0)
        /\ (forall e, e <> "ana@x.com" -> assoc e kv' = assoc e (@nil (string * json)))).
Proof.
  apply (update_lead_status_lookup E0 "ana@x.com" "INITIAL_EMAIL_SENT" "2024-01-03T00:00:00+00:00"
           (world0 (JDict [])) [] (fst update_ana) (snd update_ana)).
  - reflexivity.
  - vm_compute. reflexivity.
Defined.

(** A state file holding [[]]. *)
Lemma array_state_file_aborts_witness :
  fst (main_run E0 [lead_ana] world_array) = Err AttributeError
  /\ events (snd (main_run E0 [lead_ana] world_array)) = events world_array
  /\ lead_status (snd (main_run E0 [lead_ana] world_array)) = JList []
  /\ state_file (snd (main_run E0 [lead_ana] world_array)) = Some (dumps (JList [])).
Proof.
  apply (array_state_file_aborts E0 lead_ana [] world_array (fst (main_run E0 [lead_ana] world_array))
           (snd (main_run E0 [lead_ana] world_array)) "ana@x.com" (dumps (JList [])) (JList [])).
  - reflexivity.
  - vm_compute. reflexivity.
  - left. eexists. reflexivity.
  - reflexivity.
  - vm_compute. reflexivity.
Defined.

(** Phase B over Ana's due record. *)
Lemma follow_up_attempt_at_most_once_witness :
  attempts_to "ana@x.com" (events (snd (process_follow_ups E0 [lead_ana] (world0 store_sent))))
  <= attempts_to "ana@x.com" (events (world0 store_sent))
     + match assoc "ana@x.com" [("ana@x.com", JDict ana_record)] with
       | Some d => if follow_up_candidate d then 1 else 0
       | None => 0
       end.
Proof.
  apply (follow_up_attempt_at_most_once E0 [lead_ana] (world0 store_sent)
           (fst (process_follow_ups E0 [lead_ana] (world0 store_sent)))
           (snd (process_follow_ups E0 [lead_ana] (world0 store_sent)))
           [("ana@x.com", JDict ana_record)] "ana@x.com").
  - vm_compute. reflexivity.
  - reflexivity.
  - constructor; [intros [] | constructor].
Defined.


(** One reply from Ana in the inbox. *)
Lemma reply_found_only_on_evidence_witness :
  exists s d k, JStr "2024-01-01T00:00:00Z" = JStr s /\ gmail_service (sample_env (Some 1)) = true
    /\ fromisoformat (sample_env (Some 1)) (replace_Z s) = Some d
    /\ gmail_list (sample_env (Some 1))
         ("from:" +++ "ana@x.com" +++ " after:" +++ string_of_Z (dt_timestamp (sample_env (Some 1)) d))
       = Some k
    /\ 0 < k
    /\ events (snd (check_for_reply (sample_env (Some 1)) "ana@x.com" (JStr "2024-01-01T00:00:00Z")
                      (world0 store_sent)))
       = events (world0 store_sent)
         ++ [EvReplyQuery ("from:" +++ "ana@x.com" +++ " after:"
                           +++ string_of_Z (dt_timestamp (sample_env (Some 1)) d))].
Proof.
  apply (reply_found_only_on_evidence (sample_env (Some 1)) "ana@x.com" (JStr "2024-01-01T00:00:00Z")
           (world0 store_sent)
           (snd (check_for_reply (sample_env (Some 1)) "ana@x.com" (JStr "2024-01-01T00:00:00Z")
                   (world0 store_sent)))).
  vm_compute. reflexivity.
Defined.

(** Due at exactly 48 hours, and still due one microsecond later. *)
Lemma follow_up_due_stays_due_witness :
  fst (should_send_follow_up E0 (JStr "2024-01-01T00:00:00Z")
         (mkWorld store_sent None (t_now + 1)%Z [] [] true [])) = Ok true.
Proof.
  apply (follow_up_due_stays_due E0 (JStr "2024-01-01T00:00:00Z") (world0 store_sent)
           (snd (should_send_follow_up E0 (JStr "2024-01-01T00:00:00Z") (world0 store_sent)))
           (mkWorld store_sent None (t_now + 1)%Z [] [] true [])).
  - vm_compute. reflexivity.
  - cbn. unfold t_now. lia.
Defined.

(** Gemini answers with two spaces. *)
Lemma blank_reply_signoff_only_witness :
  exists d, fst (draft_follow_up_email (with_gemini E0 (fun _ => Some "  ")) lead_ana
                   (world0 store_sent)) = Ok (Some d)
    /\ draft_ok d = Some ("Re: A Partnership in Storytelling for " +++ "Acme",
                          strip ("

All the best,

" +++ your_name (with_gemini E0 (fun _ => Some "  ")))).
Proof.
  apply (blank_reply_signoff_only (with_gemini E0 (fun _ => Some "  ")) lead_ana "ana@x.com"
           "Ana" "Acme" "  " (world0 store_sent)).
  - reflexivity.
  - reflexivity.
  - reflexivity.
  - reflexivity.
  - reflexivity.
  - reflexivity.
  - repeat constructor.
Defined.

(** A naive timestamp: the earlier version raises, the agents' answers false. *)
Lemma legacy_should_send_fails_closed_witness :
  fst (should_send_follow_up E0 (JStr "2024-01-01T00:00:00") (world0 store_sent))
  = match fst (legacy_should_send_follow_up E0 (JStr "2024-01-01T00:00:00") (world0 store_sent)) with
    | Ok b => Ok b
    | Err _ => Ok false
    end.
Proof.
  apply (legacy_should_send_fails_closed E0 (JStr "2024-01-01T00:00:00") (world0 store_sent)
           (fst (legacy_should_send_follow_up E0 (JStr "2024-01-01T00:00:00") (world0 store_sent)))
           (snd (legacy_should_send_follow_up E0 (JStr "2024-01-01T00:00:00") (world0 store_sent)))).
  vm_compute. reflexivity.
Defined.

(** Bo's record without a timestamp ends the earlier orchestrator's run. *)
Lemma legacy_missing_timestamp_aborts_witness :
  fst (legacy_run_workflow E0 [lead_ana] (world0 store_no_ts))
  = Err (KeyError "initial_sent_timestamp").
Proof.
  apply (legacy_missing_timestamp_aborts E0 [lead_ana] (world0 store_no_ts)
           (fst (legacy_run_workflow E0 [lead_ana] (world0 store_no_ts)))
           (snd (legacy_run_workflow E0 [lead_ana] (world0 store_no_ts)))
           [("bo@x.com", JDict [("status", JStr "INITIAL_EMAIL_SENT")])] "bo@x.com"
           [("status", JStr "INITIAL_EMAIL_SENT")]).
  - reflexivity.
  - discriminate.
  - constructor; [eexists; reflexivity | constructor].
  - reflexivity.
  - constructor; [do 2 eexists; split; reflexivity | constructor].
  - reflexivity.
  - reflexivity.
  - reflexivity.
  - vm_compute. reflexivity.
Defined.

(** Gemini answers every prompt with the empty string. *)
Lemma no_gemini_no_follow_up_witness :
  attempts_to "ana@x.com"
    (events (snd (process_follow_ups (with_gemini E0 (fun _ => Some "")) [lead_ana]
                    (world0 store_sent))))
  = attempts_to "ana@x.com" (events (world0 store_sent)).
Proof.
  apply (no_gemini_no_follow_up (with_gemini E0 (fun _ => Some "")) [lead_ana] (world0 store_sent)
           (fst (process_follow_ups (with_gemini E0 (fun _ => Some "")) [lead_ana]
                   (world0 store_sent)))
           (snd (process_follow_ups (with_gemini E0 (fun _ => Some "")) [lead_ana]
                   (world0 store_sent))) "ana@x.com").
  - intros p t _ H. injection H as <-. reflexivity.
  - vm_compute. reflexivity.
Defined.
